(** * AevumDB storage engine: append-only log, recovery, indexes, CRUD pipeline

    A shallow embedding of [src/storage/engine.cpp] and [src/storage/db.cpp]
    together with the properties of the storage specification that can be
    settled on it, and of what the storage layer calls and is called by:
    [src/infra/string.cpp], [src/infra/id_generator.cpp] and the request
    handler [src/network/handler.cpp].

    Conventions of the embedding.
    - [std::string] is [string]; the bytes of a file are a [list ascii].
    - [uint32_t], [unsigned long] (LP64: 64 bits) and [size_t] are [Z] with
      the wrap-around written out.
    - [std::unordered_map] is [gmap], [std::unordered_set] is [gset],
      [std::vector] is [list].  The iteration order of the unordered
      containers is unspecified in C++; all statements below that depend on
      such an iteration are order independent.
    - a [cJSON*] is an [option cJSON] ([None] is [nullptr]); documents are
      never mutated once they are stored, so the pointers kept by the indexes
      are modelled by the documents they point to.  Where the code compares
      such pointers ([Db::remove]), the model compares the documents and
      takes the youngest of equal ones, as the primary index does; the
      statements on it say where they need the document to occur once.
    - cJSON and the Rust predicate engine are external libraries.  The tree
      accessors of cJSON are modelled on the [cJSON] record; its parser, its
      printer and the engine entry points are parameters of the development.
    - the outcome of every file operation is chosen by the environment and is
      an explicit argument; calls to the logger have no effect on the state
      and are left out. *)

From Stdlib Require Import ZArith Lia Ascii String List Bool DecimalString.
From Stdlib Require Import Floats.PrimFloat Floats.FloatAxioms.
From Stdlib Require Uint63.
From stdpp Require Import base option list gmap strings.

Local Open Scope string_scope.
Local Open Scope list_scope.
Local Open Scope Z_scope.

(** ** Persistence engine ([engine.cpp]) *)

Module Engine.

(** The files below [base_path_], by path. *)
Abbreviation Disk := (gmap string (list ascii)).

(** [std::string::c_str]/[data]: the bytes of a string. *)
Definition c_str (s : string) : list ascii := list_ascii_of_string s.

(** [std::string::size], a [size_t]. *)
Definition size (s : string) : Z := Z.of_nat (length (c_str s)).

Definition uint32_t (n : Z) : Z := n mod 2 ^ 32.

(** The four bytes [reinterpret_cast<const char*>(&length)] exposes on a
    little-endian machine. *)
Definition le32_bytes (n : Z) : list ascii :=
  map (fun i => ascii_of_N (Z.to_N ((n / 2 ^ (8 * i)) mod 256))) [0; 1; 2; 3].

(** The [uint32_t] that four bytes read into [&payload_length] denote. *)
Definition le32_value (header : list ascii) : Z :=
  fold_right (fun b acc => Z.of_N (N_of_ascii b) + 256 * acc) 0 header.

Definition get_path (base_path_ collection : string) : string :=
  base_path_ +:+ "/" +:+ collection +:+ ".aev".

(** What one pass of the writer puts on the stream for a payload:
    [file.write(&length, 4); file.write(raw_json.c_str(), length)]
    with [length = static_cast<uint32_t>(raw_json.size())]. *)
Definition frame (raw_json : string) : list ascii :=
  let length := uint32_t (size raw_json) in
  le32_bytes length ++ take (Z.to_nat length) (c_str raw_json).

Definition frames (docs : list string) : list ascii :=
  concat (map frame docs).

(** The payload of the frame written for a string: the string itself when
    its size fits 32 bits, and its first [size mod 2 ^ 32] bytes if not. *)
Definition stored (raw_json : string) : string :=
  string_of_list_ascii
    (take (Z.to_nat (uint32_t (size raw_json))) (c_str raw_json)).

(** Outcome of opening and writing an output stream, chosen by the
    environment.  A [std::ofstream] buffers what it is given: the bytes
    reach the file when the buffer fills and, at the latest, when the stream
    is closed.  Either everything reaches the file; or the file could not be
    opened; or the stream went bad during a [write], after [written] bytes
    reached the file; or the stream was still good when its state was read
    and the write of the buffered bytes at the close failed, after [written]
    bytes reached the file. *)
Inductive write_result :=
| WriteOk
| OpenFailed
| WriteFailed (written : nat)
| CloseFailed (written : nat).

(** [Engine::append].  The value returned is [file.good()] as it is before
    the stream is closed: nothing flushes the stream first, so a write that
    fails only at the close is reported as a success. *)
Definition append (base_path_ : string) (disk : Disk)
    (collection raw_json : string) (io : write_result) : bool * Disk :=
  let path := get_path base_path_ collection in
  let old := default [] (disk !! path) in
  match io with
  | OpenFailed => (false, disk)
  | WriteFailed written =>
      (false, <[path := old ++ take written (frame raw_json)]> disk)
  | CloseFailed written =>
      (true, <[path := old ++ take written (frame raw_json)]> disk)
  | WriteOk => (true, <[path := old ++ frame raw_json]> disk)
  end.

(** The reader loop of [Engine::load_log].  Every iteration that continues
    consumes at least the four header bytes, so [fuel] equal to the number
    of bytes left is never exhausted. *)
Fixpoint read_frames (fuel : nat) (input : list ascii) (logs : list string)
    : list string :=
  match fuel with
  | O => logs
  | S fuel' =>
      match input with
      | [] => logs                                   (* peek() == EOF *)
      | _ :: _ =>
          let header := take 4 input in
          if (length header <? 4)%nat then logs      (* gcount() < 4 *)
          else
            let payload_length := le32_value header in
            let buffer := take (Z.to_nat payload_length) (drop 4 input) in
            if (Z.of_nat (length buffer) =? payload_length)
            then read_frames fuel'
                   (drop (Z.to_nat payload_length) (drop 4 input))
                   (logs ++ [string_of_list_ascii buffer])
            else logs
      end
  end.

(** [Engine::load_log]: a file that cannot be opened gives no frames. *)
Definition load_log (base_path_ : string) (disk : Disk) (collection : string)
    : list string :=
  match disk !! get_path base_path_ collection with
  | None => []
  | Some file => read_frames (length file) file []
  end.

(** Outcome of the three fallible steps of [Engine::compact]. *)
Inductive compact_result :=
| CompactOk
| TmpOpenFailed
| TmpWriteFailed
| RenameFailed.

(** [Engine::compact]. *)
Definition compact (base_path_ : string) (disk : Disk) (collection : string)
    (active_docs : list string) (io : compact_result) : bool * Disk :=
  let path := get_path base_path_ collection in
  let temp_path := path +:+ ".tmp" in
  match io with
  | TmpOpenFailed => (false, disk)
  | TmpWriteFailed => (false, delete temp_path disk)     (* fs::remove *)
  | RenameFailed => (false, <[temp_path := frames active_docs]> disk)
  | CompactOk =>
      (true, <[path := frames active_docs]> (delete temp_path disk))
  end.

(** [path().extension()] and [path().stem()] of a file name: the part
    from the last dot on, unless that dot is the first character. *)
Fixpoint last_dot (name : list ascii) (pos : nat) (found : option nat)
    : option nat :=
  match name with
  | [] => found
  | c :: rest =>
      last_dot rest (S pos)
        (if Ascii.eqb c "."%char then Some pos else found)
  end.

Definition split_extension (filename : string) : string * string :=
  let cs := c_str filename in
  match last_dot cs 0%nat None with
  | Some (S p) =>
      (string_of_list_ascii (take (S p) cs),
       string_of_list_ascii (drop (S p) cs))
  | _ => (filename, "")
  end.

Definition stem (filename : string) : string := fst (split_extension filename).
Definition extension (filename : string) : string :=
  snd (split_extension filename).

(** [Engine::list_collections]; [entries] are the names of the regular
    files of the data directory in the order [fs::directory_iterator]
    yields them, which is unspecified. *)
Definition list_collections (entries : list string) : list string :=
  map stem (filter (fun f => extension f = ".aev") entries).

(** The bytes of a collection's log; a missing file has none. *)
Definition log_bytes (base_path_ : string) (disk : Disk) (collection : string)
    : list ascii :=
  default [] (disk !! get_path base_path_ collection).

(** Appending payloads one after the other, every write succeeding. *)
Definition append_all (base_path_ : string) (disk : Disk) (collection : string)
    (payloads : list string) : Disk :=
  fold_left (fun d raw => snd (append base_path_ d collection raw WriteOk))
    payloads disk.

(** Raw bytes put at the end of a log file behind the engine's back, as a
    crash in the middle of a write leaves them. *)
Definition write_raw (base_path_ : string) (disk : Disk) (collection : string)
    (bytes : list ascii) : Disk :=
  let path := get_path base_path_ collection in
  <[path := default [] (disk !! path) ++ bytes]> disk.

(** A torn frame: fewer than four header bytes, or a whole header followed
    by fewer payload bytes than it announces. *)
Definition incomplete_frame (tail : list ascii) : Prop :=
  (length tail < 4)%nat \/
  exists header body,
    tail = header ++ body /\ length header = 4%nat /\
    Z.of_nat (length body) < le32_value header.

(** A payload whose size fits the 32-bit length field of a frame. *)
Definition fits_frame (raw_json : string) : Prop := size raw_json < 2 ^ 32.

(** A payload of exactly [2 ^ 32] bytes. *)
Definition four_gib_payload : string :=
  string_of_list_ascii (repeat "a"%char (Z.to_nat (2 ^ 32))).

End Engine.


(** ** Utilities ([infra/string.cpp], [infra/id_generator.cpp]) *)

Module InfraString.

(** [std::isspace] of an [unsigned char] in the C locale (the server never
    sets another one): the space and the five control characters from the
    horizontal tab to the carriage return. *)
Definition isspace (c : ascii) : bool :=
  let n := nat_of_ascii c in
  ((n =? 32) || ((9 <=? n) && (n <=? 13)))%nat.

(** The prefix scan of [String::trim]: the string from [start] on, once
    [start] has moved over the leading whitespace. *)
Fixpoint prefix_scan (s : list ascii) : list ascii :=
  match s with
  | c :: rest => if isspace c then prefix_scan rest else s
  | [] => []
  end.

(** The suffix scan: [end] steps back once, and then again as long as it
    is beyond [start] and on a whitespace character.  The loop is entered
    with [end] at [end_] characters from [start], [end_] at least 1; the
    result is the distance of [end] from [start] when the loop is left. *)
Fixpoint suffix_scan (from_start : list ascii) (end_ : nat) : nat :=
  match end_ with
  | O => O
  | S e =>
      if (0 <? e)%nat && isspace (nth e from_start "000"%char)
      then suffix_scan from_start e
      else e
  end.

(** [String::trim]. *)
Definition trim (s : string) : string :=
  let from_start := prefix_scan (list_ascii_of_string s) in
  match from_start with
  | [] => ""
  | _ :: _ =>
      let end_ := suffix_scan from_start (length from_start) in
      string_of_list_ascii (take (S end_) from_start)
  end.

End InfraString.

Module IdGenerator.

Definition uint16_t (n : Z) : Z := n mod 2 ^ 16.

Definition hex_digit (d : Z) : ascii :=
  ascii_of_N (Z.to_N (if d <? 10 then 48 + d else 87 + d)).

(** [operator<<] of an unsigned integer under [std::hex]: its digits, the
    most significant first, without leading zeros. *)
Fixpoint hex_digits (fuel : nat) (n : Z) : list ascii :=
  match fuel with
  | O => []
  | S fuel' =>
      if n <? 16 then [hex_digit n]
      else hex_digits fuel' (n / 16) ++ [hex_digit (n mod 16)]
  end.

(** A value of 64 bits has at most 16 digits. *)
Definition hex (n : Z) : list ascii := hex_digits 16 n.

(** [std::setw(w)] under [std::setfill('0')]: the field is filled on the
    left up to [w] characters; a longer one is not cut. *)
Definition setw (w : nat) (field : list ascii) : list ascii :=
  repeat "0"%char (w - length field) ++ field.

(** [IdGenerator::generate]; [p1] and [p2] are the two 64-bit samples
    drawn from the random engine. *)
Definition generate (p1 p2 : Z) : string :=
  string_of_list_ascii
    (setw 8 (hex (Engine.uint32_t (Z.shiftr p1 32)))
     ++ "-"%char
     :: setw 4 (hex (uint16_t (Z.land (Z.shiftr p1 16) 0xFFFF)))
     ++ "-"%char
     :: setw 4 (hex (Z.lor (Z.land p1 0x0FFF) 0x4000))
     ++ "-"%char
     :: setw 4 (hex (Z.lor (Z.land (Z.shiftr p2 48) 0x3FFF) 0x8000))
     ++ "-"%char
     :: setw 12 (hex (Z.land p2 0xFFFFFFFFFFFF))).

(** The bits of the two samples that reach the identifier: all of [p1]
    but bits 12 to 15, all of [p2] but bits 62 and 63. *)
Definition used_bits_p1 : Z := 0xFFFFFFFFFFFF0FFF.
Definition used_bits_p2 : Z := 0x3FFFFFFFFFFFFFFF.

Definition is_hex (c : ascii) : Prop :=
  In c (list_ascii_of_string "0123456789abcdef").

(** The [w] low hexadecimal digits of a number, the most significant
    first. *)
Fixpoint low_digits (w : nat) (n : Z) : list ascii :=
  match w with
  | O => []
  | S w' => low_digits w' (n / 16) ++ [hex_digit (n mod 16)]
  end.

(** The five groups of the identifier as numbers. *)
Definition group1 (p1 : Z) : Z := (p1 / 2 ^ 32) mod 2 ^ 32.
Definition group2 (p1 : Z) : Z := (p1 / 2 ^ 16) mod 2 ^ 16.
Definition group3 (p1 : Z) : Z := p1 mod 2 ^ 12 + 2 ^ 14.
Definition group4 (p2 : Z) : Z := (p2 / 2 ^ 48) mod 2 ^ 14 + 2 ^ 15.
Definition group5 (p2 : Z) : Z := p2 mod 2 ^ 48.

End IdGenerator.

(** ** The cJSON tree and its accessors (external library) *)

Module cjson.

Inductive cJSON_type :=
| cJSON_Invalid | cJSON_False | cJSON_True | cJSON_NULL | cJSON_Number
| cJSON_String | cJSON_Array | cJSON_Object | cJSON_Raw.

#[local] Set Warnings "-register-all".

(** [struct cJSON]: [string_] is the member name ([string] in cJSON.h) and
    [child] the chain of children linked through [next]. *)
Inductive cJSON := cJSON_node {
  type : cJSON_type;
  valuestring : option string;
  valuedouble : float;
  string_ : option string;
  child : list cJSON
}.

#[global] Instance cJSON_type_eq_dec : EqDecision cJSON_type.
Proof. solve_decision. Defined.

Definition tolower (c : ascii) : ascii :=
  let n := nat_of_ascii c in
  if ((65 <=? n) && (n <=? 90))%nat then ascii_of_nat (n + 32) else c.

(** [case_insensitive_strcmp(a, b) == 0] for two non-null strings. *)
Definition case_insensitive_equal (a b : string) : bool :=
  bool_decide (map tolower (list_ascii_of_string a)
               = map tolower (list_ascii_of_string b)).

(** The children of the node a pointer refers to; [cJSON_ArrayForEach]
    walks them and walks nothing for a null pointer. *)
Definition children (array : option cJSON) : list cJSON :=
  match array with
  | Some a => child a
  | None => []
  end.

(** [cJSON_GetObjectItem]: the first child whose name matches, letter case
    ignored; children without a name never match. *)
Definition cJSON_GetObjectItem (object : option cJSON) (name : string)
    : option cJSON :=
  List.find
    (fun c => match string_ c with
              | Some k => case_insensitive_equal name k
              | None => false
              end)
    (children object).

Definition cJSON_HasObjectItem (object : option cJSON) (name : string) : bool :=
  bool_decide (is_Some (cJSON_GetObjectItem object name)).

Definition cJSON_GetArraySize (array : option cJSON) : nat :=
  length (children array).

Definition has_type (t : cJSON_type) (item : option cJSON) : bool :=
  match item with
  | Some i => bool_decide (type i = t)
  | None => false
  end.

Definition cJSON_IsString := has_type cJSON_String.
Definition cJSON_IsNumber := has_type cJSON_Number.
Definition cJSON_IsTrue := has_type cJSON_True.

Definition cJSON_CreateArray : cJSON :=
  cJSON_node cJSON_Array None 0%float None [].

Definition cJSON_CreateObject : cJSON :=
  cJSON_node cJSON_Object None 0%float None [].

Definition cJSON_CreateString (s : string) : cJSON :=
  cJSON_node cJSON_String (Some s) 0%float None [].

Definition cJSON_CreateBool (b : bool) : cJSON :=
  cJSON_node (if b then cJSON_True else cJSON_False) None 0%float None [].

Definition cJSON_CreateNumber (d : float) : cJSON :=
  cJSON_node cJSON_Number None d None [].

Definition set_name (name : string) (item : cJSON) : cJSON :=
  cJSON_node (type item) (valuestring item) (valuedouble item) (Some name)
    (child item).

(** The node with one more child at the end of its chain. *)
Definition append_child (a item : cJSON) : cJSON :=
  cJSON_node (type a) (valuestring a) (valuedouble a) (string_ a)
    (child a ++ [item]).

(** [cJSON_AddItemToArray]: the item becomes the last child; nothing
    happens to a null array. *)
Definition cJSON_AddItemToArray (array : option cJSON) (item : cJSON)
    : option cJSON :=
  match array with
  | Some a => Some (append_child a item)
  | None => None
  end.

(** The [cJSON_Add...ToObject] family, on a receiver that is not null. *)
Definition cJSON_AddItemToObject (object : cJSON) (name : string)
    (item : cJSON) : cJSON :=
  append_child object (set_name name item).

Definition cJSON_AddStringToObject (object : cJSON) (name s : string) : cJSON :=
  cJSON_AddItemToObject object name (cJSON_CreateString s).

Definition cJSON_AddBoolToObject (object : cJSON) (name : string) (b : bool)
    : cJSON :=
  cJSON_AddItemToObject object name (cJSON_CreateBool b).

Definition cJSON_AddNumberToObject (object : cJSON) (name : string)
    (d : float) : cJSON :=
  cJSON_AddItemToObject object name (cJSON_CreateNumber d).

(** [cJSON_Duplicate(item, 1)] copies the whole tree: the same value. *)
Definition cJSON_Duplicate (item : cJSON) : cJSON := item.

(** Equality of trees is decidable.  The stored documents are kept by
    pointer in the C++ code and by value here; two documents of a
    collection that are equal as values are still two objects. *)
#[global] Instance float_eq_dec : EqDecision float.
Proof.
  intros x y. destruct (Leibniz.eqb x y) eqn:E.
  - left. by apply Leibniz.eqb_spec.
  - right. intros Heq. apply Leibniz.eqb_spec in Heq. congruence.
Defined.

#[global] Instance cJSON_eq_dec : EqDecision cJSON.
Proof.
  refine (fix go (a b : cJSON) {struct a} : Decision (a = b) :=
    match a, b with
    | cJSON_node t1 v1 d1 s1 c1, cJSON_node t2 v2 d2 s2 c2 =>
        cast_if_and5 (decide (t1 = t2)) (decide (v1 = v2))
          (decide (d1 = d2)) (decide (s1 = s2))
          (@list_eq_dec _ go c1 c2)
    end); congruence.
Defined.

(** [std::find] followed by [erase] on a vector of documents, and the
    unlinking of a child from its chain.  The code looks for a pointer, and
    the pointer it is given is the one the primary index holds for the
    identifier.  Of documents that are equal as values the primary index
    holds the last in array order ([Db::insert] appends the document it
    files, [Db::rebuild_index] walks the array and lets a later document
    take the place of an earlier one), and the index entries are filled in
    array order as well.  So the element erased is the last one equal to
    [doc]; [None] when there is none.

    One pointer may stand twice in an index entry ([Db::create_index] files
    the documents again under the fields declared before).  The code then
    erases one of the two and the other stays behind, pointing to the
    document [Db::remove] frees; no value stands for such a pointer, and what
    is stated about the entries after a removal is stated for documents that
    are filed once. *)
Fixpoint erase_last (doc : cJSON) (vec : list cJSON) : option (list cJSON) :=
  match vec with
  | [] => None
  | d :: rest =>
      match erase_last doc rest with
      | Some rest' => Some (d :: rest')
      | None => if bool_decide (d = doc) then Some rest else None
      end
  end.

(** The list once [doc] has been erased from it, if it was there. *)
Definition without (doc : cJSON) (vec : list cJSON) : list cJSON :=
  default vec (erase_last doc vec).

(** [cJSON_DetachItemViaPointer] for an item that is a child of [parent];
    a null parent is left alone. *)
Definition cJSON_DetachItemViaPointer (parent : option cJSON) (item : cJSON)
    : option cJSON :=
  match parent with
  | Some a =>
      Some (cJSON_node (type a) (valuestring a) (valuedouble a) (string_ a)
              (without item (child a)))
  | None => None
  end.

End cjson.

(** ** What the storage layer takes from outside

    The parser and printer of cJSON, [std::to_string(double)], the entry
    points of the Rust predicate engine ([rust_find] and [rust_update] may
    hand back a null pointer), and whether plain [char] is a signed type for
    the compiler at hand (it is on x86-64, it is not on AArch64 Linux). *)

Class External := {
  char_is_signed : bool;
  cJSON_Parse : string -> option cjson.cJSON;
  cJSON_PrintUnformatted : cjson.cJSON -> string;
  to_string_double : float -> string;
  rust_validate : string -> string -> bool;
  rust_count : string -> string -> Z;
  rust_find : string -> string -> string -> string -> Z -> Z -> option string;
  rust_update : string -> string -> string -> option string
}.

(** What a callee that takes a [const char*] sees of [s.c_str()]: the
    bytes before the first NUL.  (The strings the libraries hand back are C
    strings and hold no NUL.) *)
Fixpoint c_string (s : string) : string :=
  match s with
  | EmptyString => EmptyString
  | String c rest =>
      if Ascii.eqb c "000"%char then EmptyString else String c (c_string rest)
  end.

(** ** Calls that may not return

    Building a [std::string] from a null [char*] is undefined behaviour
    (libstdc++ throws [std::logic_error]); nothing in the server catches it. *)

Inductive outcome (A : Type) : Type :=
| Returns (a : A)
| Throws.
Arguments Returns {A} a.
Arguments Throws {A}.

#[global] Instance outcome_bind : MBind outcome := fun A B k m =>
  match m with
  | Returns a => k a
  | Throws => Throws
  end.

Definition std_string (p : option string) : outcome string :=
  match p with
  | Some s => Returns s
  | None => Throws
  end.

Fixpoint foldM {A B} (f : A -> B -> outcome A) (l : list B) (a : A)
    : outcome A :=
  match l with
  | [] => Returns a
  | x :: l' => a' ← f a x; foldM f l' a'
  end.

(** ** Credential hashing ([Db::hash_key]) *)

Module Hash.

Definition unsigned_long (n : Z) : Z := n mod 2 ^ 64.

(** The value of a [char] holding the byte [c], as the operand of [+]:
    promoted to [int], so negative from 0x80 on where [char] is signed. *)
Definition char_value (char_is_signed : bool) (c : ascii) : Z :=
  let b := Z.of_N (N_of_ascii c) in
  if char_is_signed && (128 <=? b) then b - 256 else b.

(** [hash = ((hash << 5) + hash) + c] on [unsigned long]; [c] is converted
    to [unsigned long] for the addition. *)
Definition hash_step (char_is_signed : bool) (hash : Z) (c : ascii) : Z :=
  unsigned_long
    (unsigned_long (unsigned_long (Z.shiftl hash 5) + hash)
     + unsigned_long (char_value char_is_signed c)).

(** [std::to_string] of an [unsigned long]. *)
Definition to_string (n : Z) : string :=
  NilZero.string_of_uint (N.to_uint (Z.to_N n)).

(** [Db::hash_key]. *)
Definition hash_key (char_is_signed : bool) (key : string) : string :=
  to_string
    (fold_left (hash_step char_is_signed) (list_ascii_of_string key) 5381).

(** The DJB2 accumulation of the specification over a sequence of
    summands: start at 5381, then [hash * 33 + c] modulo [2 ^ 64]. *)
Definition djb2 (summands : list Z) : Z :=
  fold_left (fun hash c => (hash * 33 + c) mod 2 ^ 64) summands 5381.

(** The bytes of a string as numbers from 0 to 255. *)
Definition byte_values (key : string) : list Z :=
  map (fun c => Z.of_N (N_of_ascii c)) (list_ascii_of_string key).

(** The [char]s of a string as the compiler sees them. *)
Definition char_values (char_is_signed : bool) (key : string) : list Z :=
  map (char_value char_is_signed) (list_ascii_of_string key).

Definition ascii_only (key : string) : Prop :=
  Forall (fun b => b < 128) (byte_values key).

End Hash.

(** ** Database controller ([db.cpp]) *)

Module Db.
Import cjson.

Inductive UserRole := NONE | READ_ONLY | READ_WRITE | ADMIN.

(** The members of [class Db]; [storage_] is the engine, that is its
    [base_path_].  The reader-writer lock is the subject of [Module
    Locking] below. *)
Record Db := mkDb {
  storage_ : string;
  memory_store_ : gmap string (option cJSON);
  id_indexes_ : gmap string (gmap string cJSON);
  schemas_ : gmap string cJSON;
  custom_indexes_ : gmap string (gmap string (gmap string (list cJSON)));
  indexed_fields_ : gmap string (gset string);
  auth_cache_ : gmap string UserRole
}.

Definition set_memory_store (f : gmap string (option cJSON) ->
                                 gmap string (option cJSON)) (db : Db) : Db :=
  mkDb (storage_ db) (f (memory_store_ db)) (id_indexes_ db) (schemas_ db)
    (custom_indexes_ db) (indexed_fields_ db) (auth_cache_ db).

Definition set_id_indexes (f : gmap string (gmap string cJSON) ->
                               gmap string (gmap string cJSON)) (db : Db) : Db :=
  mkDb (storage_ db) (memory_store_ db) (f (id_indexes_ db)) (schemas_ db)
    (custom_indexes_ db) (indexed_fields_ db) (auth_cache_ db).

Definition set_schemas (f : gmap string cJSON -> gmap string cJSON)
    (db : Db) : Db :=
  mkDb (storage_ db) (memory_store_ db) (id_indexes_ db) (f (schemas_ db))
    (custom_indexes_ db) (indexed_fields_ db) (auth_cache_ db).

Definition set_custom_indexes
    (f : gmap string (gmap string (gmap string (list cJSON))) ->
         gmap string (gmap string (gmap string (list cJSON))))
    (db : Db) : Db :=
  mkDb (storage_ db) (memory_store_ db) (id_indexes_ db) (schemas_ db)
    (f (custom_indexes_ db)) (indexed_fields_ db) (auth_cache_ db).

Definition set_indexed_fields (f : gmap string (gset string) ->
                                   gmap string (gset string)) (db : Db) : Db :=
  mkDb (storage_ db) (memory_store_ db) (id_indexes_ db) (schemas_ db)
    (custom_indexes_ db) (f (indexed_fields_ db)) (auth_cache_ db).

Definition set_auth_cache (f : gmap string UserRole -> gmap string UserRole)
    (db : Db) : Db :=
  mkDb (storage_ db) (memory_store_ db) (id_indexes_ db) (schemas_ db)
    (custom_indexes_ db) (indexed_fields_ db) (f (auth_cache_ db)).

(** [m[k]] of an unordered map of containers: a missing entry reads as the
    empty container (C++ inserts it, which no later lookup can tell from
    its absence). *)
Definition at_ `{Countable K} {V} `{Empty V} (m : gmap K V) (k : K) : V :=
  default ∅ (m !! k).

(** The database the constructor starts from. *)
Definition empty_db (data_dir : string) : Db := mkDb data_dir ∅ ∅ ∅ ∅ ∅ ∅.

Section with_external.
Context `{External}.

(** [cJSON_PrintUnformatted] of a pointer: null for a null item. *)
Definition print_ptr (item : option cJSON) : option string :=
  cJSON_PrintUnformatted <$> item.

(** The key under which [update_custom_index] files a field value:
    a string by its text, a number by [std::to_string]. *)
Definition index_key (val : option cJSON) : option string :=
  match val with
  | Some v =>
      if cJSON_IsString val && bool_decide (is_Some (valuestring v))
      then valuestring v
      else if cJSON_IsNumber val then Some (to_string_double (valuedouble v))
      else None
  | None => None
  end.

(** [Db::update_custom_index(coll, doc, true)].  The branch for
    [add == false], which [Db::remove] alone reaches, is
    [update_custom_index_remove] below. *)
Definition update_custom_index (db : Db) (coll : string) (doc : cJSON) : Db :=
  match indexed_fields_ db !! coll with
  | None => db
  | Some fields =>
      set_fold
        (fun field db =>
           match index_key (cJSON_GetObjectItem (Some doc) field) with
           | Some key_val =>
               let by_field := at_ (custom_indexes_ db) coll in
               let by_value := at_ by_field field in
               let vec := default [] (by_value !! key_val) in
               set_custom_indexes
                 <[coll := <[field := <[key_val := vec ++ [doc]]> by_value]>
                             by_field]> db
           | None => db
           end)
        db fields
  end.

(** The body of the loop of [Db::rebuild_index]: the document goes into
    the primary index when its [_id] is a string, and into the secondary
    indexes. *)
Definition index_document (collection : string) (db : Db) (item : cJSON)
    : Db :=
  let id_node := cJSON_GetObjectItem (Some item) "_id" in
  let db :=
    match id_node with
    | Some n =>
        match valuestring n with
        | Some id =>
            if cJSON_IsString id_node
            then set_id_indexes
                   <[collection :=
                       <[id := item]> (at_ (id_indexes_ db) collection)]>
                   db
            else db
        | None => db
        end
    | None => db
    end in
  update_custom_index db collection item.

(** [Db::rebuild_index]. *)
Definition rebuild_index (db : Db) (collection : string)
    (array : option cJSON) : Db :=
  let db := set_id_indexes <[collection := ∅]> db in
  let db := set_custom_indexes <[collection := ∅]> db in
  fold_left (index_document collection) (children array) db.

(** [memory_store_[coll]] where the entry itself matters: a missing
    collection is inserted with a null array. *)
Definition memory_store_subscript (db : Db) (coll : string)
    : option cJSON * Db :=
  match memory_store_ db !! coll with
  | Some array => (array, db)
  | None => (None, set_memory_store <[coll := None]> db)
  end.

(** [Db::compact_collection]. *)
Definition compact_collection (db : Db) (disk : Engine.Disk) (coll : string)
    (io : Engine.compact_result) : bool * Db * Engine.Disk :=
  if bool_decide (memory_store_ db !! coll = None) then (false, db, disk)
  else
    let '(array, db) := memory_store_subscript db coll in
    let active_docs := map cJSON_PrintUnformatted (children array) in
    let '(ok, disk) :=
      Engine.compact (storage_ db) disk coll active_docs io in
    (ok, db, disk).

(** [Db::trigger_compaction]. *)
Definition trigger_compaction := compact_collection.

(** [Db::get_collection]. *)
Definition get_collection (db : Db) (name : string) : option cJSON * Db :=
  match memory_store_ db !! name with
  | Some array => (array, db)
  | None =>
      (Some cJSON_CreateArray,
       set_id_indexes <[name := ∅]>
         (set_memory_store <[name := Some cJSON_CreateArray]> db))
  end.

Definition parse_role (role : string) : UserRole :=
  if bool_decide (role = "admin") then ADMIN
  else if bool_decide (role = "read_write") then READ_WRITE
  else READ_ONLY.

(** *** Recovery ([Db::load_all]) *)

(** Phase 1, one entry of an index snapshot. *)
Definition load_index_entry (fields : gmap string (gset string))
    (item : cJSON) : outcome (gmap string (gset string)) :=
  match cJSON_GetObjectItem (Some item) "collection",
        cJSON_GetObjectItem (Some item) "field" with
  | Some c, Some f =>
      c_name ← std_string (valuestring c);
      f_name ← std_string (valuestring f);
      Returns (<[c_name := at_ fields c_name ∪ {[f_name]}]> fields)
  | _, _ => Returns fields
  end.

Definition load_index_frame (fields : gmap string (gset string))
    (log : string) : outcome (gmap string (gset string)) :=
  match cJSON_Parse (c_string log) with
  | Some arr => foldM load_index_entry (child arr) fields
  | None => Returns fields
  end.

(** Phase 2, the body of the loop over the frames of one log: the schema
    registry and the snapshot under construction ([temp_map]). *)
Definition replay_frame (name : string)
    (st : gmap string cJSON * gmap string cJSON) (log_entry : string)
    : gmap string cJSON * gmap string cJSON :=
  let '(schemas, temp_map) := st in
  match cJSON_Parse (c_string log_entry) with
  | None => st
  | Some item =>
      if bool_decide (name = "_schemas") then
        match cJSON_GetObjectItem (Some item) "collection" with
        | Some c_name =>
            match valuestring c_name with
            | Some c => (<[c := item]> schemas, temp_map)
            | None => st
            end
        | None => st
        end
      else
        match cJSON_GetObjectItem (Some item) "_id" with
        | Some id_node =>
            match valuestring id_node with
            | Some uuid =>
                let deleted := cJSON_GetObjectItem (Some item) "_deleted" in
                if cJSON_IsTrue deleted then
                  if bool_decide (is_Some (temp_map !! uuid))
                  then (schemas, delete uuid temp_map)
                  else st
                else (schemas, <[uuid := item]> temp_map)
            | None => st
            end
        | None => st
        end
  end.

(** Phase 3, the auth cache, one document of [_auth]. *)
Definition load_auth_entry (cache : gmap string UserRole) (item : cJSON)
    : outcome (gmap string UserRole) :=
  match cJSON_GetObjectItem (Some item) "key_hash",
        cJSON_GetObjectItem (Some item) "role" with
  | Some k, Some r =>
      role_str ← std_string (valuestring r);
      key_hash ← std_string (valuestring k);
      Returns (<[key_hash := parse_role role_str]> cache)
  | _, _ => Returns cache
  end.

(** The credential a document of [_auth] stands for: its [key_hash] and
    the role its [role] member names, when it has both members and both
    have a string value. *)
Definition credential (item : cJSON) : option (string * UserRole) :=
  match cJSON_GetObjectItem (Some item) "key_hash",
        cJSON_GetObjectItem (Some item) "role" with
  | Some k, Some r =>
      match valuestring k, valuestring r with
      | Some key_hash, Some role_str => Some (key_hash, parse_role role_str)
      | _, _ => None
      end
  | _, _ => None
  end.

(** A document recovery can take in: one that lacks one of the two
    members, or stands for a credential. *)
Definition readable_user (item : cJSON) : Prop :=
  cJSON_GetObjectItem (Some item) "key_hash" = None
  \/ cJSON_GetObjectItem (Some item) "role" = None
  \/ is_Some (credential item).

(** The fragmentation test at the end of the loop body.  Neither size can
    come near [2 ^ 63] (a [std::vector<std::string>] holds fewer than
    [2 ^ 59] elements), so the [size_t] product does not wrap. *)
Definition fragmented (logs_size temp_map_size : nat) : bool :=
  ((temp_map_size * 2 <? logs_size) && (100 <? temp_map_size))%nat.

(** The body of the loop of [Db::load_all] for one collection name;
    [io name] is how the compaction of [name] fares if it is tried. *)
Definition load_collection (io : string -> Engine.compact_result)
    (st : Db * Engine.Disk) (name : string) : outcome (Db * Engine.Disk) :=
  let '(db, disk) := st in
  let logs := Engine.load_log (storage_ db) disk name in
  if bool_decide (name = "_indexes") then
    fields ← foldM load_index_frame logs (indexed_fields_ db);
    Returns (set_indexed_fields (fun _ => fields) db, disk)
  else
    let '(schemas, temp_map) :=
      fold_left (replay_frame name) logs (schemas_ db, ∅) in
    let db := set_schemas (fun _ => schemas) db in
    if bool_decide (name = "_schemas") then Returns (db, disk)
    else
      let collection_arr :=
        fold_left (fun arr '(_, doc) => cJSON_AddItemToArray arr doc)
          (map_to_list temp_map) (Some cJSON_CreateArray) in
      let db := set_memory_store <[name := collection_arr]> db in
      let db := rebuild_index db name collection_arr in
      db ←
        (if bool_decide (name = "_auth") then
           cache ← foldM load_auth_entry (children collection_arr)
                         (auth_cache_ db);
           Returns (set_auth_cache (fun _ => cache) db)
         else Returns db);
      if fragmented (length logs) (size temp_map)
      then let '(_, db, disk) := compact_collection db disk name (io name) in
           Returns (db, disk)
      else Returns (db, disk).

(** [Db::load_all]; [entries] is the directory listing. *)
Definition load_all (io : string -> Engine.compact_result)
    (db : Db) (disk : Engine.Disk) (entries : list string)
    : outcome (Db * Engine.Disk) :=
  foldM (load_collection io) (Engine.list_collections entries) (db, disk).

(** *** Replay, in the words of the specification

    What a frame of a document collection stands for: a frame that does not
    parse or has no [_id] with a string value is skipped, a frame whose
    [_deleted] member is [true] is a tombstone for its [_id], any other
    frame is a version of the document under its [_id]. *)

Inductive frame_meaning :=
| Skipped
| Tombstone (id : string)
| Version (id : string) (doc : cJSON).

Definition meaning (log_entry : string) : frame_meaning :=
  match cJSON_Parse (c_string log_entry) with
  | None => Skipped
  | Some item =>
      match cJSON_GetObjectItem (Some item) "_id" ≫= valuestring with
      | None => Skipped
      | Some id =>
          if cJSON_IsTrue (cJSON_GetObjectItem (Some item) "_deleted")
          then Tombstone id
          else Version id item
      end
  end.

Definition apply_frame (docs : gmap string cJSON) (m : frame_meaning)
    : gmap string cJSON :=
  match m with
  | Skipped => docs
  | Tombstone id => delete id docs
  | Version id doc => <[id := doc]> docs
  end.

(** The left fold of the frames of a log, from no document at all. *)
Definition replay (logs : list string) : gmap string cJSON :=
  fold_left (fun docs log_entry => apply_frame docs (meaning log_entry))
    logs ∅.

(** *** Index declaration *)

(** [Db::create_index]. *)
Definition create_index (db : Db) (disk : Engine.Disk) (coll field : string)
    (io : Engine.compact_result) : bool * Db * Engine.Disk :=
  if bool_decide (field ∈ at_ (indexed_fields_ db) coll) then (true, db, disk)
  else
    let db :=
      set_indexed_fields
        <[coll := at_ (indexed_fields_ db) coll ∪ {[field]}]> db in
    let db :=
      match memory_store_ db !! coll with
      | Some array =>
          fold_left (fun db item => update_custom_index db coll item)
            (children array) db
      | None => db
      end in
    let idx_arr :=
      fold_left
        (fun arr '(c_name, fields) =>
           fold_left
             (fun arr f_name =>
                append_child arr
                  (cJSON_AddStringToObject
                     (cJSON_AddStringToObject cJSON_CreateObject
                        "collection" c_name)
                     "field" f_name))
             (elements fields) arr)
        (map_to_list (indexed_fields_ db)) cJSON_CreateArray in
    let raw := cJSON_PrintUnformatted idx_arr in
    let '(ok, disk) :=
      Engine.compact (storage_ db) disk "_indexes" [raw] io in
    (ok, db, disk).

(** The entry of the snapshot for one declaration, the declarations of
    a registry in the order [create_index] walks it, and the snapshot
    [create_index] prints. *)
Definition declaration (c_name f_name : string) : cJSON :=
  cJSON_AddStringToObject
    (cJSON_AddStringToObject cJSON_CreateObject "collection" c_name)
    "field" f_name.

Definition declarations (fields : gmap string (gset string))
    : list (string * string) :=
  flat_map (fun '(c_name, fs) => map (pair c_name) (elements fs))
    (map_to_list fields).

Definition index_snapshot (fields : gmap string (gset string)) : cJSON :=
  fold_left (fun arr '(c_name, f_name) =>
               append_child arr (declaration c_name f_name))
    (declarations fields) cJSON_CreateArray.

(** *** Users *)

Definition hash_key (key : string) : string :=
  Hash.hash_key char_is_signed key.

(** [Db::create_user]; [uuid] is what [IdGenerator::generate] returns and
    [now] what [std::time] returns. *)
Definition create_user (db : Db) (disk : Engine.Disk) (key role : string)
    (uuid : string) (now : float) (io : Engine.write_result)
    : bool * Db * Engine.Disk :=
  let hashed := hash_key key in
  let db := set_auth_cache <[hashed := parse_role role]> db in
  let user_doc := cJSON_CreateObject in
  let user_doc := cJSON_AddStringToObject user_doc "_id" uuid in
  let user_doc := cJSON_AddStringToObject user_doc "key_hash" hashed in
  let user_doc := cJSON_AddStringToObject user_doc "role" role in
  let user_doc := cJSON_AddNumberToObject user_doc "created_at" now in
  let raw := cJSON_PrintUnformatted user_doc in
  let '(ok, disk) := Engine.append (storage_ db) disk "_auth" raw io in
  let '(arr, db) := get_collection db "_auth" in
  let db :=
    set_memory_store <["_auth" := cJSON_AddItemToArray arr user_doc]> db in
  (ok, db, disk).

(** [Db::authenticate]. *)
Definition authenticate (db : Db) (key : string) : UserRole :=
  if bool_decide (key = "") then NONE
  else default NONE (auth_cache_ db !! hash_key key).

(** [Db::has_permission]. *)
Definition has_permission (user_role : UserRole) (action : string) : bool :=
  match user_role with
  | ADMIN => true
  | READ_WRITE =>
      bool_decide (action = "insert") || bool_decide (action = "update")
      || bool_decide (action = "delete") || bool_decide (action = "upsert")
      || bool_decide (action = "find") || bool_decide (action = "count")
  | READ_ONLY =>
      bool_decide (action = "find") || bool_decide (action = "count")
  | NONE => false
  end.

(** The constructor [Db::Db]: recovery, then the default administrator
    when no credential was loaded. *)
Definition open (data_dir : string) (disk : Engine.Disk)
    (entries : list string) (io : string -> Engine.compact_result)
    (root_uuid : string) (now : float) (root_io : Engine.write_result)
    : outcome (Db * Engine.Disk) :=
  '(db, disk) ← load_all io (empty_db data_dir) disk entries;
  if bool_decide (auth_cache_ db = ∅)
  then let '(_, db, disk) :=
         create_user db disk "root" "admin" root_uuid now root_io in
       Returns (db, disk)
  else Returns (db, disk).

(** *** The CRUD pipeline *)

(** [Db::validate]. *)
Definition validate (db : Db) (coll : string) (data : cJSON) : bool :=
  match schemas_ db !! coll with
  | None => true
  | Some schema =>
      rust_validate (cJSON_PrintUnformatted data)
        (cJSON_PrintUnformatted schema)
  end.

(** [Db::insert]; [fresh_id] is what [IdGenerator::generate] returns when
    it is called.  ([data] itself gains the [_id] member; the caller's
    tree is not part of the state kept here.) *)
Definition insert (db : Db) (disk : Engine.Disk) (coll : string)
    (data : cJSON) (fresh_id : string) (io : Engine.write_result)
    : outcome (bool * Db * Engine.Disk) :=
  if negb (validate db coll data) then Returns (false, db, disk)
  else
    let '(arr, db) := get_collection db coll in
    '(uuid, data) ←
      (if negb (cJSON_HasObjectItem (Some data) "_id")
       then Returns (fresh_id, cJSON_AddStringToObject data "_id" fresh_id)
       else
         uuid ← std_string
                      (cJSON_GetObjectItem (Some data) "_id" ≫= valuestring);
         Returns (uuid, data));
    let new_item := cJSON_Duplicate data in
    let db :=
      set_memory_store <[coll := cJSON_AddItemToArray arr new_item]> db in
    let db :=
      set_id_indexes
        <[coll := <[uuid := new_item]> (at_ (id_indexes_ db) coll)]> db in
    let db := update_custom_index db coll new_item in
    let raw := cJSON_PrintUnformatted new_item in
    let '(ok, disk) := Engine.append (storage_ db) disk coll raw io in
    Returns (ok, db, disk).

Definition is_null {A} (p : option A) : bool :=
  match p with
  | None => true
  | Some _ => false
  end.

(** [Db::count]. *)
Definition count (db : Db) (coll : string) (query : option cJSON)
    : outcome Z :=
  match memory_store_ db !! coll with
  | None => Returns 0
  | Some array =>
      if is_null query || (cJSON_GetArraySize query =? 0)%nat
      then Returns (Z.of_nat (cJSON_GetArraySize array))
      else
        raw_data ← std_string (print_ptr array);
        raw_query ← std_string (print_ptr query);
        Returns (rust_count raw_data raw_query)
  end.

(** [ffi::call_find] and [ffi::call_update]: a null result of the engine
    reads as the text of an empty object. *)
Definition call_find (data query sort projection : string) (limit skip : Z)
    : string :=
  default "{}" (rust_find data query sort projection limit skip).

Definition call_update (data query update : string) : string :=
  default "{}" (rust_update data query update).

Definition size_t (n : Z) : Z := n mod 2 ^ 64.

(** [Db::find]. *)
Definition find (db : Db) (coll : string)
    (query sort projection : option cJSON) (limit skip : Z)
    : outcome (option cJSON) :=
  match memory_store_ db !! coll with
  | None => Returns (Some cJSON_CreateArray)
  | Some array =>
      let id_query := cJSON_GetObjectItem query "_id" in
      let simple_req :=
        (is_null sort || (cJSON_GetArraySize sort =? 0)%nat)
        && (is_null projection || (cJSON_GetArraySize projection =? 0)%nat) in
      let tier3 :=
        raw_data ← std_string (print_ptr array);
        raw_query ← std_string (print_ptr query);
        let raw_sort :=
          cJSON_PrintUnformatted (default cJSON_CreateObject sort) in
        let raw_proj :=
          cJSON_PrintUnformatted (default cJSON_CreateObject projection) in
        Returns (cJSON_Parse
                   (call_find raw_data raw_query raw_sort raw_proj limit skip))
      in
      match (if simple_req && cJSON_IsString id_query
             then id_query ≫= valuestring else None) with
      | Some target_id =>
          (* Tier 1 *)
          match at_ (id_indexes_ db) coll !! target_id with
          | Some doc =>
              Returns (cJSON_AddItemToArray (Some cJSON_CreateArray)
                         (cJSON_Duplicate doc))
          | None => Returns (Some cJSON_CreateArray)
          end
      | None =>
          (* Tier 2 *)
          match (if simple_req && (cJSON_GetArraySize query =? 1)%nat
                 then indexed_fields_ db !! coll else None),
                head (children query) with
          | Some fields, Some child =>
              match string_ child with
              | Some field =>
                  if bool_decide (field ∈ fields) then
                    val_str ←
                      (if cJSON_IsString (Some child)
                       then std_string (valuestring child)
                       else if cJSON_IsNumber (Some child)
                       then Returns (to_string_double (valuedouble child))
                       else Returns "");
                    if bool_decide (val_str = "") then tier3
                    else
                      match at_ (at_ (custom_indexes_ db) coll) field
                              !! val_str with
                      | Some docs =>
                          let n := Z.of_nat (length docs) in
                          let start := size_t skip in
                          let end_ :=
                            if 0 <? limit
                            then Z.min (size_t (start + size_t limit)) n
                            else n in
                          Returns
                            (Some
                               (fold_left append_child
                                  (if start <? n
                                   then map cJSON_Duplicate
                                          (take (Z.to_nat (end_ - start))
                                             (drop (Z.to_nat start) docs))
                                   else [])
                                  cJSON_CreateArray))
                      | None => Returns (Some cJSON_CreateArray)
                      end
                  else tier3
              | None => tier3
              end
          | _, _ => tier3
          end
      end
  end.

(** [Db::update]; the request handler passes a query and update
    operators that are not null. *)
Definition update (db : Db) (disk : Engine.Disk) (coll : string)
    (query data : cJSON) (io : Engine.compact_result)
    : outcome (bool * Db * Engine.Disk) :=
  match memory_store_ db !! coll with
  | None => Returns (false, db, disk)
  | Some array =>
      raw_d ← std_string (print_ptr array);
      let raw_q := cJSON_PrintUnformatted query in
      let raw_u := cJSON_PrintUnformatted data in
      let res := call_update raw_d raw_q raw_u in
      let new_collection := cJSON_Parse res in
      let db := set_memory_store <[coll := new_collection]> db in
      let db := rebuild_index db coll new_collection in
      let '(_, db, disk) := compact_collection db disk coll io in
      Returns (true, db, disk)
  end.

(** The two halves of [Db::upsert]: the call of [count], and the call of
    [update] or [insert] its result selects. *)
Definition upsert_mutation (existing : Z) (db : Db) (disk : Engine.Disk)
    (coll : string) (query data : cJSON)
    (fresh_id : string) (append_io : Engine.write_result)
    (compact_io : Engine.compact_result)
    : outcome (bool * Db * Engine.Disk) :=
  if 0 <? existing
  then update db disk coll query data compact_io
  else insert db disk coll data fresh_id append_io.

(** [Db::upsert], run without interference of other threads. *)
Definition upsert (db : Db) (disk : Engine.Disk) (coll : string)
    (query data : cJSON)
    (fresh_id : string) (append_io : Engine.write_result)
    (compact_io : Engine.compact_result)
    : outcome (bool * Db * Engine.Disk) :=
  existing ← count db coll (Some query);
  upsert_mutation existing db disk coll query data fresh_id append_io
    compact_io.

(** *** Schemas ([Db::set_schema]) *)

(** [Db::set_schema]; the request handler passes a schema that is not
    null. *)
Definition set_schema (db : Db) (disk : Engine.Disk) (coll : string)
    (schema : cJSON) (io : Engine.write_result)
    : bool * Db * Engine.Disk :=
  let db := set_schemas <[coll := cJSON_Duplicate schema]> db in
  let raw := cJSON_PrintUnformatted schema in
  let '(ok, disk) := Engine.append (storage_ db) disk "_schemas" raw io in
  (ok, db, disk).

(** The name under which recovery registers a schema frame: the value of
    the [collection] member of the schema itself. *)
Definition schema_name (item : cJSON) : option string :=
  cJSON_GetObjectItem (Some item) "collection" ≫= valuestring.

(** *** Deletion ([Db::remove]) *)

(** [Db::update_custom_index(coll, doc, false)]: the document leaves the
    entry of each registered field it has a key for; an entry that becomes
    empty is erased, and an entry looked up in vain has been created
    empty by the subscript. *)
Definition update_custom_index_remove (db : Db) (coll : string) (doc : cJSON)
    : Db :=
  match indexed_fields_ db !! coll with
  | None => db
  | Some fields =>
      set_fold
        (fun field db =>
           match index_key (cJSON_GetObjectItem (Some doc) field) with
           | Some key_val =>
               let by_field := at_ (custom_indexes_ db) coll in
               let by_value := at_ by_field field in
               let vec := default [] (by_value !! key_val) in
               let by_value :=
                 match erase_last doc vec with
                 | Some [] => delete key_val by_value
                 | Some vec => <[key_val := vec]> by_value
                 | None => <[key_val := vec]> by_value
                 end in
               set_custom_indexes <[coll := <[field := by_value]> by_field]> db
           | None => db
           end)
        db fields
  end.

(** The identifiers [remove] collects from a list of documents: the
    [_id] of each document that has one with a string value. *)
Definition collect_ids (docs : list cJSON) : list string :=
  omap (fun d => cJSON_GetObjectItem (Some d) "_id" ≫= valuestring) docs.

(** The tombstone [remove] writes for an identifier. *)
Definition tombstone (uuid : string) : cJSON :=
  cJSON_AddBoolToObject
    (cJSON_AddStringToObject cJSON_CreateObject "_id" uuid) "_deleted" true.

(** The body of the execution loop of [Db::remove] for one identifier;
    [io uuid] is how the append of its tombstone fares. *)
Definition remove_document (io : string -> Engine.write_result)
    (coll : string) (st : Db * Engine.Disk) (uuid : string)
    : Db * Engine.Disk :=
  let '(db, disk) := st in
  match at_ (id_indexes_ db) coll !! uuid with
  | None => st
  | Some target_doc =>
      let raw_tomb := cJSON_PrintUnformatted (tombstone uuid) in
      let '(_, disk) :=
        Engine.append (storage_ db) disk coll raw_tomb (io uuid) in
      let db := update_custom_index_remove db coll target_doc in
      let db :=
        set_id_indexes
          <[coll := delete uuid (at_ (id_indexes_ db) coll)]> db in
      let '(array, db) := memory_store_subscript db coll in
      let db :=
        set_memory_store
          <[coll := cJSON_DetachItemViaPointer array target_doc]> db in
      (db, disk)
  end.

(** [Db::remove]; the request handler passes a query that is not null. *)
Definition remove (db : Db) (disk : Engine.Disk) (coll : string)
    (query : cJSON) (io : string -> Engine.write_result)
    : outcome (bool * Db * Engine.Disk) :=
  match memory_store_ db !! coll with
  | None => Returns (false, db, disk)
  | Some array =>
      let id_query := cJSON_GetObjectItem (Some query) "_id" in
      let is_simple_req := (cJSON_GetArraySize (Some query) =? 1)%nat in
      ids_to_remove ←
        match (if is_simple_req && cJSON_IsString id_query
               then id_query ≫= valuestring else None) with
        | Some target_id =>
            (* 1. Single ID Deletion *)
            Returns
              (if bool_decide
                    (is_Some (at_ (id_indexes_ db) coll !! target_id))
               then [target_id] else [])
        | None =>
            (* 2. Index Deletion *)
            match (if is_simple_req then indexed_fields_ db !! coll
                   else None),
                  head (child query) with
            | Some fields, Some child =>
                match string_ child with
                | Some field =>
                    if bool_decide (field ∈ fields) then
                      val_str ←
                        (if cJSON_IsString (Some child)
                         then std_string (valuestring child)
                         else if cJSON_IsNumber (Some child)
                         then Returns (to_string_double (valuedouble child))
                         else Returns "");
                      if bool_decide (val_str = "") then Returns []
                      else
                        Returns
                          (collect_ids
                             (default []
                                (at_ (at_ (custom_indexes_ db) coll) field
                                   !! val_str)))
                    else Returns []
                | None => Returns []
                end
            | _, _ => Returns []
            end
        end;
      (* 3. Full Scan *)
      ids_to_remove ←
        (if bool_decide (ids_to_remove = []) then
           raw_d ← std_string (print_ptr array);
           let raw_q := cJSON_PrintUnformatted query in
           let find_res_str := call_find raw_d raw_q "{}" "{}" 0 0 in
           Returns (collect_ids (children (cJSON_Parse find_res_str)))
         else Returns ids_to_remove);
      if bool_decide (ids_to_remove = []) then Returns (false, db, disk)
      else
        (* 4. Tombstone Writing & Memory Detachment *)
        let '(db, disk) :=
          fold_left (remove_document io coll) ids_to_remove (db, disk) in
        Returns (true, db, disk)
  end.

(** *** Reading the state *)

(** The documents of a collection, in array order; none when the
    collection is missing or its array is null. *)
Definition documents (db : Db) (coll : string) : list cJSON :=
  children (default None (memory_store_ db !! coll)).

(** [custom_indexes_[coll][field][key]], empty when there is no entry. *)
Definition index_entry (db : Db) (coll field key : string) : list cJSON :=
  default [] (at_ (at_ (custom_indexes_ db) coll) field !! key).

(** A document that is filed in the secondary indexes of a collection as
    [update_custom_index] files a document once: it stands at most once in
    an entry, and only in entries of registered fields under the key of its
    value there. *)
Definition filed_once (db : Db) (coll : string) (doc : cJSON) : Prop :=
  forall field key,
    (forall before after,
        index_entry db coll field key = before ++ doc :: after ->
        (doc ∉ before) /\ (doc ∉ after))
    /\ (doc ∈ index_entry db coll field key ->
        field ∈ at_ (indexed_fields_ db) coll
        /\ index_key (cJSON_GetObjectItem (Some doc) field) = Some key).

(** The identifier [rebuild_index] files a document under: the value of
    its [_id] member when that is a string. *)
Definition document_id (doc : cJSON) : option string :=
  let id_node := cJSON_GetObjectItem (Some doc) "_id" in
  if cJSON_IsString id_node then id_node ≫= valuestring else None.

(** The document [insert] stores for [data], and the identifier it files
    it under when [data] has no [_id] or one with a string value. *)
Definition inserted_document (data : cJSON) (fresh_id : string) : cJSON :=
  if cJSON_HasObjectItem (Some data) "_id" then data
  else cJSON_AddStringToObject data "_id" fresh_id.

Definition inserted_id (data : cJSON) (fresh_id : string) : option string :=
  if cJSON_HasObjectItem (Some data) "_id"
  then cJSON_GetObjectItem (Some data) "_id" ≫= valuestring
  else Some fresh_id.

End with_external.

(** *** The permission table of the specification *)

Definition read_actions : list string := ["find"; "count"].
Definition write_actions : list string :=
  ["insert"; "update"; "delete"; "upsert"].
Definition admin_actions : list string :=
  ["create_user"; "set_schema"; "create_index"; "compact"].

Definition permitted (role : UserRole) (action : string) : Prop :=
  match role with
  | ADMIN => True
  | READ_WRITE => action ∈ read_actions ++ write_actions
  | READ_ONLY => action ∈ read_actions
  | NONE => False
  end.

End Db.

(** ** The reader-writer lock

    Every public method of [Db] but [upsert] opens with a guard on
    [rw_lock_] that lives until the method returns: its whole body is one
    critical section.  A call is the list of the critical sections its
    thread goes through; between two of them the thread holds no lock. *)

Module Locking.
Import cjson Db.

Inductive lock_mode :=
| Shared      (* std::shared_lock *)
| Exclusive.  (* std::unique_lock *)

Abbreviation State := (Db * Engine.Disk)%type.

(** A critical section: the mode of its guard, and what the thread does to
    the guarded state while the guard lives.  The number is what the thread
    carries from one section to the next ([existing] in [upsert]) and, at
    the end, the value the call returns. *)
Record critical_section := {
  mode : lock_mode;
  body : Z -> State -> outcome (Z * State)
}.

Definition of_bool (b : bool) : Z := if b then 1 else 0.

Section with_external.
Context `{External}.

(** [Db::count]: [std::shared_lock lock(rw_lock_)]. *)
Definition count_section (coll : string) (query : option cJSON)
    : critical_section :=
  {| mode := Shared;
     body := fun _ '(db, disk) =>
       n ← count db coll query; Returns (n, (db, disk)) |}.

(** [Db::insert] and [Db::update]: [std::unique_lock lock(rw_lock_)];
    in [upsert] the result of [count] selects one of them. *)
Definition mutation_section (coll : string) (query data : cJSON)
    (fresh_id : string) (append_io : Engine.write_result)
    (compact_io : Engine.compact_result) : critical_section :=
  {| mode := Exclusive;
     body := fun existing '(db, disk) =>
       '(ok, db, disk) ←
         upsert_mutation existing db disk coll query data fresh_id
           append_io compact_io;
       Returns (of_bool ok, (db, disk)) |}.

(** [Db::upsert] has no guard of its own: its thread passes through the
    critical section of [count] and then through that of the mutation. *)
Definition upsert_sections (coll : string) (query data : cJSON)
    (fresh_id : string) (append_io : Engine.write_result)
    (compact_io : Engine.compact_result) : list critical_section :=
  [count_section coll (Some query);
   mutation_section coll query data fresh_id append_io compact_io].

End with_external.

(** A thread: the critical sections it still has to go through and the
    number it carries. *)
Abbreviation thread := (list critical_section * Z)%type.

(** A schedule names, step by step, the thread that enters its next
    critical section; the lock lets the section run to its end before any
    exclusive section of another thread starts. *)
Fixpoint run (schedule : list nat) (threads : list thread) (st : State)
    : outcome (list thread * State) :=
  match schedule with
  | [] => Returns (threads, st)
  | t :: schedule =>
      match threads !! t with
      | Some (section :: rest, carried) =>
          '(carried, st) ← body section carried st;
          run schedule (<[t := (rest, carried)]> threads) st
      | _ => run schedule threads st
      end
  end.

(** The claim of the specification about a call: one critical section,
    taken with the writer lock. *)
Definition one_exclusive_section (call : list critical_section) : Prop :=
  exists section, call = [section] /\ mode section = Exclusive.

End Locking.

(** ** Request handler ([network/handler.cpp]) *)

Module Handler.
Import cjson Db.

(** What the environment decides while one request is served: the
    identifier [IdGenerator::generate] returns, the time [std::time]
    returns, and how the file operations fare ([tombstone_io uuid] for the
    append of the tombstone of [uuid]). *)
Record Env := {
  fresh_id : string;
  now : float;
  append_io : Engine.write_result;
  tombstone_io : string -> Engine.write_result;
  compact_io : Engine.compact_result
}.

Definition quoted (s : string) : string :=
  String "034"%char s +:+ String "034"%char "".

(** The responses the handler returns as string literals: an object with
    the members [status] and [message]. *)
Definition literal_response (status message : string) : string :=
  "{" +:+ quoted "status" +:+ ":" +:+ quoted status +:+ ","
  +:+ quoted "message" +:+ ":" +:+ quoted message +:+ "}".

(** The text of a member of the request: its [valuestring], and the
    empty string when the member is missing or its [valuestring] is
    null. *)
Definition member_string (req : cJSON) (name : string) : string :=
  match cJSON_GetObjectItem (Some req) name with
  | Some item => default "" (valuestring item)
  | None => ""
  end.

(** The conversion of an [int] to [double]. *)
Definition double_of_int (n : Z) : float :=
  if n <? 0 then PrimFloat.opp (PrimFloat.of_uint63 (Uint63.of_Z (- n)))
  else PrimFloat.of_uint63 (Uint63.of_Z n).

(** [role == UserRole::ADMIN] and [role == UserRole::NONE]. *)
Definition is_admin (role : UserRole) : bool :=
  match role with
  | ADMIN => true
  | _ => false
  end.

Definition is_none (role : UserRole) : bool :=
  match role with
  | NONE => true
  | _ => false
  end.

(** The registries only an administrator may change: the credentials, the
    schemas and the index declarations. *)
Definition registries (db : Db)
    : gmap string UserRole * gmap string cJSON * gmap string (gset string) :=
  (auth_cache_ db, schemas_ db, indexed_fields_ db).

Section with_external.
Context `{External}.

(** [item->valueint]: the integer cJSON keeps beside [valuedouble]; what
    it holds is a matter of the library. *)
Context (valueint : cJSON -> Z).

(** What the dispatch phase leaves behind: the response object under
    construction, [success], [msg], and the state. *)
Definition dispatched : Type := cJSON * bool * string * Db * Engine.Disk.

(** The command dispatch phase of [Handler::process]. *)
Definition dispatch (db : Db) (disk : Engine.Disk) (env : Env)
    (req : cJSON) (role : UserRole) (action collection : string)
    : outcome dispatched :=
  let resp_root := cJSON_CreateObject in
  let member := cJSON_GetObjectItem (Some req) in
  let failed (msg : string) : outcome dispatched :=
    Returns (resp_root, false, msg, db, disk) in
  let finished (ok : bool) (done_ failed_ : string) (db : Db)
      (disk : Engine.Disk) : outcome dispatched :=
    Returns (resp_root, ok, if ok then done_ else failed_, db, disk) in
  if bool_decide (action = "create_user") then
    if negb (is_admin role)
    then failed "Forbidden: User provisioning requires ADMIN role"
    else
      match member "key", member "role" with
      | Some u_key, Some u_role =>
          new_key ← std_string (valuestring u_key);
          new_role ← std_string (valuestring u_role);
          let '(ok, db, disk) :=
            create_user db disk new_key new_role (fresh_id env) (now env)
              (append_io env) in
          finished ok "User created successfully" "Failed to persist user"
            db disk
      | _, _ => failed "Missing required arguments: 'key' or 'role'"
      end
  else if bool_decide (action = "insert") then
    match member "data" with
    | Some data =>
        '(ok, db, disk) ←
          insert db disk collection data (fresh_id env) (append_io env);
        finished ok "Document inserted"
          "Insert failed (Schema violation or I/O error)" db disk
    | None => failed "Missing payload: 'data'"
    end
  else if bool_decide (action = "upsert") then
    match member "query", member "data" with
    | Some q, Some data =>
        '(ok, db, disk) ←
          upsert db disk collection q data (fresh_id env) (append_io env)
            (compact_io env);
        finished ok "Document upserted" "Upsert failed" db disk
    | _, _ => failed "Missing arguments: 'query' or 'data'"
    end
  else if bool_decide (action = "find") then
    let l := from_option valueint 0 (member "limit") in
    let s := from_option valueint 0 (member "skip") in
    res_array ←
      find db collection (member "query") (member "sort")
        (member "projection") l s;
    let resp_root :=
      match res_array with
      | Some arr => cJSON_AddItemToObject resp_root "data" arr
      | None => resp_root
      end in
    Returns (resp_root, true, "", db, disk)
  else if bool_decide (action = "count") then
    n ← count db collection (member "query");
    Returns
      (cJSON_AddNumberToObject resp_root "count" (double_of_int n),
       true, "", db, disk)
  else if bool_decide (action = "update") then
    match member "query", member "update" with
    | Some q, Some u =>
        '(ok, db, disk) ← update db disk collection q u (compact_io env);
        finished ok "Update committed"
          "Update failed (Collection not found or I/O error)" db disk
    | _, _ => failed "Missing arguments: 'query' or 'update'"
    end
  else if bool_decide (action = "delete") then
    match member "query" with
    | Some q =>
        '(ok, db, disk) ← remove db disk collection q (tombstone_io env);
        finished ok "Documents deleted"
          "No documents matched or collection not found" db disk
    | None => failed "Missing argument: 'query'"
    end
  else if bool_decide (action = "set_schema") then
    if is_admin role then
      match member "schema" with
      | Some schema =>
          let '(ok, db, disk) :=
            set_schema db disk collection schema (append_io env) in
          finished ok "Schema applied" "Failed to persist schema" db disk
      | None => failed "Missing argument: 'schema'"
      end
    else failed "Forbidden: Only ADMIN can modify schemas"
  else if bool_decide (action = "create_index") then
    if is_admin role then
      match member "field" ≫= valuestring with
      | Some field =>
          let '(ok, db, disk) :=
            create_index db disk collection field (compact_io env) in
          finished ok "Index created and backfilled" "Index creation failed"
            db disk
      | None => failed "Missing argument: 'field'"
      end
    else failed "Forbidden: Only ADMIN can manage indexes"
  else if bool_decide (action = "compact") then
    if is_admin role then
      let '(ok, db, disk) :=
        trigger_compaction db disk collection (compact_io env) in
      finished ok "Compaction completed" "Compaction failed" db disk
    else failed "Forbidden: Maintenance commands are ADMIN-only"
  else failed ("Unknown action opcode: " +:+ action).

(** The response construction phase. *)
Definition respond (resp_root : cJSON) (success : bool) (msg : string)
    : string :=
  let resp_root :=
    cJSON_AddStringToObject resp_root "status"
      (if success then "ok" else "error") in
  let resp_root :=
    if bool_decide (msg = "") then resp_root
    else cJSON_AddStringToObject resp_root "message" msg in
  cJSON_PrintUnformatted resp_root.

(** [Handler::process]. *)
Definition process (db : Db) (disk : Engine.Disk) (raw_json : string)
    (env : Env) : outcome (string * Db * Engine.Disk) :=
  if bool_decide (raw_json = "")
  then Returns (literal_response "error" "Empty request payload", db, disk)
  else
    match cJSON_Parse (c_string raw_json) with
    | None =>
        Returns (literal_response "error" "Invalid JSON syntax", db, disk)
    | Some req =>
        let action := member_string req "action" in
        let api_key := member_string req "auth" in
        let role := authenticate db api_key in
        if is_none role then
          Returns
            (literal_response "error"
               "Unauthorized: Invalid or missing API Key", db, disk)
        else if negb (bool_decide (action = "create_user"))
                && negb (has_permission role action) then
          Returns
            (literal_response "error"
               "Forbidden: Insufficient RBAC privileges", db, disk)
        else if bool_decide (action = "exit") then
          Returns
            (literal_response "goodbye" "Closing connection", db, disk)
        else
          let collection := member_string req "collection" in
          '(resp_root, success, msg, db, disk) ←
            dispatch db disk env req role action collection;
          Returns (respond resp_root success msg, db, disk)
    end.

(** The role a request is served under: that of the key in its [auth]
    member, and none for a request that is empty or does not parse. *)
Definition role_of (db : Db) (raw_json : string) : UserRole :=
  if bool_decide (raw_json = "") then NONE
  else
    match cJSON_Parse (c_string raw_json) with
    | Some req => authenticate db (member_string req "auth")
    | None => NONE
    end.

End with_external.
End Handler.

(** ** A concrete instance for worked examples

    A parser and a printer for JSON texts without white space, numbers and
    escape sequences; on such texts they do what [cJSON_Parse] and
    [cJSON_PrintUnformatted] do.  For the predicate engine of the instance
    every query matches every document, an update changes nothing and
    every document is valid. *)

Module Demo.
Import cjson.

Definition dquote : ascii := "034"%char.
Definition backslash : ascii := "092"%char.

(** A JSON text written with single quotes in place of double quotes. *)
Definition json (text : string) : string :=
  string_of_list_ascii
    (map (fun c => if Ascii.eqb c "'"%char then dquote else c)
       (list_ascii_of_string text)).

Fixpoint parse_chars (input acc : list ascii) : option (string * list ascii) :=
  match input with
  | [] => None
  | c :: rest =>
      if Ascii.eqb c dquote then Some (string_of_list_ascii (rev acc), rest)
      else if Ascii.eqb c backslash then None
      else parse_chars rest (c :: acc)
  end.

Inductive mode :=
| Value (name : option string)
| Elements
| Members.

Definition leaf (t : cJSON_type) (name : option string) : cJSON :=
  cJSON_node t None 0%float name [].

Definition starts_with (prefix : string) (input : list ascii)
    : option (list ascii) :=
  let p := list_ascii_of_string prefix in
  if bool_decide (take (length p) input = p)
  then Some (drop (length p) input) else None.

Fixpoint parse_items (fuel : nat) (m : mode) (input : list ascii)
    : option (list cJSON * list ascii) :=
  match fuel with
  | O => None
  | S fuel =>
      match m with
      | Value name =>
          match input with
          | c :: rest =>
              if Ascii.eqb c dquote then
                '(s, rest) ← parse_chars rest [];
                Some ([cJSON_node cJSON_String (Some s) 0%float name []], rest)
              else if Ascii.eqb c "["%char then
                match rest with
                | "]"%char :: rest => Some ([leaf cJSON_Array name], rest)
                | _ =>
                    '(items, rest) ← parse_items fuel Elements rest;
                    Some ([cJSON_node cJSON_Array None 0%float name items],
                          rest)
                end
              else if Ascii.eqb c "{"%char then
                match rest with
                | "}"%char :: rest => Some ([leaf cJSON_Object name], rest)
                | _ =>
                    '(items, rest) ← parse_items fuel Members rest;
                    Some ([cJSON_node cJSON_Object None 0%float name items],
                          rest)
                end
              else
                match starts_with "null" input, starts_with "true" input,
                      starts_with "false" input with
                | Some rest, _, _ => Some ([leaf cJSON_NULL name], rest)
                | _, Some rest, _ => Some ([leaf cJSON_True name], rest)
                | _, _, Some rest => Some ([leaf cJSON_False name], rest)
                | _, _, _ => None
                end
          | [] => None
          end
      | Elements =>
          match parse_items fuel (Value None) input with
          | Some ([v], c :: rest) =>
              if Ascii.eqb c ","%char then
                '(vs, rest) ← parse_items fuel Elements rest;
                Some (v :: vs, rest)
              else if Ascii.eqb c "]"%char then Some ([v], rest)
              else None
          | _ => None
          end
      | Members =>
          match input with
          | q :: rest =>
              if Ascii.eqb q dquote then
                match parse_chars rest [] with
                | Some (key, colon :: rest) =>
                    if Ascii.eqb colon ":"%char then
                      match parse_items fuel (Value (Some key)) rest with
                      | Some ([v], c :: rest) =>
                          if Ascii.eqb c ","%char then
                            '(vs, rest) ← parse_items fuel Members rest;
                            Some (v :: vs, rest)
                          else if Ascii.eqb c "}"%char then Some ([v], rest)
                          else None
                      | _ => None
                      end
                    else None
                | _ => None
                end
              else None
          | [] => None
          end
      end
  end.

Definition parse (text : string) : option cJSON :=
  let input := list_ascii_of_string text in
  match parse_items (S (length input)) (Value None) input with
  | Some ([v], _) => Some v
  | _ => None
  end.

Definition quoted (s : string) : string :=
  String dquote s +:+ String dquote "".

Fixpoint join (sep : string) (parts : list string) : string :=
  match parts with
  | [] => ""
  | [p] => p
  | p :: rest => p +:+ sep +:+ join sep rest
  end.

Fixpoint print (item : cJSON) : string :=
  match item with
  | cJSON_node t vs _ _ items =>
      match t with
      | cJSON_String => quoted (default "" vs)
      | cJSON_True => "true"
      | cJSON_False => "false"
      | cJSON_Array => "[" +:+ join "," (map print items) +:+ "]"
      | cJSON_Object =>
          "{" +:+
          join ","
            (map (fun c => quoted (default "" (string_ c)) +:+ ":" +:+ print c)
               items)
          +:+ "}"
      | _ => "null"
      end
  end.

Definition external : External := {|
  char_is_signed := true;
  cJSON_Parse := parse;
  cJSON_PrintUnformatted := print;
  to_string_double := fun _ => "0.000000";
  rust_validate := fun _ _ => true;
  rust_count := fun data _ => Z.of_nat (cJSON_GetArraySize (parse data));
  rust_find := fun data _ _ _ _ _ => Some data;
  rust_update := fun data _ _ => Some data
|}.

(** An object with string members, and an array of documents. *)
Definition doc (members : list (string * string)) : cJSON :=
  fold_left (fun o '(k, v) => cJSON_AddStringToObject o k v) members
    cJSON_CreateObject.

Definition array (docs : list cJSON) : cJSON :=
  fold_left append_child docs cJSON_CreateArray.

(** A database in directory [db] holding one collection with the given
    documents, indexed. *)
Definition db_of (coll : string) (docs : list cJSON) : Db.Db :=
  Db.rebuild_index (H := external)
    (Db.set_memory_store <[coll := Some (array docs)]> (Db.empty_db "db"))
    coll (Some (array docs)).

(** The text of a document that has only an [_id]. *)
Definition id_frame (id : string) : string :=
  json "{'_id':'" +:+ id +:+ json "'}".

(** Scenario 3 as the specification tells it: 101 documents, each written
    once and then once more, 202 frames in all. *)
Definition ids_101 : list string :=
  map (fun n => "d" +:+ NilZero.string_of_uint (Nat.to_uint n)) (seq 0 101).

Definition disk_202 : Engine.Disk :=
  Engine.append_all "db" ∅ "items"
    (map id_frame ids_101 ++ map id_frame ids_101).

(** The same log with one more version of the first document. *)
Definition disk_203 : Engine.Disk :=
  Engine.append_all "db" ∅ "items"
    (map id_frame ids_101 ++ map id_frame ids_101 ++ [id_frame "d0"]).

(** A log with two documents, a frame that is no JSON, and two tombstones
    for the first document. *)
Definition disk_tombstones : Engine.Disk :=
  Engine.append_all "db" ∅ "items"
    [json "{'_id':'a','v':'1'}"; id_frame "b"; "not json";
     json "{'_id':'a','_deleted':true}"; json "{'_id':'a','_deleted':true}"].

(** A data directory with one document in [items] and an index on its
    field [kind]. *)
Definition kind_A : cJSON := doc [("_id", "a"); ("kind", "A")].

Definition disk_indexed : Engine.Disk :=
  Engine.append_all "db"
    (Engine.append_all "db" ∅ "items" [json "{'_id':'a','kind':'A'}"])
    "_indexes" [json "[{'collection':'items','field':'kind'}]"].

(** A collection of three documents, two of them of kind [A], with an
    index declared on [kind]. *)
Definition kind_B : cJSON := doc [("_id", "b"); ("kind", "B")].
Definition kind_A' : cJSON := doc [("_id", "c"); ("kind", "A")].

Definition db_kinds : Db.Db :=
  snd (fst (Db.create_index (H := external)
              (db_of "c" [kind_A; kind_B; kind_A']) ∅ "c" "kind"
              Engine.CompactOk)).

(** A document with two fields that get indexed one after the other. *)
Definition two_fields : cJSON := doc [("_id", "d"); ("a", "x"); ("b", "y")].

(** Two documents, and a query that names the first by [_id] and asks for
    a value of [v] it does not have. *)
Definition abc : cJSON := doc [("_id", "abc"); ("v", "1")].
Definition xyz : cJSON := doc [("_id", "xyz"); ("v", "2")].
Definition abc_with_other_v : cJSON := doc [("_id", "abc"); ("v", "2")].

(** Two threads that upsert the same document into a collection that does
    not exist yet. *)
Definition upsert_call (fresh_id : string) : list Locking.critical_section :=
  Locking.upsert_sections (H := external) "c" (doc [("k", "v")])
    (doc [("k", "v")]) fresh_id Engine.WriteOk Engine.CompactOk.

Definition two_upserts : list Locking.thread :=
  [(upsert_call "id-1", 0); (upsert_call "id-2", 0)].

(** A schema, as a document with string members. *)
Definition schema_object : cJSON := doc [("type", "object")].

(** A log of [c] with the two documents [abc] and [xyz], and one with
    [abc] alone. *)
Definition disk_abc_xyz : Engine.Disk :=
  Engine.append_all "db" ∅ "c" [print abc; print xyz].

Definition disk_abc : Engine.Disk := Engine.append_all "db" ∅ "c" [print abc].

(** A document whose [_id] is a number. *)
Definition number_id : cJSON :=
  cJSON_AddNumberToObject cJSON_CreateObject "_id" 5%float.

(** The instance with a predicate engine that answers every update with a
    text that is no JSON. *)
Definition unparseable_engine : External := {|
  char_is_signed := true;
  cJSON_Parse := parse;
  cJSON_PrintUnformatted := print;
  to_string_double := fun _ => "0.000000";
  rust_validate := fun _ _ => true;
  rust_count := fun data _ => Z.of_nat (cJSON_GetArraySize (parse data));
  rust_find := fun data _ _ _ _ _ => Some data;
  rust_update := fun _ _ _ => Some "oops"
|}.

(** A database with a read-only and a read-write user, and what the
    environment decides while the worked requests are served. *)
Definition users : Db.Db * Engine.Disk :=
  let '(_, db, disk) :=
    Db.create_user (H := external) (Db.empty_db "db") ∅ "reader" "read_only"
      "u-1" 0%float Engine.WriteOk in
  let '(_, db, disk) :=
    Db.create_user (H := external) db disk "writer" "read_write" "u-2"
      0%float Engine.WriteOk in
  (db, disk).

Definition env : Handler.Env := {|
  Handler.fresh_id := "id-1";
  Handler.now := 0%float;
  Handler.append_io := Engine.WriteOk;
  Handler.tombstone_io := fun _ => Engine.WriteOk;
  Handler.compact_io := Engine.CompactOk
|}.

Definition valueint (item : cJSON) : Z := 0.

Definition insert_request (key : string) : string :=
  json "{'action':'insert','auth':'" +:+ key
  +:+ json "','collection':'c','data':{'k':'v'}}".

(** A log of [_auth] with one document written by hand. *)
Definition forged_user : cJSON :=
  doc [("_id", "x"); ("key_hash", Hash.hash_key true "intruder");
       ("role", "admin")].

Definition disk_forged : Engine.Disk :=
  Engine.append_all "db" ∅ "_auth" [print forged_user].

End Demo.
(** * Theorems *)

(** ** The log codec *)

Module EngineFacts.
Import Engine.

Lemma c_str_app a b : c_str (a +:+ b) = c_str a ++ c_str b.
Proof.
  unfold c_str. induction a as [|c a IH]; simpl; [reflexivity|].
  f_equal. exact IH.
Qed.

Lemma length_le32_bytes n : length (le32_bytes n) = 4%nat.
Proof. reflexivity. Qed.

Lemma byte_roundtrip b :
  0 <= b < 256 -> Z.of_N (N_of_ascii (ascii_of_N (Z.to_N b))) = b.
Proof.
  intros Hb. rewrite N_ascii_embedding by lia. lia.
Qed.

Lemma le32_value_bytes n : 0 <= n < 2 ^ 32 -> le32_value (le32_bytes n) = n.
Proof.
  intros Hn. unfold le32_value, le32_bytes. cbn [map fold_right].
  rewrite !byte_roundtrip by (apply Z.mod_pos_bound; lia).
  change (2 ^ (8 * 0)) with 1. change (2 ^ (8 * 1)) with 256.
  change (2 ^ (8 * 2)) with 65536. change (2 ^ (8 * 3)) with 16777216.
  change (2 ^ 32) with 4294967296 in Hn.
  rewrite Z.div_1_r.
  pose proof (Z.div_mod n 256 ltac:(lia)).
  pose proof (Z.mod_pos_bound n 256 ltac:(lia)).
  pose proof (Z.div_mod (n / 256) 256 ltac:(lia)).
  pose proof (Z.mod_pos_bound (n / 256) 256 ltac:(lia)).
  pose proof (Z.div_mod (n / 65536) 256 ltac:(lia)).
  pose proof (Z.mod_pos_bound (n / 65536) 256 ltac:(lia)).
  assert (n / 65536 = n / 256 / 256) by (rewrite Z.div_div by lia; reflexivity).
  assert (n / 16777216 = n / 65536 / 256) by (rewrite Z.div_div by lia; reflexivity).
  assert (0 <= n / 16777216 < 256)
    by (split; [apply Z.div_pos; lia | apply Z.div_lt_upper_bound; lia]).
  rewrite (Z.mod_small (n / 16777216) 256) by lia.
  lia.
Qed.

Lemma uint32_t_fits raw : fits_frame raw -> uint32_t (size raw) = size raw.
Proof.
  unfold fits_frame, uint32_t, size. intros H. apply Z.mod_small. lia.
Qed.

Lemma stored_fits raw : fits_frame raw -> stored raw = raw.
Proof.
  intros H. unfold stored. rewrite (uint32_t_fits raw H).
  unfold size. rewrite Nat2Z.id, firstn_all.
  apply string_of_list_ascii_of_string.
Qed.

Lemma uint32_t_size_bounds raw :
  0 <= uint32_t (size raw) < 2 ^ 32 /\ uint32_t (size raw) <= size raw.
Proof.
  unfold uint32_t, size.
  pose proof (Z.mod_pos_bound (Z.of_nat (length (c_str raw))) (2 ^ 32)
                ltac:(lia)).
  pose proof (Z.mod_le (Z.of_nat (length (c_str raw))) (2 ^ 32)
                ltac:(lia) ltac:(lia)).
  lia.
Qed.

Lemma read_frames_torn fuel tail logs :
  incomplete_frame tail -> read_frames fuel tail logs = logs.
Proof.
  intros Htail. destruct fuel as [|fuel]; [reflexivity|].
  destruct tail as [|c tail]; [reflexivity|].
  cbn [read_frames].
  destruct Htail as [Hshort | (header & body & -> & Hlen & Hbody)].
  - rewrite length_take.
    destruct (Nat.ltb_spec (4 `min` length (c :: tail)) 4); [reflexivity | lia].
  - rewrite take_app_length' by (symmetry; exact Hlen).
    rewrite Hlen. cbn [Nat.ltb Nat.leb].
    rewrite drop_app_length' by (symmetry; exact Hlen).
    rewrite length_take.
    destruct (Z.eqb_spec
      (Z.of_nat (Z.to_nat (le32_value header) `min` length body))
      (le32_value header)); [lia | reflexivity].
Qed.

(** The reader returns, frame by frame, what the writer stored. *)
Lemma read_frames_frames payloads :
  forall fuel tail logs,
    incomplete_frame tail ->
    (length (frames payloads ++ tail) <= fuel)%nat ->
    read_frames fuel (frames payloads ++ tail) logs
    = logs ++ map stored payloads.
Proof.
  induction payloads as [|raw payloads IH]; intros fuel tail logs Htail Hfuel.
  - cbn [frames map concat app]. rewrite read_frames_torn by exact Htail.
    symmetry. apply app_nil_r.
  - unfold frames in *. cbn [map concat] in *. unfold frame in *.
    destruct (uint32_t_size_bounds raw) as [Hrange Hle].
    set (n := uint32_t (size raw)) in *.
    set (body := take (Z.to_nat n) (c_str raw)) in *.
    assert (Hbody : length body = Z.to_nat n).
    { subst body. rewrite length_take. unfold size in Hle. lia. }
    rewrite <- !app_assoc in *.
    set (rest := concat (map _ payloads) ++ tail) in *.
    destruct fuel as [|fuel].
    { rewrite !length_app, length_le32_bytes in Hfuel. lia. }
    remember (le32_bytes n) as header eqn:Hheader.
    assert (Hlen : length header = 4%nat) by (subst; apply length_le32_bytes).
    destruct header as [|h0 header]; [discriminate|].
    cbn [read_frames app].
    change (h0 :: header ++ body ++ rest)
      with ((h0 :: header) ++ body ++ rest).
    rewrite take_app_length' by (symmetry; exact Hlen).
    rewrite drop_app_length' by (symmetry; exact Hlen).
    rewrite Hlen. cbn [Nat.ltb Nat.leb].
    rewrite Hheader, le32_value_bytes by exact Hrange.
    rewrite take_app_length' by (symmetry; exact Hbody).
    rewrite drop_app_length' by (symmetry; exact Hbody).
    rewrite Hbody, Z2Nat.id, Z.eqb_refl by lia.
    rewrite !length_app in Hfuel. cbn [length] in Hfuel.
    subst rest. rewrite IH.
    + rewrite <- app_assoc. reflexivity.
    + exact Htail.
    + rewrite !length_app in *. lia.
Qed.

Lemma map_stored_fits payloads :
  Forall fits_frame payloads -> map stored payloads = payloads.
Proof.
  induction 1 as [|raw payloads Hraw _ IH]; [reflexivity|].
  cbn [map]. rewrite stored_fits by exact Hraw. f_equal. exact IH.
Qed.

Lemma load_log_bytes base disk collection :
  load_log base disk collection
  = read_frames (length (log_bytes base disk collection))
      (log_bytes base disk collection) [].
Proof.
  unfold load_log, log_bytes.
  destruct (disk !! get_path base collection); reflexivity.
Qed.

Lemma log_bytes_append base disk collection raw :
  log_bytes base (snd (append base disk collection raw WriteOk)) collection
  = log_bytes base disk collection ++ frame raw.
Proof.
  unfold log_bytes, append. cbn [snd]. rewrite lookup_insert_eq. reflexivity.
Qed.

Lemma log_bytes_append_all base collection payloads disk :
  log_bytes base (append_all base disk collection payloads) collection
  = log_bytes base disk collection ++ frames payloads.
Proof.
  revert disk. induction payloads as [|raw payloads IH]; intros disk.
  - unfold frames. cbn. symmetry. apply app_nil_r.
  - unfold append_all in *. cbn [fold_left]. rewrite IH, log_bytes_append.
    unfold frames. cbn [map concat]. rewrite <- app_assoc. reflexivity.
Qed.

Lemma log_bytes_write_raw base disk collection bytes :
  log_bytes base (write_raw base disk collection bytes) collection
  = log_bytes base disk collection ++ bytes.
Proof.
  unfold log_bytes, write_raw. rewrite lookup_insert_eq. reflexivity.
Qed.

Lemma load_log_compact base disk collection active_docs :
  load_log base
    (snd (compact base disk collection active_docs CompactOk)) collection
  = map stored active_docs.
Proof.
  rewrite load_log_bytes. unfold log_bytes, compact. cbn [snd].
  rewrite lookup_insert_eq. cbn [default].
  rewrite <- (app_nil_r (frames active_docs)) at 2.
  apply (read_frames_frames active_docs _ [] []).
  - left. cbn. lia.
  - rewrite app_nil_r. reflexivity.
Qed.

Lemma stored_wrapped raw : size raw = 2 ^ 32 -> stored raw = "".
Proof.
  intros Hsize. unfold stored. rewrite Hsize.
  replace (uint32_t (2 ^ 32)) with 0 by (symmetry; apply Z.mod_same; lia).
  reflexivity.
Qed.

Lemma incomplete_frame_nil : incomplete_frame [].
Proof. left. cbn. lia. Qed.

Lemma temp_path_fresh path : path +:+ ".tmp" <> path.
Proof.
  intros Heq. apply (f_equal (fun s => length (c_str s))) in Heq.
  rewrite c_str_app, length_app in Heq. cbn in Heq. lia.
Qed.

Lemma c_str_inj a b : c_str a = c_str b -> a = b.
Proof.
  unfold c_str. intros Heq.
  rewrite <- (string_of_list_ascii_of_string a),
          <- (string_of_list_ascii_of_string b).
  by rewrite Heq.
Qed.

Lemma get_path_inj base a b : get_path base a = get_path base b -> a = b.
Proof.
  unfold get_path. intros Heq. apply (f_equal c_str) in Heq.
  rewrite !c_str_app in Heq.
  apply app_inv_head, app_inv_head, app_inv_tail in Heq.
  by apply c_str_inj.
Qed.

Lemma temp_path_other base a b : get_path base a +:+ ".tmp" <> get_path base b.
Proof.
  unfold get_path. intros Heq. apply (f_equal (fun s => last (c_str s))) in Heq.
  rewrite !c_str_app in Heq.
  change (c_str ".tmp") with ([".";"t";"m"] ++ ["p"])%char in Heq.
  change (c_str ".aev") with ([".";"a";"e"] ++ ["v"])%char in Heq.
  rewrite !app_assoc, !last_snoc in Heq. discriminate Heq.
Qed.

(** A compaction touches the log and the temporary file of its own
    collection only. *)
Lemma compact_other base disk collection active_docs io other :
  other <> collection ->
  snd (compact base disk collection active_docs io) !! get_path base other
  = disk !! get_path base other.
Proof.
  intros Hother.
  assert (Hpath : get_path base collection <> get_path base other).
  { intros Heq. apply get_path_inj in Heq. congruence. }
  pose proof (temp_path_other base collection other) as Htmp.
  unfold compact. destruct io; cbn [snd].
  - by rewrite lookup_insert_ne, lookup_delete_ne.
  - done.
  - by rewrite lookup_delete_ne.
  - by rewrite lookup_insert_ne.
Qed.

Lemma load_log_same_file base disk disk' collection :
  disk' !! get_path base collection = disk !! get_path base collection ->
  load_log base disk' collection = load_log base disk collection.
Proof. unfold load_log. by intros ->. Qed.

(** X1.  A compaction that fails leaves the log of the collection as it was:
    the frames are written to the temporary file, and only a rename that
    succeeds replaces the log. *)
Theorem compact_failure_keeps_log base disk collection active_docs io :
  io <> CompactOk ->
  fst (compact base disk collection active_docs io) = false
  /\ snd (compact base disk collection active_docs io)
       !! get_path base collection
     = disk !! get_path base collection.
Proof.
  intros Hio.
  pose proof (temp_path_fresh (get_path base collection)) as Htmp.
  unfold compact. destruct io; [done| | |]; cbn [fst snd].
  - done.
  - split; [done|]. by rewrite lookup_delete_ne.
  - split; [done|]. by rewrite lookup_insert_ne.
Qed.

Lemma compact_failure_keeps_log_witness :
  snd (compact "db" (append_all "db" ∅ "c" ["{}"]) "c" [] RenameFailed)
    !! get_path "db" "c"
  = append_all "db" ∅ "c" ["{}"] !! get_path "db" "c".
Proof.
  apply (compact_failure_keeps_log "db" (append_all "db" ∅ "c" ["{}"]) "c"
           [] RenameFailed).
  discriminate.
Defined.

(** C2, as amended.  Payloads shorter than [2 ^ 32] bytes, appended in
    order to a log that does not exist yet, are read back by [load_log]
    exactly and in order; and they still are when the bytes of an incomplete
    frame (fewer than four header bytes, or a header followed by fewer
    payload bytes than it announces) follow the last valid frame. *)
Theorem load_log_append_all base disk collection payloads tail :
  disk !! get_path base collection = None ->
  Forall fits_frame payloads ->
  incomplete_frame tail ->
  load_log base (append_all base disk collection payloads) collection
    = payloads
  /\ load_log base
       (write_raw base (append_all base disk collection payloads)
          collection tail)
       collection
     = payloads.
Proof.
  intros Hfresh Hfits Htail.
  assert (Hold : log_bytes base disk collection = []).
  { unfold log_bytes. rewrite Hfresh. reflexivity. }
  split.
  - rewrite load_log_bytes, log_bytes_append_all, Hold. cbn [app].
    rewrite <- (app_nil_r (frames payloads)) at 2.
    rewrite (read_frames_frames payloads _ [] [])
      by (rewrite ?app_nil_r; auto using incomplete_frame_nil).
    apply map_stored_fits, Hfits.
  - rewrite load_log_bytes, log_bytes_write_raw, log_bytes_append_all, Hold.
    cbn [app].
    rewrite (read_frames_frames payloads _ tail []) by auto.
    apply map_stored_fits, Hfits.
Qed.

(** The bytes [01 00 00 00] of scenario 7: a header announcing one byte. *)
Lemma load_log_append_all_witness :
  load_log "t7" (append_all "t7" ∅ "c" ["{}"; ""]) "c" = ["{}"; ""]
  /\ load_log "t7"
       (write_raw "t7" (append_all "t7" ∅ "c" ["{}"; ""]) "c"
          ["001"; "000"; "000"; "000"]%char) "c"
     = ["{}"; ""].
Proof.
  apply (load_log_append_all "t7" ∅ "c" ["{}"; ""]
           ["001"; "000"; "000"; "000"]%char).
  - reflexivity.
  - repeat constructor; vm_compute; reflexivity.
  - right. exists ["001"; "000"; "000"; "000"]%char, [].
    repeat split; vm_compute; reflexivity.
Defined.

Lemma size_four_gib_payload : size four_gib_payload = 2 ^ 32.
Proof.
  unfold size, c_str, four_gib_payload.
  rewrite list_ascii_of_string_of_list_ascii, repeat_length.
  apply Z2Nat.id. apply Z.pow_nonneg. lia.
Qed.


(** C2, counterexample.  A payload of [2 ^ 32] bytes is written as a frame
    of length zero: what [load_log] returns for it is the empty string. *)
Lemma load_log_four_gib_payload :
  load_log "db" (append_all "db" ∅ "c" [four_gib_payload]) "c" = [""]
  /\ load_log "db" (append_all "db" ∅ "c" [four_gib_payload]) "c"
     <> [four_gib_payload].
Proof.
  assert (H : load_log "db" (append_all "db" ∅ "c" [four_gib_payload]) "c"
              = [""]).
  { rewrite load_log_bytes, log_bytes_append_all.
    change (log_bytes "db" ∅ "c") with (@nil ascii). cbn [app].
    rewrite <- (app_nil_r (frames _)) at 2.
    rewrite (read_frames_frames [four_gib_payload] _ [] [])
      by (rewrite ?app_nil_r; auto using incomplete_frame_nil).
    cbn [map app]. rewrite stored_wrapped by apply size_four_gib_payload.
    reflexivity. }
  split; [exact H|]. rewrite H. intros Heq.
  assert (Hsize : size "" = size four_gib_payload) by congruence.
  rewrite size_four_gib_payload in Hsize. discriminate Hsize.
Qed.

End EngineFacts.

(** ** The directory listing *)

Module ListingFacts.
Import Engine.

Lemma last_dot_app a b pos found :
  last_dot (a ++ b) pos found
  = last_dot b (pos + length a)%nat (last_dot a pos found).
Proof.
  revert pos found. induction a as [|c a IH]; intros pos found;
    cbn [last_dot app length].
  - by rewrite Nat.add_0_r.
  - rewrite IH. f_equal. lia.
Qed.

Lemma split_extension_aev name :
  name <> "" -> split_extension (name +:+ ".aev") = (name, ".aev").
Proof.
  intros Hname. unfold split_extension.
  rewrite EngineFacts.c_str_app, last_dot_app. unfold c_str.
  change (list_ascii_of_string ".aev") with (["."; "a"; "e"; "v"]%char).
  cbn [last_dot Ascii.eqb Bool.eqb].
  destruct (list_ascii_of_string name) as [|c cs] eqn:Hcs.
  { destruct name; [done | discriminate]. }
  cbn [length Nat.add]. rewrite <- Hcs.
  replace (S (length cs)) with (length (list_ascii_of_string name))
    by by rewrite Hcs.
  rewrite take_app_length, drop_app_length.
  by rewrite string_of_list_ascii_of_string.
Qed.

Lemma split_extension_inv filename stem_ :
  split_extension filename = (stem_, ".aev") ->
  stem_ <> "" /\ filename = stem_ +:+ ".aev".
Proof.
  unfold split_extension.
  destruct (last_dot (c_str filename) 0 None) as [[|p]|]; [done| |done].
  intros [= <- Hext].
  assert (Hcs : c_str filename
                = take (S p) (c_str filename) ++ c_str ".aev").
  { rewrite <- (take_drop (S p) (c_str filename)) at 1. f_equal.
    unfold c_str at 2.
    by rewrite <- Hext, list_ascii_of_string_of_list_ascii. }
  split.
  - destruct (c_str filename) as [|c cs] eqn:E; [|done].
    by rewrite drop_nil in Hext.
  - apply EngineFacts.c_str_inj. rewrite EngineFacts.c_str_app.
    unfold c_str at 2. by rewrite list_ascii_of_string_of_list_ascii.
Qed.

(** X22.  The collections found in the data directory are the names
    [name], not empty, for which the directory holds a regular file
    [name.aev]. *)
Theorem list_collections_spec entries name :
  name ∈ list_collections entries
  <-> name <> "" /\ name +:+ ".aev" ∈ entries.
Proof.
  unfold list_collections. rewrite list_elem_of_fmap. split.
  - intros (f & -> & [Hext Hin]%list_elem_of_filter).
    unfold stem, extension in *.
    destruct (split_extension f) as [s e] eqn:Hsplit. cbn in *. subst e.
    apply split_extension_inv in Hsplit as [Hne ->]. done.
  - intros [Hne Hin]. exists (name +:+ ".aev").
    unfold stem. rewrite split_extension_aev by done. split; [done|].
    apply list_elem_of_filter. split; [|done].
    unfold extension. by rewrite split_extension_aev.
Qed.

End ListingFacts.

(** * Properties of the utilities *)

Module InfraStringFacts.
Import InfraString.

Lemma prefix_scan_spec s :
  exists pre,
    s = pre ++ prefix_scan s
    /\ Forall (fun c => isspace c = true) pre
    /\ forall c, head (prefix_scan s) = Some c -> isspace c = false.
Proof.
  induction s as [|c s (pre & Hs & Hpre & Hhead)]; cbn [prefix_scan].
  - exists []. repeat split; [constructor|done].
  - destruct (isspace c) eqn:Hc.
    + exists (c :: pre). split; [by rewrite <- app_comm_cons, <- Hs|].
      split; [by constructor|done].
    + exists []. repeat split; [constructor|]. cbn. by intros ? [= <-].
Qed.

Lemma suffix_scan_spec l n :
  (1 <= n)%nat ->
  (suffix_scan l n < n)%nat
  /\ (forall i, (suffix_scan l n < i < n)%nat ->
        isspace (nth i l "000"%char) = true)
  /\ (suffix_scan l n = 0%nat
      \/ isspace (nth (suffix_scan l n) l "000"%char) = false).
Proof.
  induction n as [|e IH]; [lia|]. intros _. cbn [suffix_scan].
  destruct (Nat.ltb_spec 0 e) as [Hpos|Hzero]; cbn [andb].
  - destruct (isspace (nth e l "000"%char)) eqn:He.
    + destruct IH as (Hlt & Hws & Hstop); [lia|]. split; [lia|]. split.
      * intros i Hi. destruct (decide (i = e)) as [->|]; [done|].
        apply Hws. lia.
      * done.
    + split; [lia|]. split; [intros; lia | by right].
  - split; [lia|]. split; [intros; lia | left; lia].
Qed.

Lemma string_of_list_ascii_app a b :
  string_of_list_ascii (a ++ b)
  = string_of_list_ascii a +:+ string_of_list_ascii b.
Proof. induction a as [|c a IH]; cbn; [done | by rewrite IH]. Qed.

(** What [trim] returns, on the characters of the string. *)
Lemma trim_chars s :
  exists pre post,
    list_ascii_of_string s = pre ++ list_ascii_of_string (trim s) ++ post
    /\ Forall (fun c => isspace c = true) pre
    /\ Forall (fun c => isspace c = true) post
    /\ (forall c, head (list_ascii_of_string (trim s)) = Some c ->
          isspace c = false)
    /\ (forall c, last (list_ascii_of_string (trim s)) = Some c ->
          isspace c = false).
Proof.
  destruct (prefix_scan_spec (list_ascii_of_string s))
    as (pre & Hs & Hpre & Hhead).
  unfold trim. destruct (prefix_scan (list_ascii_of_string s)) as [|c l] eqn:E.
  { exists pre, []. cbn.
    repeat split; [done|done|constructor|done|done]. }
  set (from_start := c :: l) in *.
  destruct (suffix_scan_spec from_start (length from_start))
    as (Hlt & Hws & Hstop); [cbn; lia|].
  set (e := suffix_scan from_start (length from_start)) in *.
  exists pre, (drop (S e) from_start).
  rewrite list_ascii_of_string_of_list_ascii, take_drop.
  split; [done|]. split; [done|]. split; [|split].
  - apply Forall_forall. intros x Hx.
    apply list_elem_of_In, (In_nth _ _ "000"%char) in Hx
      as (i & Hi & <-).
    rewrite length_drop in Hi. rewrite nth_skipn. apply Hws. lia.
  - intros x. cbn. intros [= <-]. by apply Hhead.
  - intros x Hx. rewrite last_lookup in Hx.
    rewrite length_take in Hx.
    replace (Nat.pred (S e `min` length from_start)) with e in Hx by lia.
    rewrite lookup_take_lt in Hx by lia.
    destruct Hstop as [Hzero|Hstop].
    + rewrite Hzero in Hx. cbn in Hx. injection Hx as <-. by apply Hhead.
    + by rewrite (nth_lookup_Some _ _ _ _ Hx) in Hstop.
Qed.

(** X10.  [trim] takes whitespace, and nothing but whitespace, from the
    two ends of a string: the string is some whitespace, then what [trim]
    returns, then some whitespace again, and what [trim] returns neither
    starts nor ends with a whitespace character.  It returns the empty
    string exactly for the strings that hold nothing but whitespace. *)
Theorem trim_spec s :
  (exists pre post,
      s = string_of_list_ascii pre +:+ trim s +:+ string_of_list_ascii post
      /\ Forall (fun c => isspace c = true) pre
      /\ Forall (fun c => isspace c = true) post)
  /\ (forall c, head (list_ascii_of_string (trim s)) = Some c ->
        isspace c = false)
  /\ (forall c, last (list_ascii_of_string (trim s)) = Some c ->
        isspace c = false)
  /\ (trim s = ""
      <-> Forall (fun c => isspace c = true) (list_ascii_of_string s)).
Proof.
  destruct (trim_chars s) as (pre & post & Hs & Hpre & Hpost & Hhead & Hlast).
  split; [|split; [done|split; [done|]]].
  - exists pre, post. split; [|done].
    rewrite <- (string_of_list_ascii_of_string (trim s)),
      <- !string_of_list_ascii_app, <- Hs.
    by rewrite string_of_list_ascii_of_string.
  - split.
    + intros Hempty. rewrite Hs, Hempty. cbn. by apply Forall_app.
    + intros Hall. rewrite Hs in Hall.
      apply Forall_app in Hall as [_ [Hall _]%Forall_app].
      destruct (list_ascii_of_string (trim s)) as [|c l] eqn:E.
      * by rewrite <- (string_of_list_ascii_of_string (trim s)), E.
      * apply Forall_cons in Hall as [Hc _].
        by rewrite (Hhead c) in Hc.
Qed.

Lemma suffix_scan_stops l n :
  (1 <= n)%nat ->
  isspace (nth (n - 1) l "000"%char) = false ->
  suffix_scan l n = (n - 1)%nat.
Proof.
  destruct n as [|e]; [lia|]. intros _. cbn [suffix_scan].
  replace (S e - 1)%nat with e by lia. intros ->.
  by rewrite andb_false_r.
Qed.

(** X11.  [trim] returns a string that neither starts nor ends with
    whitespace as it is, so trimming twice is trimming once. *)
Theorem trim_trimmed s :
  ((forall c, head (list_ascii_of_string s) = Some c -> isspace c = false) ->
   (forall c, last (list_ascii_of_string s) = Some c -> isspace c = false) ->
   trim s = s)
  /\ trim (trim s) = trim s.
Proof.
  assert (Hfixed : forall s,
    (forall c, head (list_ascii_of_string s) = Some c -> isspace c = false) ->
    (forall c, last (list_ascii_of_string s) = Some c -> isspace c = false) ->
    trim s = s).
  { clear s. intros s Hhead Hlast. unfold trim.
    destruct (list_ascii_of_string s) as [|c l] eqn:E.
    { by rewrite <- (string_of_list_ascii_of_string s), E. }
    cbn [prefix_scan]. rewrite (Hhead c) by done.
    rewrite suffix_scan_stops.
    - rewrite take_ge by (cbn [length]; lia).
      by rewrite <- E, string_of_list_ascii_of_string.
    - cbn [length]; lia.
    - destruct (last (c :: l)) as [x|] eqn:Hx.
      + rewrite last_lookup in Hx.
        replace (length (c :: l) - 1)%nat with (Nat.pred (length (c :: l)))
          by lia.
        rewrite (nth_lookup_Some _ _ _ _ Hx). by apply Hlast.
      + by apply last_None in Hx. }
  split; [apply Hfixed|].
  destruct (trim_chars s) as (_ & _ & _ & _ & _ & Hhead & Hlast).
  by apply Hfixed.
Qed.

End InfraStringFacts.

Module IdGeneratorFacts.
Import IdGenerator.

Lemma length_low_digits w : forall n, length (low_digits w n) = w.
Proof.
  induction w as [|w IH]; intros n; cbn [low_digits]; [done|].
  rewrite length_app, IH. cbn. lia.
Qed.

Lemma low_digits_zero w : low_digits w 0 = repeat "0"%char w.
Proof.
  induction w as [|w IH]; cbn [low_digits]; [done|].
  change (0 / 16) with 0. rewrite IH.
  change [hex_digit (0 mod 16)] with (repeat "0"%char 1).
  rewrite <- repeat_app. f_equal. lia.
Qed.

(** Below [16 ^ w], the field of width [w] holds the [w] low digits. *)
Lemma setw_hex_digits fuel : forall w n,
  0 <= n < 16 ^ Z.of_nat w -> (1 <= w <= fuel)%nat ->
  setw w (hex_digits fuel n) = low_digits w n.
Proof.
  induction fuel as [|fuel IH]; intros w n Hn Hw; [lia|].
  destruct w as [|w]; [lia|]. cbn [hex_digits low_digits].
  destruct (Z.ltb_spec n 16) as [Hsmall|Hbig].
  - rewrite Z.div_small, Z.mod_small by lia. rewrite low_digits_zero.
    unfold setw. cbn [length]. do 2 f_equal. lia.
  - rewrite Nat2Z.inj_succ, Z.pow_succ_r in Hn by lia.
    assert (Hdiv : 0 <= n / 16 < 16 ^ Z.of_nat w).
    { split; [apply Z.div_pos; lia|]. apply Z.div_lt_upper_bound; lia. }
    assert (1 <= w)%nat.
    { destruct w; [|lia]. change (16 ^ Z.of_nat 0) with 1 in Hn. lia. }
    rewrite <- (IH w (n / 16)) by (done || lia).
    unfold setw. rewrite length_app. cbn [length].
    rewrite <- app_assoc. do 2 f_equal. lia.
Qed.

Lemma setw_hex w n :
  0 <= n < 16 ^ Z.of_nat w -> (1 <= w <= 16)%nat ->
  setw w (hex n) = low_digits w n.
Proof. apply setw_hex_digits. Qed.

Lemma hex_digit_is_hex d : 0 <= d < 16 -> is_hex (hex_digit d).
Proof.
  intros Hd. unfold is_hex.
  assert (Hcases : d = 0 \/ d = 1 \/ d = 2 \/ d = 3 \/ d = 4 \/ d = 5
                   \/ d = 6 \/ d = 7 \/ d = 8 \/ d = 9 \/ d = 10 \/ d = 11
                   \/ d = 12 \/ d = 13 \/ d = 14 \/ d = 15) by lia.
  repeat (destruct Hcases as [->|Hcases]; [cbn; tauto|]).
  subst d. cbn. tauto.
Qed.

Lemma hex_digit_inj a b :
  0 <= a < 16 -> 0 <= b < 16 -> hex_digit a = hex_digit b -> a = b.
Proof.
  intros Ha Hb Heq. apply (f_equal N_of_ascii) in Heq. revert Heq.
  unfold hex_digit.
  destruct (Z.ltb_spec a 10), (Z.ltb_spec b 10);
    rewrite !N_ascii_embedding by lia; lia.
Qed.

Lemma low_digits_is_hex w : forall n, Forall is_hex (low_digits w n).
Proof.
  induction w as [|w IH]; intros n; cbn [low_digits]; [constructor|].
  apply Forall_app. split; [apply IH|].
  apply Forall_cons. split; [|constructor].
  apply hex_digit_is_hex, Z.mod_pos_bound. lia.
Qed.

Lemma low_digits_inj w : forall n m,
  low_digits w n = low_digits w m ->
  n mod 16 ^ Z.of_nat w = m mod 16 ^ Z.of_nat w.
Proof.
  induction w as [|w IH]; intros n m Heq.
  { change (16 ^ Z.of_nat 0) with 1. by rewrite !Z.mod_1_r. }
  cbn [low_digits] in Heq. apply app_inj_tail in Heq as [Hhigh Hlow].
  apply IH in Hhigh.
  apply hex_digit_inj in Hlow; [|apply Z.mod_pos_bound; lia..].
  rewrite Nat2Z.inj_succ, Z.pow_succ_r by lia.
  rewrite !Z.rem_mul_r by lia. lia.
Qed.

Lemma low_digits_top w : forall n,
  low_digits (S w) n
  = hex_digit ((n / 16 ^ Z.of_nat w) mod 16) :: low_digits w n.
Proof.
  induction w as [|w IH]; intros n.
  { cbn [low_digits app]. change (16 ^ Z.of_nat 0) with 1.
    by rewrite Z.div_1_r. }
  change (low_digits (S (S w)) n)
    with (low_digits (S w) (n / 16) ++ [hex_digit (n mod 16)]).
  rewrite IH. cbn [low_digits app]. do 2 f_equal.
  rewrite Nat2Z.inj_succ, Z.pow_succ_r by lia.
  by rewrite Z.div_div by lia.
Qed.

(** A set bit above a masked value adds to it. *)
Lemma lor_mod_pow2 p n k :
  0 <= n <= k -> Z.lor (p mod 2 ^ n) (2 ^ k) = p mod 2 ^ n + 2 ^ k.
Proof.
  intros Hnk. rewrite <- Z.add_lor_land.
  assert (Z.land (p mod 2 ^ n) (2 ^ k) = 0) as ->; [|lia].
  apply Z.bits_inj'. intros i Hi.
  rewrite Z.land_spec, Z.bits_0, Z.pow2_bits_eqb by lia.
  destruct (Z.eqb_spec k i) as [<-|]; [|apply andb_false_r].
  rewrite Z.mod_pow2_bits_high by lia. done.
Qed.

Lemma generate_groups p1 p2 :
  generate p1 p2
  = string_of_list_ascii
      (low_digits 8 (group1 p1)
       ++ "-"%char :: low_digits 4 (group2 p1)
       ++ "-"%char :: low_digits 4 (group3 p1)
       ++ "-"%char :: low_digits 4 (group4 p2)
       ++ "-"%char :: low_digits 12 (group5 p2)).
Proof.
  unfold generate, Engine.uint32_t, uint16_t.
  change 0xFFFF with (Z.ones 16). change 0x0FFF with (Z.ones 12).
  change 0x3FFF with (Z.ones 14). change 0xFFFFFFFFFFFF with (Z.ones 48).
  change 0x4000 with (2 ^ 14). change 0x8000 with (2 ^ 15).
  rewrite !Z.land_ones, !Z.shiftr_div_pow2 by lia.
  rewrite Z.mod_mod by lia. rewrite !lor_mod_pow2 by lia.
  assert (H32 := Z.mod_pos_bound (p1 / 2 ^ 32) (2 ^ 32)).
  assert (H16 := Z.mod_pos_bound (p1 / 2 ^ 16) (2 ^ 16)).
  assert (H12 := Z.mod_pos_bound p1 (2 ^ 12)).
  assert (H14 := Z.mod_pos_bound (p2 / 2 ^ 48) (2 ^ 14)).
  assert (H48 := Z.mod_pos_bound p2 (2 ^ 48)).
  rewrite !setw_hex; [done|..]; try lia;
    change (Z.of_nat 4) with 4; change (Z.of_nat 8) with 8;
    change (Z.of_nat 12) with 12; lia.
Qed.

Lemma length_string_of_list_ascii l :
  String.length (string_of_list_ascii l) = length l.
Proof. induction l as [|c l IH]; cbn; [done | by rewrite IH]. Qed.

(** X12.  Whatever the two samples, the identifier has the layout
    [xxxxxxxx-xxxx-4xxx-yxxx-xxxxxxxxxxxx]: 36 characters, groups of 8, 4,
    4, 4 and 12 lower-case hexadecimal digits between hyphens, the third
    group starting with the version digit [4] and the fourth with one of
    [8], [9], [a], [b]. *)
Theorem generate_format p1 p2 :
  exists a b c y d e,
    generate p1 p2
    = string_of_list_ascii
        (a ++ "-"%char :: b ++ "-"%char :: "4"%char :: c
           ++ "-"%char :: y :: d ++ "-"%char :: e)
    /\ length a = 8%nat /\ length b = 4%nat /\ length c = 3%nat
    /\ length d = 3%nat /\ length e = 12%nat
    /\ Forall is_hex (a ++ b ++ c ++ d ++ e)
    /\ In y (list_ascii_of_string "89ab")
    /\ String.length (generate p1 p2) = 36%nat.
Proof.
  assert (H12 := Z.mod_pos_bound p1 (2 ^ 12)).
  assert (H14 := Z.mod_pos_bound (p2 / 2 ^ 48) (2 ^ 14)).
  exists (low_digits 8 (group1 p1)), (low_digits 4 (group2 p1)),
    (low_digits 3 (group3 p1)),
    (hex_digit ((group4 p2 / 16 ^ Z.of_nat 3) mod 16)),
    (low_digits 3 (group4 p2)), (low_digits 12 (group5 p2)).
  assert (Hlayout :
    generate p1 p2
    = string_of_list_ascii
        (low_digits 8 (group1 p1)
         ++ "-"%char :: low_digits 4 (group2 p1)
         ++ "-"%char :: "4"%char :: low_digits 3 (group3 p1)
         ++ "-"%char :: hex_digit ((group4 p2 / 16 ^ Z.of_nat 3) mod 16)
         :: low_digits 3 (group4 p2)
         ++ "-"%char :: low_digits 12 (group5 p2))).
  { rewrite generate_groups, (low_digits_top 3 (group3 p1)),
      (low_digits_top 3 (group4 p2)).
    replace ((group3 p1 / 16 ^ Z.of_nat 3) mod 16) with 4; [done|].
    unfold group3. change (16 ^ Z.of_nat 3) with 4096.
    replace (p1 mod 2 ^ 12 + 2 ^ 14) with (p1 mod 2 ^ 12 + 4 * 4096) by lia.
    rewrite Z.div_add, Z.div_small by lia. done. }
  split; [done|]. rewrite !length_low_digits. do 5 (split; [done|]).
  split; [|split].
  - rewrite !Forall_app. repeat split; apply low_digits_is_hex.
  - unfold group4. change (16 ^ Z.of_nat 3) with 4096.
    assert (Hq : (p2 / 2 ^ 48) mod 2 ^ 14 / 4096 < 4)
      by (apply Z.div_lt_upper_bound; lia).
    assert (0 <= (p2 / 2 ^ 48) mod 2 ^ 14 / 4096) by (apply Z.div_pos; lia).
    replace ((p2 / 2 ^ 48) mod 2 ^ 14 + 2 ^ 15)
      with ((p2 / 2 ^ 48) mod 2 ^ 14 + 8 * 4096) by lia.
    rewrite Z.div_add by lia. rewrite Z.mod_small by lia.
    set (q := (p2 / 2 ^ 48) mod 2 ^ 14 / 4096) in *.
    assert (Hcases : q = 0 \/ q = 1 \/ q = 2 \/ q = 3) by lia.
    destruct Hcases as [-> | [-> | [-> | ->]]]; cbn; tauto.
  - rewrite Hlayout, length_string_of_list_ascii.
    repeat (rewrite ?length_app, ?length_low_digits; cbn [length]). done.
Qed.

Lemma mod_div_bits p q a b :
  0 <= a -> 0 <= b ->
  (p / 2 ^ a) mod 2 ^ b = (q / 2 ^ a) mod 2 ^ b
  <-> forall i, a <= i < a + b -> Z.testbit p i = Z.testbit q i.
Proof.
  intros Ha Hb. split.
  - intros Heq i Hi.
    apply (f_equal (fun v => Z.testbit v (i - a))) in Heq.
    rewrite !Z.mod_pow2_bits_low, <- !Z.shiftr_div_pow2, !Z.shiftr_spec
      in Heq by lia.
    by replace (i - a + a) with i in Heq by lia.
  - intros Hbits. apply Z.bits_inj'. intros i Hi.
    destruct (Z.lt_ge_cases i b).
    + rewrite !Z.mod_pow2_bits_low, <- !Z.shiftr_div_pow2, !Z.shiftr_spec
        by lia.
      apply Hbits. lia.
    + by rewrite !Z.mod_pow2_bits_high by lia.
Qed.

Lemma land_mask_bits p q mask :
  Z.land p mask = Z.land q mask
  <-> forall i, 0 <= i -> Z.testbit mask i = true ->
        Z.testbit p i = Z.testbit q i.
Proof.
  split.
  - intros Heq i Hi Hmask.
    apply (f_equal (fun v => Z.testbit v i)) in Heq.
    by rewrite !Z.land_spec, Hmask, !andb_true_r in Heq.
  - intros Hbits. apply Z.bits_inj'. intros i Hi. rewrite !Z.land_spec.
    destruct (Z.testbit mask i) eqn:Hmask; [|by rewrite !andb_false_r].
    by rewrite (Hbits i).
Qed.

Lemma used_bits_p1_spec i :
  0 <= i ->
  Z.testbit used_bits_p1 i = true <-> 0 <= i < 12 \/ 16 <= i < 64.
Proof.
  intros Hi.
  change used_bits_p1 with (Z.lor (Z.shiftl (Z.ones 48) 16) (Z.ones 12)).
  rewrite Z.lor_spec, Z.shiftl_spec, !Z.testbit_ones by lia.
  rewrite orb_true_iff, !andb_true_iff, !Z.leb_le, !Z.ltb_lt. lia.
Qed.

Lemma used_bits_p2_spec i :
  0 <= i -> Z.testbit used_bits_p2 i = true <-> 0 <= i < 62.
Proof.
  intros Hi. change used_bits_p2 with (Z.ones 62).
  rewrite Z.testbit_ones by lia.
  rewrite andb_true_iff, !Z.leb_le, !Z.ltb_lt. lia.
Qed.

Lemma low_digits_eq w n m :
  0 <= n < 16 ^ Z.of_nat w -> 0 <= m < 16 ^ Z.of_nat w ->
  low_digits w n = low_digits w m -> n = m.
Proof.
  intros Hn Hm Heq%low_digits_inj. by rewrite !Z.mod_small in Heq.
Qed.

(** X13.  Two pairs of samples give the same identifier exactly when
    they agree on the bits that reach it: all 64 bits of the first sample
    but bits 12 to 15, and the low 62 bits of the second.  So the
    identifier carries 122 bits of the samples, and no two identifiers are
    equal unless these 122 bits are. *)
Theorem generate_collision p1 p2 q1 q2 :
  generate p1 p2 = generate q1 q2
  <-> Z.land p1 used_bits_p1 = Z.land q1 used_bits_p1
      /\ Z.land p2 used_bits_p2 = Z.land q2 used_bits_p2.
Proof.
  assert (Hgroups :
    generate p1 p2 = generate q1 q2
    <-> group1 p1 = group1 q1 /\ group2 p1 = group2 q1
        /\ group3 p1 = group3 q1 /\ group4 p2 = group4 q2
        /\ group5 p2 = group5 q2).
  { rewrite !generate_groups. split.
    - intros Heq.
      apply (f_equal list_ascii_of_string) in Heq.
      rewrite !list_ascii_of_string_of_list_ascii in Heq.
      apply app_inj_1 in Heq as [H1 Heq];
        [|by rewrite !length_low_digits].
      apply (f_equal (drop 1)) in Heq. cbn [drop] in Heq.
      apply app_inj_1 in Heq as [H2 Heq];
        [|by rewrite !length_low_digits].
      apply (f_equal (drop 1)) in Heq. cbn [drop] in Heq.
      apply app_inj_1 in Heq as [H3 Heq];
        [|by rewrite !length_low_digits].
      apply (f_equal (drop 1)) in Heq. cbn [drop] in Heq.
      apply app_inj_1 in Heq as [H4 Heq];
        [|by rewrite !length_low_digits].
      apply (f_equal (drop 1)) in Heq. cbn [drop] in Heq. rename Heq into H5.
      assert (B1 := Z.mod_pos_bound (p1 / 2 ^ 32) (2 ^ 32)).
      assert (B1' := Z.mod_pos_bound (q1 / 2 ^ 32) (2 ^ 32)).
      assert (B2 := Z.mod_pos_bound (p1 / 2 ^ 16) (2 ^ 16)).
      assert (B2' := Z.mod_pos_bound (q1 / 2 ^ 16) (2 ^ 16)).
      assert (B3 := Z.mod_pos_bound p1 (2 ^ 12)).
      assert (B3' := Z.mod_pos_bound q1 (2 ^ 12)).
      assert (B4 := Z.mod_pos_bound (p2 / 2 ^ 48) (2 ^ 14)).
      assert (B4' := Z.mod_pos_bound (q2 / 2 ^ 48) (2 ^ 14)).
      assert (B5 := Z.mod_pos_bound p2 (2 ^ 48)).
      assert (B5' := Z.mod_pos_bound q2 (2 ^ 48)).
      apply low_digits_eq in H1, H2, H3, H4, H5; try done;
        unfold group1, group2, group3, group4, group5;
        change (Z.of_nat 4) with 4; change (Z.of_nat 8) with 8;
        change (Z.of_nat 12) with 12; lia.
    - by intros (-> & -> & -> & -> & ->). }
  rewrite Hgroups. unfold group1, group2, group3, group4, group5.
  rewrite !land_mask_bits.
  assert (H3 : p1 mod 2 ^ 12 + 2 ^ 14 = q1 mod 2 ^ 12 + 2 ^ 14
               <-> (p1 / 2 ^ 0) mod 2 ^ 12 = (q1 / 2 ^ 0) mod 2 ^ 12).
  { change (2 ^ 0) with 1. rewrite !Z.div_1_r. lia. }
  assert (H4 : (p2 / 2 ^ 48) mod 2 ^ 14 + 2 ^ 15
               = (q2 / 2 ^ 48) mod 2 ^ 14 + 2 ^ 15
               <-> (p2 / 2 ^ 48) mod 2 ^ 14 = (q2 / 2 ^ 48) mod 2 ^ 14)
    by lia.
  assert (H5 : p2 mod 2 ^ 48 = q2 mod 2 ^ 48
               <-> (p2 / 2 ^ 0) mod 2 ^ 48 = (q2 / 2 ^ 0) mod 2 ^ 48).
  { change (2 ^ 0) with 1. by rewrite !Z.div_1_r. }
  rewrite H3, H4, H5, !mod_div_bits by lia.
  split.
  - intros (B1 & B2 & B3 & B4 & B5). split.
    + intros i Hi Hmask. apply (used_bits_p1_spec i Hi) in Hmask as [?|?].
      * apply B3. lia.
      * destruct (Z.lt_ge_cases i 32); [apply B2 | apply B1]; lia.
    + intros i Hi Hmask. apply (used_bits_p2_spec i Hi) in Hmask.
      destruct (Z.lt_ge_cases i 48); [apply B5 | apply B4]; lia.
  - intros [B1 B2]. repeat split; intros i Hi.
    + apply B1; [lia|]. apply used_bits_p1_spec; lia.
    + apply B1; [lia|]. apply used_bits_p1_spec; lia.
    + apply B1; [lia|]. apply used_bits_p1_spec; lia.
    + apply B2; [lia|]. apply used_bits_p2_spec; lia.
    + apply B2; [lia|]. apply used_bits_p2_spec; lia.
Qed.

End IdGeneratorFacts.

(** ** Credential hashing *)

Module HashFacts.
Import Hash.

Lemma hash_step_mul signed hash c :
  hash_step signed hash c = (hash * 33 + char_value signed c) mod 2 ^ 64.
Proof.
  unfold hash_step, unsigned_long.
  rewrite Z.shiftl_mul_pow2 by lia.
  rewrite Zplus_mod_idemp_l, Zplus_mod_idemp_r, <- Z.add_assoc.
  rewrite Zplus_mod_idemp_l.
  f_equal. change (2 ^ 5) with 32. lia.
Qed.

Lemma fold_hash_step signed cs hash :
  fold_left (hash_step signed) cs hash
  = fold_left (fun hash c => (hash * 33 + c) mod 2 ^ 64)
      (map (char_value signed) cs) hash.
Proof.
  revert hash. induction cs as [|c cs IH]; intros hash; [reflexivity|].
  cbn [fold_left map]. rewrite IH, hash_step_mul. reflexivity.
Qed.

Lemma char_value_low signed c :
  Z.of_N (N_of_ascii c) < 128 -> char_value signed c = Z.of_N (N_of_ascii c).
Proof.
  intros Hc. unfold char_value.
  destruct (Z.leb_spec 128 (Z.of_N (N_of_ascii c))); [lia|].
  rewrite andb_false_r. reflexivity.
Qed.

Lemma char_values_ascii signed key :
  ascii_only key -> char_values signed key = byte_values key.
Proof.
  unfold ascii_only, char_values, byte_values.
  induction (list_ascii_of_string key) as [|c cs IH]; [reflexivity|].
  cbn [map]. intros Hall. inversion Hall as [|? ? Hc Hcs]; subst.
  rewrite char_value_low by exact Hc. f_equal. apply IH. exact Hcs.
Qed.

Lemma char_values_unsigned key : char_values false key = byte_values key.
Proof. reflexivity. Qed.

(** What [hash_key] computes: the decimal rendering of the DJB2
    accumulation that starts at 5381 and for each [char] [c] of the key
    takes [hash = (hash << 5) + hash + c] in 64-bit unsigned arithmetic
    with wrap-around, which is [hash * 33 + c] modulo [2 ^ 64].  The
    summand [c] is the [char] converted to [unsigned long]: the value of the
    byte when that is below 0x80, and for the bytes from 0x80 on the value
    of the byte where [char] is unsigned, that value less 256 (modulo
    [2 ^ 64]) where it is signed.  So it is DJB2 over the bytes of the key
    where [char] is unsigned, and everywhere on keys of bytes below 0x80. *)
Lemma hash_key_djb2 (char_is_signed : bool) (key : string) :
  hash_key char_is_signed key
  = to_string (djb2 (char_values char_is_signed key))
  /\ (char_is_signed = false ->
      hash_key char_is_signed key = to_string (djb2 (byte_values key)))
  /\ (ascii_only key ->
      hash_key char_is_signed key = to_string (djb2 (byte_values key))).
Proof.
  assert (H : hash_key char_is_signed key
              = to_string (djb2 (char_values char_is_signed key))).
  { unfold hash_key, djb2, char_values. rewrite fold_hash_step. reflexivity. }
  split; [exact H|]. split.
  - intros ->. rewrite H, char_values_unsigned. reflexivity.
  - intros Hascii. rewrite H, char_values_ascii by exact Hascii. reflexivity.
Qed.

(** The default credential. *)
Lemma hash_key_root :
  hash_key true "root" = "6385662377"
  /\ to_string (djb2 (byte_values "root")) = "6385662377".
Proof. split; vm_compute; reflexivity. Qed.

(** C9, on the code.  The key is the two bytes C3 A9, the letter e with an
    acute accent in UTF-8.  The DJB2 accumulation over the bytes of the key,
    which the specification describes, renders as 5866513, and that is what
    [hash_key] returns where plain [char] is unsigned (AArch64 Linux).
    Where [char] is signed (x86-64) each of the two bytes enters the sum
    sign-extended, as its value less 256, and [hash_key] returns 5857809:
    the loop variable is a [char] where DJB2 reads an [unsigned char], and
    the hash of a credential depends on the compiler the server was built
    with. *)
Lemma hash_key_sign_extended :
  let key := String "195" (String "169" "") in
  byte_values key = [195; 169]
  /\ to_string (djb2 (byte_values key)) = "5866513"
  /\ hash_key false key = "5866513"
  /\ char_values true key = [195 - 256; 169 - 256]
  /\ hash_key true key = "5857809".
Proof. repeat split; vm_compute; reflexivity. Qed.

End HashFacts.

(** ** The database controller *)

Module DbFacts.
Import cjson Db.

Section with_external.
Context `{External}.

(** *** What the index maintenance leaves alone *)

Lemma update_custom_index_frame db coll doc :
  let db' := update_custom_index db coll doc in
  storage_ db' = storage_ db /\ memory_store_ db' = memory_store_ db
  /\ id_indexes_ db' = id_indexes_ db /\ schemas_ db' = schemas_ db
  /\ indexed_fields_ db' = indexed_fields_ db
  /\ auth_cache_ db' = auth_cache_ db.
Proof.
  unfold update_custom_index.
  destruct (indexed_fields_ db !! coll) as [fields|]; [|by cbn].
  apply (set_fold_ind_L
    (fun db' _ =>
       storage_ db' = storage_ db /\ memory_store_ db' = memory_store_ db
       /\ id_indexes_ db' = id_indexes_ db /\ schemas_ db' = schemas_ db
       /\ indexed_fields_ db' = indexed_fields_ db
       /\ auth_cache_ db' = auth_cache_ db)); [done|].
  intros field X db' _ IH.
  destruct (index_key _); [exact IH | exact IH].
Qed.

Lemma index_document_frame collection db item :
  let db' := index_document collection db item in
  storage_ db' = storage_ db /\ memory_store_ db' = memory_store_ db
  /\ schemas_ db' = schemas_ db
  /\ indexed_fields_ db' = indexed_fields_ db
  /\ auth_cache_ db' = auth_cache_ db.
Proof.
  unfold index_document. cbn zeta.
  match goal with
  | |- context [update_custom_index ?d collection item] =>
      destruct (update_custom_index_frame d collection item)
        as (Hst & Hmem & _ & Hschemas & Hfields & Hauth);
      cbn zeta in Hst, Hmem, Hschemas, Hfields, Hauth;
      rewrite Hst, Hmem, Hschemas, Hfields, Hauth
  end.
  destruct (cJSON_GetObjectItem (Some item) "_id") as [n|]; [|done].
  destruct (valuestring n); [|done].
  destruct (cJSON_IsString (Some n)); done.
Qed.

Lemma rebuild_index_frame db collection array :
  let db' := rebuild_index db collection array in
  storage_ db' = storage_ db /\ memory_store_ db' = memory_store_ db
  /\ schemas_ db' = schemas_ db
  /\ indexed_fields_ db' = indexed_fields_ db
  /\ auth_cache_ db' = auth_cache_ db.
Proof.
  unfold rebuild_index.
  set (db0 := set_custom_indexes _ (set_id_indexes _ db)).
  change (storage_ db) with (storage_ db0).
  change (memory_store_ db) with (memory_store_ db0).
  change (schemas_ db) with (schemas_ db0).
  change (indexed_fields_ db) with (indexed_fields_ db0).
  change (auth_cache_ db) with (auth_cache_ db0).
  generalize db0. clear db0.
  induction (children array) as [|item items IH]; intros db0; [done|].
  cbn [fold_left].
  specialize (IH (index_document collection db0 item)).
  pose proof (index_document_frame collection db0 item) as Hone.
  cbn zeta in Hone, IH. intuition congruence.
Qed.

(** *** Secondary index maintenance *)

Lemma index_entry_insert db coll field key vec f k :
  index_entry
    (set_custom_indexes
       <[coll := <[field := <[key := vec]>
                              (at_ (at_ (custom_indexes_ db) coll) field)]>
                   (at_ (custom_indexes_ db) coll)]> db)
    coll f k
  = if bool_decide (f = field /\ k = key) then vec else index_entry db coll f k.
Proof.
  unfold index_entry, at_. cbn [custom_indexes_ set_custom_indexes].
  rewrite lookup_insert_eq. cbn [default from_option id].
  destruct (decide (f = field)) as [->|Hf].
  - rewrite lookup_insert_eq. cbn [default from_option id].
    destruct (decide (k = key)) as [->|Hk].
    + rewrite lookup_insert_eq, bool_decide_eq_true_2 by done. done.
    + rewrite lookup_insert_ne by done.
      rewrite bool_decide_eq_false_2 by (intros [_ ?]; done). done.
  - rewrite lookup_insert_ne by done.
    rewrite bool_decide_eq_false_2 by (intros [? _]; done). done.
Qed.

(** What [update_custom_index] does to every entry of the collection: the
    document goes to the end of the entry of each registered field under
    the key of its value there, and nowhere else. *)
Lemma update_custom_index_entries db coll doc f k :
  index_entry (update_custom_index db coll doc) coll f k
  = if bool_decide (f ∈ at_ (indexed_fields_ db) coll
                    /\ index_key (cJSON_GetObjectItem (Some doc) f) = Some k)
    then index_entry db coll f k ++ [doc]
    else index_entry db coll f k.
Proof.
  unfold update_custom_index.
  change (at_ (indexed_fields_ db) coll)
    with (default ∅ (indexed_fields_ db !! coll)).
  destruct (indexed_fields_ db !! coll) as [fields|];
    cbn [default from_option id].
  2: { rewrite bool_decide_eq_false_2; [done|].
       intros [Hin _]. by apply not_elem_of_empty in Hin. }
  set (files := fun (X : gset string) f k =>
         f ∈ X /\ index_key (cJSON_GetObjectItem (Some doc) f) = Some k).
  match goal with
  | |- context [set_fold ?g db fields] => set (step := g)
  end.
  enough (Hall : forall f k,
            (files fields f k ->
             index_entry (set_fold step db fields) coll f k
             = index_entry db coll f k ++ [doc])
            /\ (~ files fields f k ->
                index_entry (set_fold step db fields) coll f k
                = index_entry db coll f k)).
  { destruct (Hall f k) as [Hyes Hno]. case_bool_decide; auto. }
  clear f k.
  apply (set_fold_ind_L
    (fun db' X => forall f k,
       (files X f k ->
        index_entry db' coll f k = index_entry db coll f k ++ [doc])
       /\ (~ files X f k ->
           index_entry db' coll f k = index_entry db coll f k))).
  - intros f k. split; [|done].
    intros [Hin _]. by apply not_elem_of_empty in Hin.
  - intros x X db' Hx IH f k.
    assert (Hfiles : files ({[x]} ∪ X) f k
                     <-> (f = x /\ index_key
                                    (cJSON_GetObjectItem (Some doc) x)
                                  = Some k)
                         \/ files X f k).
    { unfold files. rewrite elem_of_union, elem_of_singleton.
      split.
      - intros [[->|Hin] Hk]; [left | right]; done.
      - intros [[-> Hk] | [Hin Hk]]; split; auto. }
    rewrite Hfiles. subst step. cbn beta.
    destruct (index_key (cJSON_GetObjectItem (Some doc) x)) as [kx|] eqn:Ekx.
    + rewrite index_entry_insert.
      destruct (decide (f = x /\ k = kx)) as [[-> ->]|Hne].
      * rewrite bool_decide_eq_true_2 by done.
        destruct (IH x kx) as [_ Hsame].
        split; [|intros Hno; exfalso; apply Hno; left; done].
        intros _. f_equal. apply Hsame. intros [Hin _]. done.
      * rewrite (bool_decide_eq_false_2 _ Hne).
        destruct (IH f k) as [Hyes Hno]. split.
        -- intros [[-> Hk] | Hf]; [|auto].
           exfalso. apply Hne. split; congruence.
        -- intros Hnot. apply Hno. intros Hf. apply Hnot. right. done.
    + destruct (IH f k) as [Hyes Hno]. split.
      * intros [[_ Hk] | Hf]; [done | auto].
      * intros Hnot. apply Hno. intros Hf. apply Hnot. right. done.
Qed.

Lemma index_document_entries collection db item f k :
  index_entry (index_document collection db item) collection f k
  = if bool_decide (f ∈ at_ (indexed_fields_ db) collection
                    /\ index_key (cJSON_GetObjectItem (Some item) f) = Some k)
    then index_entry db collection f k ++ [item]
    else index_entry db collection f k.
Proof.
  unfold index_document. cbn zeta. rewrite update_custom_index_entries.
  destruct (cJSON_GetObjectItem (Some item) "_id") as [n|]; [|done].
  destruct (valuestring n); [|done].
  destruct (cJSON_IsString (Some n)); done.
Qed.

(** X6.  [rebuild_index] makes the secondary index of the collection
    exact: the entry of a registered field under a key holds, in array
    order, the documents of the array whose value at the field has that
    key, each as often as the array holds it; the entries of other fields
    are empty. *)
Theorem rebuild_index_entries db collection array f k :
  index_entry (rebuild_index db collection array) collection f k
  = if bool_decide (f ∈ at_ (indexed_fields_ db) collection)
    then filter
           (fun doc => index_key (cJSON_GetObjectItem (Some doc) f) = Some k)
           (children array)
    else [].
Proof.
  unfold rebuild_index.
  set (db0 := set_custom_indexes _ (set_id_indexes _ db)).
  assert (Hempty : index_entry db0 collection f k = []).
  { unfold index_entry, at_. subst db0. cbn.
    by rewrite lookup_insert_eq. }
  assert (Hfields0 : indexed_fields_ db0 = indexed_fields_ db) by done.
  enough (Hgen : forall items db1,
            indexed_fields_ db1 = indexed_fields_ db ->
            index_entry (fold_left (index_document collection) items db1)
              collection f k
            = index_entry db1 collection f k
              ++ (if bool_decide (f ∈ at_ (indexed_fields_ db) collection)
                  then filter
                         (fun doc =>
                            index_key (cJSON_GetObjectItem (Some doc) f)
                            = Some k)
                         items
                  else [])).
  { rewrite (Hgen _ db0 Hfields0), Hempty. reflexivity. }
  induction items as [|item items IH]; intros db1 Hfields1.
  - cbn [fold_left]. rewrite filter_nil.
    destruct (bool_decide _); by rewrite app_nil_r.
  - cbn [fold_left].
    destruct (index_document_frame collection db1 item)
      as (_ & _ & _ & Hfields2 & _). cbn zeta in Hfields2.
    rewrite IH by congruence.
    rewrite index_document_entries, Hfields1, filter_cons.
    destruct (decide (f ∈ at_ (indexed_fields_ db) collection)) as [Hin|Hout].
    + rewrite (bool_decide_eq_true_2 _ Hin).
      destruct (decide (index_key (cJSON_GetObjectItem (Some item) f)
                        = Some k)) as [Hk|Hk].
      * rewrite bool_decide_eq_true_2 by done. by rewrite <- app_assoc.
      * rewrite bool_decide_eq_false_2 by (intros [_ ?]; done). done.
    + rewrite (bool_decide_eq_false_2 _ Hout).
      rewrite bool_decide_eq_false_2 by (intros [? _]; done). done.
Qed.

(** *** Compaction *)

Lemma compact_collection_present db disk coll io array :
  memory_store_ db !! coll = Some array ->
  compact_collection db disk coll io
  = (fst (Engine.compact (storage_ db) disk coll
            (map cJSON_PrintUnformatted (children array)) io),
     db,
     snd (Engine.compact (storage_ db) disk coll
            (map cJSON_PrintUnformatted (children array)) io)).
Proof.
  intros Hcoll. unfold compact_collection, memory_store_subscript.
  rewrite Hcoll. rewrite bool_decide_eq_false_2 by discriminate.
  by destruct (Engine.compact _ _ _ _ _).
Qed.

Lemma compact_collection_absent db disk coll io :
  memory_store_ db !! coll = None ->
  compact_collection db disk coll io = (false, db, disk).
Proof.
  intros Hcoll. unfold compact_collection.
  by rewrite bool_decide_eq_true_2 by exact Hcoll.
Qed.

(** C6.  Compacting a collection that is present in memory leaves the whole
    in-memory state (document array, primary and secondary indexes, schema
    registry, auth cache) as it was, whether or not the compaction
    succeeds; it succeeds exactly when the engine could write, close and
    rename the temporary file; and after a compaction that succeeded the log
    holds as many frames as the array holds documents, in array order, the
    frame at each place being what the engine stores for the serialization
    of the document at that place: the serialization itself when it fits the
    32-bit length of a frame.  (The printer of cJSON gives no text longer
    than [INT_MAX] bytes, so what it prints fits.) *)
Theorem compact_collection_preserves db disk coll io array :
  memory_store_ db !! coll = Some array ->
  exists ok disk',
    compact_collection db disk coll io = (ok, db, disk')
    /\ (ok = true <-> io = Engine.CompactOk)
    /\ (ok = true ->
        let log := Engine.load_log (storage_ db) disk' coll in
        let docs := map cJSON_PrintUnformatted (children array) in
        length log = cJSON_GetArraySize array
        /\ log = map Engine.stored docs
        /\ (Forall Engine.fits_frame docs -> log = docs)).
Proof.
  intros Hcoll. rewrite (compact_collection_present _ _ _ _ _ Hcoll).
  eexists _, _. split; [reflexivity|]. split.
  { destruct io; cbn [Engine.compact fst]; split; intros Heq;
      first [reflexivity | discriminate Heq]. }
  intros Hok. destruct io; try discriminate Hok.
  cbn zeta. rewrite EngineFacts.load_log_compact.
  split; [|split].
  - rewrite !length_map. reflexivity.
  - reflexivity.
  - apply EngineFacts.map_stored_fits.
Qed.

(** *** Insert *)

Lemma documents_add db coll arr item :
  memory_store_ db !! coll = Some (Some arr) ->
  documents
    (set_memory_store <[coll := cJSON_AddItemToArray (Some arr) item]> db)
    coll
  = documents db coll ++ [item].
Proof.
  intros Hcoll. unfold documents. cbn [memory_store_ set_memory_store].
  rewrite lookup_insert_eq, Hcoll. reflexivity.
Qed.

(** What [insert] does, case by case.  A document that validation rejects:
    false, and neither the database state nor the disk changes.  A document
    that passes and has an [_id] member without a string value: the call
    does not return.  Any other document that passes: the call returns what
    [Engine::append] reports for the frame of the stored document ([data]
    with its identifier), and whatever that is, the stored document is the
    entry of the primary index under its identifier, is at the end of the
    secondary-index entry of every registered field at which it has a string
    or a number, and is the last document of the collection unless the
    array of the collection is null; a null array stays null. *)
Lemma insert_outcomes db disk coll data fresh_id io :
  let new_item := inserted_document data fresh_id in
  let appended :=
    Engine.append (storage_ db) disk coll (cJSON_PrintUnformatted new_item)
      io in
  (validate db coll data = false ->
   insert db disk coll data fresh_id io = Returns (false, db, disk))
  /\ (validate db coll data = true ->
      inserted_id data fresh_id = None ->
      insert db disk coll data fresh_id io = Throws)
  /\ (forall uuid,
        validate db coll data = true ->
        inserted_id data fresh_id = Some uuid ->
        exists db',
          insert db disk coll data fresh_id io
          = Returns (appended.1, db', appended.2)
          /\ (memory_store_ db !! coll <> Some None ->
              documents db' coll = documents db coll ++ [new_item])
          /\ (memory_store_ db !! coll = Some None ->
              memory_store_ db' !! coll = Some None)
          /\ at_ (id_indexes_ db') coll !! uuid = Some new_item
          /\ forall field key,
               field ∈ at_ (indexed_fields_ db) coll ->
               index_key (cJSON_GetObjectItem (Some new_item) field)
               = Some key ->
               index_entry db' coll field key
               = index_entry db coll field key ++ [new_item]).
Proof.
  intros new_item appended. unfold insert.
  split; [by intros ->|]. split.
  { intros -> Hid. cbn [negb]. destruct (get_collection db coll) as [arr db1].
    unfold inserted_id in Hid.
    destruct (cJSON_HasObjectItem (Some data) "_id"); [|done].
    cbn [negb]. by rewrite Hid. }
  intros uuid -> Hid. cbn [negb].
  set (gc := get_collection db coll).
  assert (Hgc : exists arr db1,
             gc = (arr, db1)
             /\ indexed_fields_ db1 = indexed_fields_ db
             /\ custom_indexes_ db1 = custom_indexes_ db
             /\ storage_ db1 = storage_ db
             /\ (memory_store_ db !! coll <> Some None ->
                 exists a, arr = Some a
                           /\ memory_store_ db1 !! coll = Some (Some a)
                           /\ documents db1 coll = documents db coll)
             /\ (memory_store_ db !! coll = Some None -> arr = None)).
  { subst gc. unfold get_collection.
    destruct (memory_store_ db !! coll) as [[arr|]|] eqn:Hcoll.
    - exists (Some arr), db. repeat split; [|discriminate]. intros _.
      exists arr. by rewrite Hcoll.
    - exists None, db. repeat split. done.
    - eexists _, _. split; [reflexivity|]. repeat split; [|discriminate].
      intros _. eexists. split; [reflexivity|]. cbn.
      rewrite lookup_insert_eq. unfold documents. rewrite Hcoll.
      cbn. rewrite lookup_insert_eq. done. }
  destruct Hgc as (arr & db1 & -> & Hfields1 & Hci1 & Hst1 & Harr & Hnull).
  assert (Hpair :
    (if negb (cJSON_HasObjectItem (Some data) "_id")
     then Returns (fresh_id, cJSON_AddStringToObject data "_id" fresh_id)
     else uuid0 ← std_string
                    (cJSON_GetObjectItem (Some data) "_id" ≫= valuestring);
          Returns (uuid0, data))
    = Returns (uuid, new_item)).
  { subst new_item. unfold inserted_id, inserted_document in *.
    destruct (cJSON_HasObjectItem (Some data) "_id"); cbn [negb].
    - rewrite Hid. reflexivity.
    - congruence. }
  rewrite Hpair. cbn [mbind outcome_bind]. unfold cJSON_Duplicate.
  set (db2 := set_id_indexes _ (set_memory_store _ db1)).
  destruct (update_custom_index_frame db2 coll new_item)
    as (Hst & Hmem & Hidx & _ & Hfields & _).
  cbn zeta in *.
  assert (Hst2 : storage_ (update_custom_index db2 coll new_item)
                 = storage_ db) by (rewrite Hst; subst db2; exact Hst1).
  rewrite Hst2. fold appended.
  destruct appended as [ok disk'].
  eexists. split; [reflexivity|]. split; [|split; [|split]].
  - intros Hnotnull. destruct (Harr Hnotnull) as (a & -> & Hcoll1 & Hdocs1).
    unfold documents at 1. rewrite Hmem. fold (documents db2 coll).
    subst db2. unfold documents at 1. cbn [memory_store_ set_id_indexes].
    fold (documents
            (set_memory_store
               <[coll := cJSON_AddItemToArray (Some a) new_item]> db1)
            coll).
    rewrite documents_add by exact Hcoll1. by rewrite Hdocs1.
  - intros Hisnull. rewrite Hmem. subst db2.
    cbn [memory_store_ set_id_indexes set_memory_store].
    rewrite lookup_insert_eq. by rewrite (Hnull Hisnull).
  - rewrite Hidx. subst db2. unfold at_ at 1. cbn.
    rewrite lookup_insert_eq. cbn. apply lookup_insert_eq.
  - intros field key Hfield Hkey.
    rewrite update_custom_index_entries.
    assert (Hfields2 : indexed_fields_ db2 = indexed_fields_ db)
      by (subst db2; exact Hfields1).
    rewrite Hfields2. rewrite bool_decide_eq_true_2 by done.
    unfold index_entry. subst db2. cbn. by rewrite Hci1.
Qed.

(** What [insert] returns for a document that passes validation is what the
    stream of [Engine::append] says of itself before it is closed: false
    when the file could not be opened or a write made the stream bad, true
    otherwise, the failure of the write at the close included. *)
Lemma insert_reports_stream db disk coll data fresh_id io ok db' disk' :
  validate db coll data = true ->
  insert db disk coll data fresh_id io = Returns (ok, db', disk') ->
  ok = false
  <-> io = Engine.OpenFailed \/ exists written, io = Engine.WriteFailed written.
Proof.
  intros Hvalid Hinsert.
  destruct (insert_outcomes db disk coll data fresh_id io)
    as (_ & Hthrows & Hreturns).
  destruct (inserted_id data fresh_id) as [uuid|] eqn:Hid.
  2: { rewrite (Hthrows Hvalid eq_refl) in Hinsert. discriminate. }
  destruct (Hreturns uuid Hvalid eq_refl) as (db'' & Heq & _).
  rewrite Heq in Hinsert. injection Hinsert as <- _ _.
  destruct io; cbn [Engine.append fst]; split.
  all: first [ intros Hbool; discriminate Hbool
             | intros [Hio | [written' Hio]]; discriminate Hio
             | intros _; reflexivity
             | intros _; left; reflexivity
             | intros _; right; eexists; reflexivity ].
Qed.

(** *** Update *)

(** What [update] returns.  On a collection that exists in memory with an
    array it returns true, whatever the compaction does and whether or not
    the engine's result parses (the collection is then what [cJSON_Parse]
    returned, null included); on a collection that exists with a null array
    it does not return; on a collection that does not exist it returns
    false and leaves state and disk as they were, and that is the only
    case where it returns false. *)
Lemma update_return_value db disk coll query data io :
  (forall arr,
      memory_store_ db !! coll = Some (Some arr) ->
      exists db' disk',
        update db disk coll query data io = Returns (true, db', disk')
        /\ memory_store_ db' !! coll
           = Some (cJSON_Parse
                     (call_update (cJSON_PrintUnformatted arr)
                        (cJSON_PrintUnformatted query)
                        (cJSON_PrintUnformatted data))))
  /\ (memory_store_ db !! coll = Some None ->
      update db disk coll query data io = Throws)
  /\ (memory_store_ db !! coll = None ->
      update db disk coll query data io = Returns (false, db, disk))
  /\ (forall db' disk',
        update db disk coll query data io = Returns (false, db', disk') ->
        memory_store_ db !! coll = None /\ db' = db /\ disk' = disk).
Proof.
  unfold update. split; [|split; [|split]].
  - intros arr Hcoll. rewrite Hcoll. cbn [print_ptr fmap option_fmap option_map
      std_string mbind outcome_bind].
    set (new_collection := cJSON_Parse _).
    set (db1 := rebuild_index _ coll new_collection).
    assert (Hmem : memory_store_ db1 !! coll = Some new_collection).
    { subst db1.
      destruct (rebuild_index_frame
                  (set_memory_store <[coll := new_collection]> db)
                  coll new_collection) as (_ & -> & _).
      cbn. apply lookup_insert_eq. }
    rewrite (compact_collection_present _ _ _ _ _ Hmem).
    eexists _, _. split; [reflexivity | exact Hmem].
  - intros ->. reflexivity.
  - intros ->. reflexivity.
  - intros db' disk'.
    destruct (memory_store_ db !! coll) as [[arr|]|] eqn:Hcoll.
    + cbn [print_ptr fmap option_fmap option_map std_string mbind
        outcome_bind].
      destruct (compact_collection _ _ _ _) as [[? ?] ?]. discriminate.
    + discriminate.
    + intros [= <- <-]. done.
Qed.

(** *** Users and permissions *)

(** X2.  [has_permission] is the table of the specification: an administrator
    may do everything, a read-write user may read and write documents, a
    read-only user may read them, and without a role nothing is allowed. *)
Theorem has_permission_table role action :
  has_permission role action = true <-> permitted role action.
Proof.
  unfold has_permission, permitted, read_actions, write_actions.
  destruct role; cbn [app].
  - split; [discriminate | done].
  - rewrite orb_true_iff, !bool_decide_eq_true.
    rewrite !elem_of_cons, elem_of_nil. tauto.
  - rewrite !orb_true_iff, !bool_decide_eq_true.
    rewrite !elem_of_cons, elem_of_nil. tauto.
  - done.
Qed.

(** X3.  A user that was just created authenticates with the role that was
    asked for, whether or not the append to [_auth] succeeded; the empty
    key never authenticates. *)
Theorem authenticate_create_user db disk key role uuid now io :
  key <> "" ->
  authenticate (create_user db disk key role uuid now io).1.2 key
  = parse_role role
  /\ authenticate db "" = NONE.
Proof.
  intros Hkey. split; [|reflexivity].
  unfold authenticate, create_user.
  rewrite bool_decide_eq_false_2 by exact Hkey.
  destruct (Engine.append _ _ _ _ _) as [ok disk'].
  destruct (get_collection _ _) as [arr db1] eqn:Hgc. cbn.
  assert (Hauth : auth_cache_ db1
                  = <[hash_key key := parse_role role]> (auth_cache_ db)).
  { unfold get_collection in Hgc.
    destruct (memory_store_ _ !! "_auth"); inversion Hgc; reflexivity. }
  rewrite Hauth, lookup_insert_eq. reflexivity.
Qed.

(** *** The primary-key tier of [find] *)

(** X4.  A query that is the single-key object [{_id: <string>}], with no sort
    and no projection, on a collection that exists: [find] returns the
    array holding the document filed under that identifier, or the empty
    array when there is none. *)
Theorem find_by_id db coll array id_node target_id query limit skip :
  memory_store_ db !! coll = Some array ->
  child query = [id_node] ->
  string_ id_node = Some "_id" ->
  type id_node = cJSON_String ->
  valuestring id_node = Some target_id ->
  find db coll (Some query) None None limit skip
  = Returns
      (Some (match at_ (id_indexes_ db) coll !! target_id with
             | Some doc => append_child cJSON_CreateArray doc
             | None => cJSON_CreateArray
             end)).
Proof.
  intros Hcoll Hchild Hname Htype Hvalue. unfold find. rewrite Hcoll.
  assert (Hid : cJSON_GetObjectItem (Some query) "_id" = Some id_node).
  { unfold cJSON_GetObjectItem. cbn [children]. rewrite Hchild.
    cbn [List.find]. rewrite Hname. reflexivity. }
  rewrite Hid. cbn [is_null orb andb cJSON_IsString has_type].
  rewrite Htype, bool_decide_eq_true_2 by reflexivity.
  cbn [mbind option_bind]. rewrite Hvalue.
  destruct (at_ (id_indexes_ db) coll !! target_id); reflexivity.
Qed.

(** *** The secondary-index tier of [find] *)

(** X7.  A query with the single key [field], registered on the
    collection and other than [_id], whose value is a non-empty string, with
    no sort and no projection and with [skip] and [limit] not negative:
    [find] answers from the secondary index with the documents of the entry
    from position [skip] on, at most [limit] of them when [limit] is not
    zero, and with the empty array when the index has no entry for the
    value; the predicate engine is not consulted. *)
Theorem find_by_index db coll array node field val fields query limit skip :
  memory_store_ db !! coll = Some array ->
  child query = [node] ->
  string_ node = Some field ->
  case_insensitive_equal "_id" field = false ->
  indexed_fields_ db !! coll = Some fields ->
  field ∈ fields ->
  type node = cJSON_String ->
  valuestring node = Some val ->
  val <> "" ->
  0 <= skip < 2 ^ 31 -> 0 <= limit < 2 ^ 31 ->
  find db coll (Some query) None None limit skip
  = Returns
      (Some
         (fold_left append_child
            (let docs := index_entry db coll field val in
             let rest := drop (Z.to_nat skip) docs in
             if limit =? 0 then rest else take (Z.to_nat limit) rest)
            cJSON_CreateArray)).
Proof.
  intros Hcoll Hchild Hname Hnotid Hfields Hfield Htype Hvalue Hval Hskip
    Hlimit.
  unfold find. rewrite Hcoll.
  assert (Hid : cJSON_GetObjectItem (Some query) "_id" = None).
  { unfold cJSON_GetObjectItem. cbn [children]. rewrite Hchild.
    cbn [List.find]. by rewrite Hname, Hnotid. }
  rewrite Hid. cbn [is_null orb andb cJSON_IsString has_type].
  unfold cJSON_GetArraySize at 1. cbn [children]. rewrite Hchild.
  cbn [length Nat.eqb]. rewrite Hfields. cbn [head]. rewrite Hname.
  rewrite bool_decide_eq_true_2 by exact Hfield.
  cbn [cJSON_IsString has_type]. rewrite Htype.
  rewrite bool_decide_eq_true_2 by reflexivity.
  rewrite Hvalue. cbn [std_string mbind outcome_bind].
  rewrite bool_decide_eq_false_2 by exact Hval.
  unfold index_entry.
  destruct (at_ (at_ (custom_indexes_ db) coll) field !! val) as [docs|];
    cbn [default from_option id].
  2: { rewrite drop_nil. by destruct (limit =? 0); rewrite ?take_nil. }
  do 2 f_equal. unfold size_t, cJSON_Duplicate.
  rewrite (Z.mod_small skip) by lia. rewrite (Z.mod_small limit) by lia.
  rewrite (Z.mod_small (skip + limit)) by lia.
  assert (Hmap : forall l : list cJSON, map (fun item => item) l = l)
    by apply map_id.
  rewrite Hmap.
  destruct (Z.ltb_spec skip (Z.of_nat (length docs))) as [Hin|Hout].
  - destruct (Z.ltb_spec 0 limit) as [Hpos|Hzero].
    + rewrite (proj2 (Z.eqb_neq limit 0)) by lia.
      destruct (Z.min_spec (skip + limit) (Z.of_nat (length docs)))
        as [[Hlt ->]|[Hge ->]].
      * do 2 f_equal. lia.
      * rewrite !take_ge; [done | rewrite length_drop; lia..].
    + replace limit with 0 by lia. cbn [Z.eqb].
      rewrite take_ge; [done | rewrite length_drop; lia].
  - rewrite drop_ge by lia. by destruct (limit =? 0); rewrite ?take_nil.
Qed.

(** *** Count *)

(** X8.  [count] of a collection that does not exist is 0; with no query
    or an empty query it is the size of the in-memory array (0 for a null
    array), and the predicate engine is not consulted. *)
Theorem count_without_query db coll query :
  (memory_store_ db !! coll = None -> count db coll query = Returns 0)
  /\ (children query = [] ->
      count db coll query
      = Returns (Z.of_nat (length (documents db coll)))).
Proof.
  unfold count, documents. split.
  - by intros ->.
  - intros Hempty. destruct (memory_store_ db !! coll) as [array|]; [|done].
    unfold cJSON_GetArraySize at 1. rewrite Hempty.
    by rewrite orb_true_r.
Qed.

(** *** Index declaration *)

(** X9.  Declaring an index that is already registered returns true and
    changes neither the state nor the disk. *)
Theorem create_index_again db disk coll field io :
  field ∈ at_ (indexed_fields_ db) coll ->
  create_index db disk coll field io = (true, db, disk).
Proof.
  intros Hin. unfold create_index. by rewrite bool_decide_eq_true_2.
Qed.

(** *** Replay *)

Lemma replay_frame_meaning name schemas temp_map log_entry :
  name <> "_schemas" ->
  replay_frame name (schemas, temp_map) log_entry
  = (schemas, apply_frame temp_map (meaning log_entry)).
Proof.
  intros Hname. unfold replay_frame, meaning.
  destruct (cJSON_Parse _) as [item|]; [|done].
  rewrite bool_decide_eq_false_2 by exact Hname.
  destruct (cJSON_GetObjectItem (Some item) "_id") as [id_node|]; [|done].
  cbn [mbind option_bind].
  destruct (valuestring id_node) as [uuid|]; [|done].
  destruct (cJSON_IsTrue _); [|done].
  cbn [apply_frame]. case_bool_decide as Hin; [done|].
  rewrite delete_id; [done|].
  destruct (temp_map !! uuid) eqn:E; [|done].
  exfalso. apply Hin. eauto.
Qed.

Lemma fold_replay_frame name schemas logs temp_map :
  name <> "_schemas" ->
  fold_left (replay_frame name) logs (schemas, temp_map)
  = (schemas,
     fold_left (fun docs log_entry => apply_frame docs (meaning log_entry))
       logs temp_map).
Proof.
  intros Hname. revert temp_map.
  induction logs as [|log_entry logs IH]; intros temp_map; [done|].
  cbn [fold_left]. rewrite replay_frame_meaning by exact Hname. apply IH.
Qed.

Lemma fold_add_item (docs : list (string * cJSON)) (a : cJSON) :
  fold_left (fun arr '(_, doc) => cJSON_AddItemToArray arr doc) docs (Some a)
  = Some (cJSON_node (type a) (valuestring a) (valuedouble a) (string_ a)
            (child a ++ docs.*2)).
Proof.
  revert a. induction docs as [|[id doc] docs IH]; intros a.
  - cbn. rewrite app_nil_r. by destruct a.
  - cbn [fold_left cJSON_AddItemToArray]. rewrite IH. cbn.
    by rewrite <- app_assoc.
Qed.

(** A tombstone for an identifier that is not live changes nothing. *)
Lemma replay_tombstone_absent logs tombstone id :
  meaning tombstone = Tombstone id ->
  replay logs !! id = None ->
  replay (logs ++ [tombstone]) = replay logs.
Proof.
  intros Hm Habsent. unfold replay in *.
  rewrite fold_left_app. cbn [fold_left]. rewrite Hm. cbn [apply_frame].
  by apply delete_id.
Qed.

(** C1.  Recovery of a collection that is not reserved leaves in memory an
    array holding exactly the documents of the left fold of its log frames,
    where a frame that parses and has an [_id] with a string value inserts
    or replaces the document under that [_id] unless its [_deleted] member
    is [true], in which case it removes that [_id]; removing an [_id] that
    is not there changes nothing, so one more tombstone for it leaves the
    result as it is; every other frame is skipped. *)
Theorem load_collection_replay io db disk name :
  name <> "_auth" -> name <> "_schemas" -> name <> "_indexes" ->
  let logs := Engine.load_log (storage_ db) disk name in
  (exists db' disk' arr,
      load_collection io (db, disk) name = Returns (db', disk')
      /\ memory_store_ db' !! name = Some (Some arr)
      /\ child arr ≡ₚ (map_to_list (replay logs)).*2)
  /\ (forall tombstone id,
        meaning tombstone = Tombstone id ->
        replay logs !! id = None ->
        replay (logs ++ [tombstone]) = replay logs).
Proof.
  intros Hauth Hschemas Hindexes logs. split.
  2: { intros tombstone id. apply replay_tombstone_absent. }
  unfold load_collection. fold logs.
  rewrite (bool_decide_eq_false_2 _ Hindexes).
  rewrite fold_replay_frame by exact Hschemas. fold (replay logs).
  rewrite (bool_decide_eq_false_2 _ Hschemas).
  rewrite (bool_decide_eq_false_2 _ Hauth).
  rewrite fold_add_item. cbn [child cJSON_CreateArray app].
  set (arr := cJSON_node _ _ _ _ _).
  set (db1 := rebuild_index _ name (Some arr)).
  assert (Hmem : memory_store_ db1 !! name = Some (Some arr)).
  { subst db1.
    destruct (rebuild_index_frame
                (set_memory_store <[name := Some arr]>
                   (set_schemas (fun _ => schemas_ db) db))
                name (Some arr)) as (_ & -> & _).
    cbn. apply lookup_insert_eq. }
  cbn [mbind outcome_bind].
  rewrite (compact_collection_present _ _ _ _ _ Hmem).
  destruct (fragmented _ _); eexists db1, _, arr; (split; [reflexivity|]);
    (split; [exact Hmem | reflexivity]).
Qed.

(** *** The compaction heuristic *)

Lemma fragmented_spec logs_size live :
  fragmented logs_size live = true
  <-> (2 * live < logs_size /\ 100 < live)%nat.
Proof.
  unfold fragmented. rewrite andb_true_iff, !Nat.ltb_lt. lia.
Qed.

(** C8, as amended.  When recovery has loaded a collection (other than
    [_schemas] and [_indexes], which hold no documents), its log is
    compacted exactly when it holds strictly more than twice as many frames
    as there are live documents and there are strictly more than 100 live
    documents; after a compaction that succeeded the log holds one frame
    per live document, and without compaction it holds the frames it held.
    In particular, with 101 live documents a log of at most 202 frames is
    left as it is, and a log of 203 frames or more holds exactly 101 frames
    once its compaction has succeeded. *)
Theorem load_collection_compacts io db disk name :
  name <> "_schemas" -> name <> "_indexes" ->
  let logs := Engine.load_log (storage_ db) disk name in
  (name <> "_auth" ->
   exists db' disk', load_collection io (db, disk) name = Returns (db', disk'))
  /\ forall db' disk',
       load_collection io (db, disk) name = Returns (db', disk') ->
       let live := length (documents db' name) in
       let log' := Engine.load_log (storage_ db) disk' name in
       live = size (replay logs)
       /\ ((2 * live < length logs /\ 100 < live)%nat ->
           disk' = (compact_collection db' disk name (io name)).2
           /\ (io name = Engine.CompactOk -> length log' = live))
       /\ (~ (2 * live < length logs /\ 100 < live)%nat ->
           disk' = disk /\ log' = logs)
       /\ (live = 101%nat ->
           ((length logs <= 202)%nat -> log' = logs)
           /\ ((202 < length logs)%nat ->
               io name = Engine.CompactOk -> length log' = 101%nat)).
Proof.
  intros Hschemas Hindexes logs.
  unfold load_collection. fold logs.
  rewrite (bool_decide_eq_false_2 _ Hindexes).
  rewrite fold_replay_frame by exact Hschemas. fold (replay logs).
  rewrite (bool_decide_eq_false_2 _ Hschemas).
  rewrite fold_add_item. cbn [child cJSON_CreateArray app].
  set (arr := cJSON_node _ _ _ _ _).
  set (db1 := rebuild_index _ name (Some arr)).
  assert (Hmem1 : memory_store_ db1 !! name = Some (Some arr)
                  /\ storage_ db1 = storage_ db).
  { subst db1.
    destruct (rebuild_index_frame
                (set_memory_store <[name := Some arr]>
                   (set_schemas (fun _ => schemas_ db) db))
                name (Some arr)) as (-> & -> & _).
    cbn. split; [apply lookup_insert_eq | done]. }
  assert (Hlive : cJSON_GetArraySize (Some arr) = size (replay logs)).
  { unfold cJSON_GetArraySize. cbn. rewrite length_fmap.
    apply length_map_to_list. }
  assert (Hmain : forall db2,
    memory_store_ db2 !! name = Some (Some arr) ->
    storage_ db2 = storage_ db ->
    forall db' disk',
      (if fragmented (length logs) (size (replay logs))
       then let '(_, db3, disk3) :=
              compact_collection db2 disk name (io name) in
            Returns (db3, disk3)
       else Returns (db2, disk)) = Returns (db', disk') ->
      let live := length (documents db' name) in
      let log' := Engine.load_log (storage_ db) disk' name in
      live = size (replay logs)
      /\ ((2 * live < length logs /\ 100 < live)%nat ->
          disk' = (compact_collection db' disk name (io name)).2
          /\ (io name = Engine.CompactOk -> length log' = live))
      /\ (~ (2 * live < length logs /\ 100 < live)%nat ->
          disk' = disk /\ log' = logs)
      /\ (live = 101%nat ->
          ((length logs <= 202)%nat -> log' = logs)
          /\ ((202 < length logs)%nat ->
              io name = Engine.CompactOk -> length log' = 101%nat))).
  { intros db2 Hmem2 Hst2 db' disk'.
    rewrite (compact_collection_present _ _ _ _ _ Hmem2).
    pose proof (fragmented_spec (length logs) (size (replay logs))) as Hfrag.
    destruct (fragmented _ _); intros [= <- <-]; cbn zeta;
      (assert (Hdocs : length (documents db2 name) = size (replay logs));
       [unfold documents; rewrite Hmem2; exact Hlive|]);
      rewrite Hdocs.
    - destruct Hfrag as [Hfrag _]. specialize (Hfrag eq_refl).
      rewrite (compact_collection_present _ _ _ _ _ Hmem2). cbn [snd].
      assert (Hok : io name = Engine.CompactOk ->
                    length (Engine.load_log (storage_ db)
                              (Engine.compact (storage_ db2) disk name
                                 (map cJSON_PrintUnformatted
                                    (children (Some arr))) (io name)).2
                              name)
                    = size (replay logs)).
      { intros ->. rewrite Hst2, EngineFacts.load_log_compact.
        rewrite !length_map. exact Hlive. }
      split; [done|]. split; [done|]. split; [done|].
      intros H101. split; [lia|]. intros _ Hio. rewrite <- H101. auto.
    - assert (Hno : ~ (2 * size (replay logs) < length logs
                       /\ 100 < size (replay logs))%nat).
      { intros Hyes. apply Hfrag in Hyes. discriminate. }
      split; [done|]. split; [done|]. split; [done|].
      intros H101. split; [done|]. intros Hlen Hio. lia. }
  split.
  - intros Hauth. rewrite (bool_decide_eq_false_2 _ Hauth).
    cbn [mbind outcome_bind].
    rewrite (compact_collection_present _ _ _ _ _ (proj1 Hmem1)).
    destruct (fragmented _ _); eexists _, _; reflexivity.
  - intros db' disk'. destruct Hmem1 as [Hmem1 Hst1].
    case_bool_decide as Hauth.
    + destruct (foldM load_auth_entry _ _) as [cache|];
        cbn [mbind outcome_bind]; [|discriminate].
      apply Hmain; [exact Hmem1 | exact Hst1].
    + cbn [mbind outcome_bind]. apply Hmain; [exact Hmem1 | exact Hst1].
Qed.

(** *** Recovery as a whole *)

(** What loading a collection that is not reserved stores under its
    name. *)
Lemma load_collection_array io db disk name :
  name <> "_auth" -> name <> "_schemas" -> name <> "_indexes" ->
  exists db' disk',
    load_collection io (db, disk) name = Returns (db', disk')
    /\ memory_store_ db' !! name
       = Some (Some (fold_left append_child
                       (map_to_list
                          (replay (Engine.load_log (storage_ db) disk name))).*2
                       cJSON_CreateArray)).
Proof.
  intros Hauth Hschemas Hindexes. unfold load_collection.
  rewrite (bool_decide_eq_false_2 _ Hindexes).
  rewrite fold_replay_frame by exact Hschemas.
  fold (replay (Engine.load_log (storage_ db) disk name)).
  rewrite (bool_decide_eq_false_2 _ Hschemas).
  rewrite (bool_decide_eq_false_2 _ Hauth).
  set (docs := map_to_list (replay _)).
  assert (Harr : fold_left (fun arr '(_, doc) => cJSON_AddItemToArray arr doc)
                   docs (Some cJSON_CreateArray)
                 = Some (fold_left append_child docs.*2 cJSON_CreateArray)).
  { generalize cJSON_CreateArray as a.
    induction docs as [|[id doc] docs IH]; intros a; [done|]. apply IH. }
  rewrite Harr. set (arr := fold_left append_child _ _).
  set (db1 := rebuild_index _ name (Some arr)).
  assert (Hmem : memory_store_ db1 !! name = Some (Some arr)).
  { subst db1.
    destruct (rebuild_index_frame
                (set_memory_store <[name := Some arr]>
                   (set_schemas (fun _ => schemas_ db) db))
                name (Some arr)) as (_ & -> & _).
    cbn. apply lookup_insert_eq. }
  cbn [mbind outcome_bind].
  rewrite (compact_collection_present _ _ _ _ _ Hmem).
  destruct (fragmented _ _); eexists db1, _; (split; [reflexivity | exact Hmem]).
Qed.

Lemma child_fold_append_child docs a :
  child (fold_left append_child docs a) = child a ++ docs.
Proof.
  revert a. induction docs as [|doc docs IH]; intros a.
  - cbn. by rewrite app_nil_r.
  - cbn [fold_left]. rewrite IH. cbn. by rewrite <- app_assoc.
Qed.

(** Loading one collection leaves the directory path, the array of every
    other collection and the log of every other collection as they are. *)
Lemma load_collection_other io db disk name db' disk' other :
  load_collection io (db, disk) name = Returns (db', disk') ->
  other <> name ->
  storage_ db' = storage_ db
  /\ memory_store_ db' !! other = memory_store_ db !! other
  /\ disk' !! Engine.get_path (storage_ db) other
     = disk !! Engine.get_path (storage_ db) other.
Proof.
  intros Hload Hother. unfold load_collection in Hload.
  case_bool_decide as Hindexes.
  { destruct (foldM load_index_frame _ _); cbn in Hload; [|discriminate].
    by inversion Hload. }
  destruct (fold_left (replay_frame name) _ _) as [schemas temp_map].
  case_bool_decide as Hschemas; [by inversion Hload|].
  set (arr := fold_left _ (map_to_list temp_map) (Some cJSON_CreateArray))
    in Hload.
  set (db0 := set_memory_store <[name := arr]>
                (set_schemas (fun _ => schemas) db)) in Hload.
  destruct (rebuild_index_frame db0 name arr) as (Hst & Hmem & _).
  cbn zeta in Hst, Hmem.
  set (db1 := rebuild_index db0 name arr) in *.
  assert (Hkeep : forall db2 db3 disk3,
    storage_ db2 = storage_ db1 ->
    memory_store_ db2 = memory_store_ db1 ->
    (if fragmented (length (Engine.load_log (storage_ db) disk name))
          (size temp_map)
     then let '(_, db4, disk4) :=
            compact_collection db2 disk name (io name) in
          Returns (db4, disk4)
     else Returns (db2, disk)) = Returns (db3, disk3) ->
    storage_ db3 = storage_ db
    /\ memory_store_ db3 !! other = memory_store_ db !! other
    /\ disk3 !! Engine.get_path (storage_ db) other
       = disk !! Engine.get_path (storage_ db) other).
  { intros db2 db3 disk3 Hst2 Hmem2 Hend.
    assert (Hname : memory_store_ db2 !! name = Some arr).
    { rewrite Hmem2, Hmem. subst db0. cbn. apply lookup_insert_eq. }
    assert (Hst3 : storage_ db2 = storage_ db)
      by (rewrite Hst2, Hst; reflexivity).
    assert (Hmem3 : memory_store_ db2 !! other = memory_store_ db !! other).
    { rewrite Hmem2, Hmem. subst db0. cbn. by apply lookup_insert_ne. }
    rewrite (compact_collection_present _ _ _ _ _ Hname) in Hend.
    destruct (fragmented _ _); inversion Hend; subst; [|done].
    split; [done|]. split; [done|].
    rewrite Hst3. by apply EngineFacts.compact_other. }
  case_bool_decide as Hauth.
  - destruct (foldM load_auth_entry _ _) as [cache|]; cbn in Hload;
      [|discriminate].
    by apply (Hkeep (set_auth_cache (fun _ => cache) db1)).
  - cbn [mbind outcome_bind] in Hload. by apply (Hkeep db1).
Qed.

Lemma load_collections_other io names : forall db disk db' disk' other,
  foldM (load_collection io) names (db, disk) = Returns (db', disk') ->
  other ∉ names ->
  storage_ db' = storage_ db
  /\ memory_store_ db' !! other = memory_store_ db !! other
  /\ disk' !! Engine.get_path (storage_ db) other
     = disk !! Engine.get_path (storage_ db) other.
Proof.
  induction names as [|name names IH]; intros db disk db' disk' other Hload Hnot.
  - by inversion Hload.
  - cbn [foldM] in Hload.
    destruct (load_collection io (db, disk) name) as [[db1 disk1]|] eqn:Hone;
      cbn in Hload; [|discriminate].
    apply not_elem_of_cons in Hnot as [Hne Hnot].
    destruct (load_collection_other _ _ _ _ _ _ _ Hone Hne)
      as (Hst1 & Hmem1 & Hdisk1).
    destruct (IH _ _ _ _ _ Hload Hnot) as (Hst & Hmem & Hdisk).
    rewrite Hst1 in *. split; [done|]. split; congruence.
Qed.

Lemma load_all_replay io db disk entries name :
  NoDup (Engine.list_collections entries) ->
  name ∈ Engine.list_collections entries ->
  name <> "_auth" -> name <> "_schemas" -> name <> "_indexes" ->
  (forall db' disk',
      load_all io db disk entries = Returns (db', disk') ->
      exists arr,
        memory_store_ db' !! name = Some (Some arr)
        /\ child arr
           ≡ₚ (map_to_list
                 (replay (Engine.load_log (storage_ db) disk name))).*2)
  /\ ("_auth" ∉ Engine.list_collections entries ->
      "_indexes" ∉ Engine.list_collections entries ->
      exists db' disk', load_all io db disk entries = Returns (db', disk')).
Proof.
  unfold load_all. generalize (Engine.list_collections entries) as names.
  intros names Hnodup Hin Hauth Hschemas Hindexes. split.
  - revert db disk Hnodup Hin.
    induction names as [|n names IH]; intros db disk Hnodup Hin db' disk' Hload;
      [by apply elem_of_nil in Hin|].
    apply NoDup_cons in Hnodup as [Hfresh Hnodup].
    cbn [foldM] in Hload.
    destruct (load_collection io (db, disk) n) as [[db1 disk1]|] eqn:Hone;
      cbn in Hload; [|discriminate].
    destruct (decide (name = n)) as [<-|Hne].
    + destruct (load_collection_array io db disk name Hauth Hschemas Hindexes)
        as (db2 & disk2 & Hone' & Hmem).
      rewrite Hone in Hone'. inversion Hone'; subst db2 disk2.
      destruct (load_collections_other _ _ _ _ _ _ _ Hload Hfresh)
        as (_ & Hkeep & _).
      eexists. split; [rewrite Hkeep; exact Hmem|].
      by rewrite child_fold_append_child.
    + apply elem_of_cons in Hin as [?|Hin]; [done|].
      destruct (load_collection_other _ _ _ _ _ _ _ Hone Hne)
        as (Hst1 & _ & Hdisk1).
      destruct (IH db1 disk1 Hnodup Hin db' disk' Hload) as (arr & Hmem & Hperm).
      exists arr. split; [exact Hmem|].
      rewrite Hst1, (EngineFacts.load_log_same_file _ _ _ _ Hdisk1) in Hperm.
      exact Hperm.
  - clear Hnodup Hin. revert db disk.
    induction names as [|n names IH]; intros db disk Hnoauth Hnoindexes.
    + eexists _, _. reflexivity.
    + apply not_elem_of_cons in Hnoauth as [Hn1 Hnoauth].
      apply not_elem_of_cons in Hnoindexes as [Hn2 Hnoindexes].
      cbn [foldM].
      assert (Hone : exists db1 disk1,
                 load_collection io (db, disk) n = Returns (db1, disk1)).
      { destruct (decide (n = "_schemas")) as [->|Hn3].
        - unfold load_collection.
          rewrite bool_decide_eq_false_2 by discriminate.
          destruct (fold_left _ _ _) as [schemas temp_map].
          rewrite bool_decide_eq_true_2 by reflexivity.
          eexists _, _. reflexivity.
        - destruct (load_collection_array io db disk n)
            as (db1 & disk1 & Hret & _); [congruence..|]. eauto. }
      destruct Hone as (db1 & disk1 & ->). cbn [mbind outcome_bind].
      apply IH; assumption.
Qed.

Lemma create_user_other db disk key role uuid now io other :
  other <> "_auth" ->
  memory_store_ (create_user db disk key role uuid now io).1.2 !! other
  = memory_store_ db !! other.
Proof.
  intros Hother. unfold create_user.
  destruct (Engine.append _ _ _ _ _) as [ok disk'].
  destruct (get_collection _ _) as [arr db1] eqn:Hgc. cbn.
  rewrite lookup_insert_ne by done.
  unfold get_collection in Hgc.
  destruct (memory_store_ _ !! "_auth"); inversion Hgc; [done|].
  cbn. by rewrite lookup_insert_ne.
Qed.

(** X5.  When the constructor completes, every collection of the directory that
    is not reserved holds in memory exactly the documents its log replays
    to; and the constructor does complete when the directory has neither an
    [_auth] nor an [_indexes] log, the two whose frames can hold a member
    that is not a string where the code takes its text. *)
Theorem open_replay data_dir disk entries io root_uuid now root_io name :
  NoDup (Engine.list_collections entries) ->
  name ∈ Engine.list_collections entries ->
  name <> "_auth" -> name <> "_schemas" -> name <> "_indexes" ->
  (forall db' disk',
      Db.open data_dir disk entries io root_uuid now root_io
      = Returns (db', disk') ->
      exists arr,
        memory_store_ db' !! name = Some (Some arr)
        /\ child arr
           ≡ₚ (map_to_list (replay (Engine.load_log data_dir disk name))).*2)
  /\ ("_auth" ∉ Engine.list_collections entries ->
      "_indexes" ∉ Engine.list_collections entries ->
      exists db' disk',
        Db.open data_dir disk entries io root_uuid now root_io
        = Returns (db', disk')).
Proof.
  intros Hnodup Hin Hauth Hschemas Hindexes.
  destruct (load_all_replay io (empty_db data_dir) disk entries name
              Hnodup Hin Hauth Hschemas Hindexes) as [Hdocs Hreturns].
  unfold Db.open. split.
  - intros db' disk' Hopen.
    destruct (load_all _ _ _ _) as [[db1 disk1]|]; [|discriminate].
    cbn [mbind outcome_bind] in Hopen.
    destruct (Hdocs db1 disk1 eq_refl) as (arr & Hmem & Hperm).
    exists arr. split; [|exact Hperm].
    case_bool_decide.
    + pose proof (create_user_other db1 disk1 "root" "admin" root_uuid now
                    root_io name Hauth) as Hkeep.
      destruct (create_user _ _ _ _ _ _ _) as [[ok db2] disk2].
      inversion Hopen; subst. cbn in Hkeep. congruence.
    + inversion Hopen; subst. exact Hmem.
  - intros Hnoauth Hnoindexes.
    destruct (Hreturns Hnoauth Hnoindexes) as (db1 & disk1 & ->).
    cbn [mbind outcome_bind]. case_bool_decide.
    + destruct (create_user _ _ _ _ _ _ _) as [[ok db2] disk2].
      eexists _, _. reflexivity.
    + eexists _, _. reflexivity.
Qed.

(** *** Critical sections *)

(** A thread that goes through the two critical sections of [upsert] with
    no other thread in between does what [Db::upsert] does. *)
Lemma run_upsert_alone db disk coll query data fresh_id append_io compact_io
    carried :
  Locking.run [0; 0]%nat
    [(Locking.upsert_sections coll query data fresh_id append_io compact_io,
      carried)]
    (db, disk)
  = '(ok, db', disk') ←
      upsert db disk coll query data fresh_id append_io compact_io;
    Returns ([([], Locking.of_bool ok)], (db', disk')).
Proof.
  unfold upsert. simpl Locking.run.
  destruct (count db coll (Some query)) as [existing|];
    cbn [mbind outcome_bind]; [|reflexivity].
  simpl.
  destruct (upsert_mutation _ _ _ _ _ _ _ _ _) as [[[ok db'] disk']|];
    reflexivity.
Qed.

End with_external.
End DbFacts.

(** ** Schemas and deletion *)

Module MutationFacts.
Import cjson Db.

Section with_external.
Context `{External}.

Lemma bind_returns {A B} (m : outcome A) (k : A -> outcome B) b :
  m ≫= k = Returns b -> exists a, m = Returns a /\ k a = Returns b.
Proof. destruct m as [a|]; [|done]. intros Hk. by exists a. Qed.

(** *** Appending to a log that holds whole frames *)

Lemma load_log_frames base disk collection payloads :
  Engine.log_bytes base disk collection = Engine.frames payloads ->
  Engine.load_log base disk collection = map Engine.stored payloads.
Proof.
  intros Hbytes. rewrite EngineFacts.load_log_bytes, Hbytes.
  rewrite <- (app_nil_r (Engine.frames payloads)).
  by rewrite EngineFacts.read_frames_frames;
    [|apply EngineFacts.incomplete_frame_nil|].
Qed.

Lemma frames_app a b :
  Engine.frames (a ++ b) = Engine.frames a ++ Engine.frames b.
Proof. unfold Engine.frames. by rewrite map_app, concat_app. Qed.

Lemma load_log_append base disk collection payloads raw :
  Engine.log_bytes base disk collection = Engine.frames payloads ->
  Engine.load_log base
    (Engine.append base disk collection raw Engine.WriteOk).2 collection
  = map Engine.stored payloads ++ [Engine.stored raw].
Proof.
  intros Hbytes.
  rewrite (load_log_frames _ _ _ (payloads ++ [raw])).
  - by rewrite map_app.
  - rewrite EngineFacts.log_bytes_append, Hbytes, frames_app.
    unfold Engine.frames at 3. cbn [map concat]. by rewrite app_nil_r.
Qed.

Lemma log_bytes_absent base disk collection :
  disk !! Engine.get_path base collection = None ->
  Engine.log_bytes base disk collection = Engine.frames [].
Proof. intros Hnone. unfold Engine.log_bytes. by rewrite Hnone. Qed.

(** *** Schemas *)

(** X14.  [set_schema] puts the schema in force in memory whether or not
    it reached the disk: from then on [validate] of the collection is the
    verdict of the engine against this schema, an insert the engine rejects
    fails and changes nothing, and the other collections are validated as
    before.  The call reports what the stream of [Engine::append] says of
    itself before it is closed: false exactly when the file could not be
    opened or a write made the stream bad, and so true also when the write
    failed only at the close. *)
Theorem set_schema_in_force db disk coll schema io :
  exists ok db' disk',
    set_schema db disk coll schema io = (ok, db', disk')
    /\ (ok = false
        <-> io = Engine.OpenFailed
            \/ exists written, io = Engine.WriteFailed written)
    /\ (forall data,
          validate db' coll data
          = rust_validate (cJSON_PrintUnformatted data)
              (cJSON_PrintUnformatted schema))
    /\ (forall data fresh_id io',
          rust_validate (cJSON_PrintUnformatted data)
            (cJSON_PrintUnformatted schema) = false ->
          insert db' disk' coll data fresh_id io'
          = Returns (false, db', disk'))
    /\ (forall other data,
          other <> coll -> validate db' other data = validate db other data).
Proof.
  unfold set_schema.
  set (db' := set_schemas <[coll := cJSON_Duplicate schema]> db).
  exists (Engine.append (storage_ db') disk "_schemas"
            (cJSON_PrintUnformatted schema) io).1,
    db', (Engine.append (storage_ db') disk "_schemas"
            (cJSON_PrintUnformatted schema) io).2.
  assert (Hvalid : forall data,
    validate db' coll data
    = rust_validate (cJSON_PrintUnformatted data)
        (cJSON_PrintUnformatted schema)).
  { intros data. unfold validate. subst db'. cbn [schemas_ set_schemas].
    by rewrite lookup_insert_eq. }
  split; [by destruct (Engine.append _ _ _ _ _)|].
  split.
  { destruct io; cbn [Engine.append fst]; split.
    all: first [ intros Hbool; discriminate Hbool
               | intros [Hio | [written' Hio]]; discriminate Hio
               | intros _; reflexivity
               | intros _; left; reflexivity
               | intros _; right; eexists; reflexivity ]. }
  split; [done|split].
  - intros data fresh_id io' Hreject. unfold insert.
    by rewrite Hvalid, Hreject.
  - intros other data Hother. unfold validate. subst db'.
    cbn [schemas_ set_schemas]. by rewrite lookup_insert_ne.
Qed.

Lemma replay_schema_frame schemas temp_map log_entry item :
  cJSON_Parse (c_string log_entry) = Some item ->
  replay_frame "_schemas" (schemas, temp_map) log_entry
  = (match schema_name item with
     | Some c => <[c := item]> schemas
     | None => schemas
     end, temp_map).
Proof.
  intros Hparse. unfold replay_frame, schema_name. rewrite Hparse.
  rewrite bool_decide_eq_true_2 by done.
  destruct (cJSON_GetObjectItem (Some item) "collection") as [c_name|];
    [|done].
  cbn [mbind option_bind]. by destruct (valuestring c_name).
Qed.

(** X15.  The first schema ever set, once it is on disk, is registered by
    recovery under the value of its own [collection] member, and under no
    name at all when it has no such member with a string value: the name of
    the collection it was set for is not in the log.  In that case the
    collection is validated after a restart as it was without the
    schema. *)
Theorem set_schema_recovery db disk coll schema io0 db0 :
  disk !! Engine.get_path (storage_ db) "_schemas" = None ->
  Engine.fits_frame (cJSON_PrintUnformatted schema) ->
  cJSON_Parse (c_string (cJSON_PrintUnformatted schema)) = Some schema ->
  storage_ db0 = storage_ db ->
  let disk1 := (set_schema db disk coll schema Engine.WriteOk).2 in
  exists db',
    load_collection io0 (db0, disk1) "_schemas" = Returns (db', disk1)
    /\ schemas_ db'
       = match schema_name schema with
         | Some c => <[c := schema]> (schemas_ db0)
         | None => schemas_ db0
         end
    /\ memory_store_ db' = memory_store_ db0
    /\ (schema_name schema = None ->
        forall data, validate db' coll data = validate db0 coll data).
Proof.
  intros Hfresh Hfits Hparse Hdir. cbn zeta.
  unfold set_schema. cbn [Engine.append set_schemas storage_ snd].
  set (disk1 := <[_ := _]> disk).
  assert (Hlog : Engine.load_log (storage_ db0) disk1 "_schemas"
                 = [cJSON_PrintUnformatted schema]).
  { rewrite Hdir. subst disk1.
    change (<[_ := _]> disk)
      with (Engine.append (storage_ db) disk "_schemas"
              (cJSON_PrintUnformatted schema) Engine.WriteOk).2.
    rewrite (load_log_append _ _ _ []) by by apply log_bytes_absent.
    cbn [map app]. by rewrite EngineFacts.stored_fits. }
  unfold load_collection. rewrite Hlog.
  rewrite bool_decide_eq_false_2 by done. cbn [fold_left].
  rewrite (replay_schema_frame _ _ _ _ Hparse).
  rewrite bool_decide_eq_true_2 by done.
  eexists. split; [done|]. cbn [schemas_ set_schemas memory_store_].
  split; [done|]. split; [done|].
  intros Hnone data. unfold validate. cbn [schemas_ set_schemas].
  by rewrite Hnone.
Qed.

(** *** Deletion *)

Lemma erase_last_absent doc vec : doc ∉ vec -> erase_last doc vec = None.
Proof.
  induction vec as [|d vec IH]; intros Hnotin; cbn [erase_last]; [done|].
  apply not_elem_of_cons in Hnotin as [Hne Hnotin].
  rewrite IH by done. by rewrite bool_decide_eq_false_2.
Qed.

Lemma erase_last_once doc before after :
  doc ∉ after ->
  erase_last doc (before ++ doc :: after) = Some (before ++ after).
Proof.
  intros Hnotin.
  induction before as [|d before IH]; cbn [erase_last app].
  - rewrite erase_last_absent by done. by rewrite bool_decide_eq_true_2.
  - by rewrite IH.
Qed.

Lemma update_custom_index_remove_frame db coll doc :
  let db' := update_custom_index_remove db coll doc in
  storage_ db' = storage_ db /\ memory_store_ db' = memory_store_ db
  /\ id_indexes_ db' = id_indexes_ db /\ schemas_ db' = schemas_ db
  /\ indexed_fields_ db' = indexed_fields_ db
  /\ auth_cache_ db' = auth_cache_ db.
Proof.
  unfold update_custom_index_remove.
  destruct (indexed_fields_ db !! coll) as [fields|]; [|by cbn].
  apply (set_fold_ind_L
    (fun db' _ =>
       storage_ db' = storage_ db /\ memory_store_ db' = memory_store_ db
       /\ id_indexes_ db' = id_indexes_ db /\ schemas_ db' = schemas_ db
       /\ indexed_fields_ db' = indexed_fields_ db
       /\ auth_cache_ db' = auth_cache_ db)); [done|].
  intros field X db' _ IH.
  destruct (index_key _); [exact IH | exact IH].
Qed.

Lemma index_entry_set db coll field by_value f k :
  index_entry
    (set_custom_indexes
       <[coll := <[field := by_value]> (at_ (custom_indexes_ db) coll)]> db)
    coll f k
  = if bool_decide (f = field) then default [] (by_value !! k)
    else index_entry db coll f k.
Proof.
  unfold index_entry, at_. cbn [custom_indexes_ set_custom_indexes].
  rewrite lookup_insert_eq. cbn [default from_option id].
  destruct (decide (f = field)) as [->|Hf].
  - rewrite lookup_insert_eq, bool_decide_eq_true_2 by done. done.
  - rewrite lookup_insert_ne, bool_decide_eq_false_2 by done. done.
Qed.

Lemma index_entry_erase db coll field key doc f k :
  let by_value := at_ (at_ (custom_indexes_ db) coll) field in
  let vec := default [] (by_value !! key) in
  index_entry
    (set_custom_indexes
       <[coll :=
           <[field :=
               match erase_last doc vec with
               | Some [] => delete key by_value
               | Some vec' => <[key := vec']> by_value
               | None => <[key := vec]> by_value
               end]> (at_ (custom_indexes_ db) coll)]> db)
    coll f k
  = if bool_decide (f = field /\ k = key)
    then without doc (index_entry db coll f k)
    else index_entry db coll f k.
Proof.
  cbn zeta. rewrite index_entry_set.
  destruct (decide (f = field)) as [->|Hf].
  2: { rewrite !bool_decide_eq_false_2; [done| |done]. by intros [? _]. }
  rewrite bool_decide_eq_true_2 by done.
  destruct (decide (k = key)) as [->|Hk].
  - rewrite bool_decide_eq_true_2 by done. unfold without, index_entry.
    destruct (erase_last doc _) as [[|d vec']|];
      by rewrite ?lookup_delete_eq, ?lookup_insert_eq.
  - rewrite bool_decide_eq_false_2 by (by intros [_ ?]).
    unfold index_entry.
    destruct (erase_last doc _) as [[|d vec']|];
      by rewrite ?lookup_delete_ne, ?lookup_insert_ne.
Qed.

Lemma update_custom_index_remove_entries db coll doc f k :
  index_entry (update_custom_index_remove db coll doc) coll f k
  = if bool_decide (f ∈ at_ (indexed_fields_ db) coll
                    /\ index_key (cJSON_GetObjectItem (Some doc) f) = Some k)
    then without doc (index_entry db coll f k)
    else index_entry db coll f k.
Proof.
  unfold update_custom_index_remove.
  change (at_ (indexed_fields_ db) coll)
    with (default ∅ (indexed_fields_ db !! coll)).
  destruct (indexed_fields_ db !! coll) as [fields|];
    cbn [default from_option id].
  2: { rewrite bool_decide_eq_false_2; [done|].
       intros [Hin _]. by apply not_elem_of_empty in Hin. }
  set (files := fun (X : gset string) f k =>
         f ∈ X /\ index_key (cJSON_GetObjectItem (Some doc) f) = Some k).
  match goal with
  | |- context [set_fold ?g db fields] => set (step := g)
  end.
  enough (Hall : forall f k,
            (files fields f k ->
             index_entry (set_fold step db fields) coll f k
             = without doc (index_entry db coll f k))
            /\ (~ files fields f k ->
                index_entry (set_fold step db fields) coll f k
                = index_entry db coll f k)).
  { destruct (Hall f k) as [Hyes Hno]. case_bool_decide; auto. }
  clear f k.
  apply (set_fold_ind_L
    (fun db' X => forall f k,
       (files X f k ->
        index_entry db' coll f k = without doc (index_entry db coll f k))
       /\ (~ files X f k ->
           index_entry db' coll f k = index_entry db coll f k))).
  - intros f k. split; [|done].
    intros [Hin _]. by apply not_elem_of_empty in Hin.
  - intros x X db' Hx IH f k.
    assert (Hfiles : files ({[x]} ∪ X) f k
                     <-> (f = x /\ index_key
                                    (cJSON_GetObjectItem (Some doc) x)
                                  = Some k)
                         \/ files X f k).
    { unfold files. rewrite elem_of_union, elem_of_singleton.
      split.
      - intros [[->|Hin] Hk]; [left | right]; done.
      - intros [[-> Hk] | [Hin Hk]]; split; auto. }
    rewrite Hfiles. subst step. cbn beta.
    destruct (index_key (cJSON_GetObjectItem (Some doc) x)) as [kx|] eqn:Ekx.
    + rewrite (index_entry_erase db' coll x kx doc f k).
      destruct (decide (f = x /\ k = kx)) as [[-> ->]|Hne].
      * rewrite bool_decide_eq_true_2 by done.
        destruct (IH x kx) as [_ Hsame].
        split; [|intros Hno; exfalso; apply Hno; left; done].
        intros _. f_equal. apply Hsame. intros [Hin _]. done.
      * rewrite (bool_decide_eq_false_2 _ Hne).
        destruct (IH f k) as [Hyes Hno]. split.
        -- intros [[-> Hk] | Hf]; [|auto].
           exfalso. apply Hne. split; congruence.
        -- intros Hnot. apply Hno. intros Hf. apply Hnot. right. done.
    + destruct (IH f k) as [Hyes Hno]. split.
      * intros [[_ Hk] | Hf]; [done | auto].
      * intros Hnot. apply Hno. intros Hf. apply Hnot. right. done.
Qed.

Lemma without_once doc before after :
  doc ∉ after -> without doc (before ++ doc :: after) = before ++ after.
Proof. intros Hnotin. unfold without. by rewrite erase_last_once. Qed.

Lemma without_absent doc vec : doc ∉ vec -> without doc vec = vec.
Proof. intros Hnotin. unfold without. by rewrite erase_last_absent. Qed.

Lemma filter_other_absent (doc : cJSON) (vec : list cJSON) :
  doc ∉ vec -> filter (fun d => d <> doc) vec = vec.
Proof.
  induction vec as [|d vec IH]; intros Hnotin; [done|].
  apply not_elem_of_cons in Hnotin as [Hne Hnotin].
  rewrite filter_cons_True by done. by rewrite IH.
Qed.

Lemma filter_other_once (doc : cJSON) (before after : list cJSON) :
  doc ∉ before -> doc ∉ after ->
  filter (fun d => d <> doc) (before ++ doc :: after) = before ++ after.
Proof.
  intros Hbefore Hafter. rewrite filter_app, filter_cons_False by (by intros ?).
  by rewrite !filter_other_absent.
Qed.

(** A property of every entry of the secondary indexes of a collection
    follows from the property for the entries the maps hold and for the
    empty entry. *)
Lemma index_entry_forall (P : string -> string -> list cJSON -> Prop) db coll :
  (forall f k, P f k []) ->
  map_Forall
    (fun f by_value => map_Forall (fun k vec => P f k vec) by_value)
    (at_ (custom_indexes_ db) coll) ->
  forall f k, P f k (index_entry db coll f k).
Proof.
  intros Hnil Hall f k. unfold index_entry.
  unfold at_ at 1.
  destruct (at_ (custom_indexes_ db) coll !! f) as [by_value|] eqn:Hf;
    cbn [default from_option id].
  - destruct (by_value !! k) as [vec|] eqn:Hk; cbn [default from_option id].
    + exact (Hall f by_value Hf k vec Hk).
    + apply Hnil.
  - rewrite lookup_empty. apply Hnil.
Qed.

Lemma remove_document_indexed io coll db disk uuid target_doc array :
  at_ (id_indexes_ db) coll !! uuid = Some target_doc ->
  memory_store_ db !! coll = Some array ->
  remove_document io coll (db, disk) uuid
  = (set_memory_store
       <[coll := cJSON_DetachItemViaPointer array target_doc]>
       (set_id_indexes
          <[coll := delete uuid (at_ (id_indexes_ db) coll)]>
          (update_custom_index_remove db coll target_doc)),
     (Engine.append (storage_ db) disk coll
        (cJSON_PrintUnformatted (tombstone uuid)) (io uuid)).2).
Proof.
  intros Hid Hcoll. unfold remove_document. rewrite Hid.
  destruct (Engine.append _ _ _ _ _) as [ok disk'].
  destruct (update_custom_index_remove_frame db coll target_doc)
    as (_ & Hmem & Hids & _).
  cbn zeta in Hmem, Hids. unfold memory_store_subscript.
  cbn [memory_store_ set_id_indexes]. rewrite Hmem, Hcoll, Hids. done.
Qed.

(** What [remove] returns for a query that is the single member [_id]
    with a string value the primary index has a document under. *)
Lemma remove_single db disk coll query id_node target_id doc array io :
  memory_store_ db !! coll = Some array ->
  child query = [id_node] ->
  string_ id_node = Some "_id" ->
  type id_node = cJSON_String ->
  valuestring id_node = Some target_id ->
  at_ (id_indexes_ db) coll !! target_id = Some doc ->
  remove db disk coll query io
  = Returns
      (true,
       set_memory_store
         <[coll := cJSON_DetachItemViaPointer array doc]>
         (set_id_indexes
            <[coll := delete target_id (at_ (id_indexes_ db) coll)]>
            (update_custom_index_remove db coll doc)),
       (Engine.append (storage_ db) disk coll
          (cJSON_PrintUnformatted (tombstone target_id))
          (io target_id)).2).
Proof.
  intros Hcoll Hchild Hname Htype Hvalue Hid.
  assert (Hquery : cJSON_GetObjectItem (Some query) "_id" = Some id_node).
  { unfold cJSON_GetObjectItem. cbn [children]. rewrite Hchild.
    cbn [List.find]. by rewrite Hname. }
  unfold remove. rewrite Hcoll, Hquery.
  unfold cJSON_GetArraySize at 1. cbn [children]. rewrite Hchild.
  cbn [length Nat.eqb andb cJSON_IsString has_type]. rewrite Htype.
  rewrite bool_decide_eq_true_2 by done.
  cbn [mbind option_bind]. rewrite Hvalue.
  rewrite bool_decide_eq_true_2 by (by rewrite Hid).
  cbn [mbind outcome_bind].
  rewrite bool_decide_eq_false_2 by done. cbn [mbind outcome_bind].
  rewrite bool_decide_eq_false_2 by done. cbn [fold_left].
  by rewrite (remove_document_indexed _ _ _ _ _ _ _ Hid Hcoll).
Qed.

(** A check of [filed_once] that runs over the entries the maps hold. *)
Lemma filed_once_check db coll doc :
  map_Forall
    (fun f by_value =>
       map_Forall
         (fun k vec =>
            NoDup vec
            /\ (doc ∈ vec ->
                f ∈ at_ (indexed_fields_ db) coll
                /\ index_key (cJSON_GetObjectItem (Some doc) f) = Some k))
         by_value)
    (at_ (custom_indexes_ db) coll) ->
  filed_once db coll doc.
Proof.
  intros Hall f k.
  apply (index_entry_forall
           (fun f k vec =>
              (forall before after,
                  vec = before ++ doc :: after ->
                  (doc ∉ before) /\ (doc ∉ after))
              /\ (doc ∈ vec ->
                  f ∈ at_ (indexed_fields_ db) coll
                  /\ index_key (cJSON_GetObjectItem (Some doc) f) = Some k))).
  - intros f' k'. split.
    + intros [|? ?] after Heq; discriminate Heq.
    + intros Hin. by apply elem_of_nil in Hin.
  - intros f' by_value Hf k' vec Hk.
    destruct (Hall f' by_value Hf k' vec Hk) as [Hnodup Hwhere].
    split; [|exact Hwhere].
    intros before after ->.
    apply NoDup_app in Hnodup as (_ & Hdisjoint & Hnodup).
    apply NoDup_cons in Hnodup as [Hafter _].
    split; [|exact Hafter].
    intros Hin. apply (Hdisjoint doc Hin). left.
Qed.

(** X16.  Deletion by identifier.  For a query that is the single member
    [_id] with a string value under which the primary index holds a
    document, the document being once in the array of the collection and
    filed as [update_custom_index] files a document once (at most once in
    an entry, and only under registered fields at the key of its value
    there): [remove] returns true, whatever becomes of the append; the
    tombstone of the identifier is what it appends to the log of the
    collection; the identifier leaves the primary index and no other
    does; the document leaves the array, the other documents keeping
    their order; it is in no entry of the secondary indexes afterwards, and
    every entry keeps its other documents in their order; the other
    collections, the schemas, the registered fields and the credentials
    stay as they were.  The predicate engine is not consulted. *)
Theorem remove_by_id db disk coll query id_node target_id doc arr io
    before after :
  memory_store_ db !! coll = Some (Some arr) ->
  child query = [id_node] ->
  string_ id_node = Some "_id" ->
  type id_node = cJSON_String ->
  valuestring id_node = Some target_id ->
  at_ (id_indexes_ db) coll !! target_id = Some doc ->
  child arr = before ++ doc :: after ->
  doc ∉ before ->
  doc ∉ after ->
  filed_once db coll doc ->
  exists db',
    remove db disk coll query io
    = Returns
        (true, db',
         (Engine.append (storage_ db) disk coll
            (cJSON_PrintUnformatted (tombstone target_id))
            (io target_id)).2)
    /\ at_ (id_indexes_ db') coll = delete target_id (at_ (id_indexes_ db) coll)
    /\ documents db' coll = before ++ after
    /\ (forall f k,
          index_entry db' coll f k
          = filter (fun d => d <> doc) (index_entry db coll f k))
    /\ (forall other,
          other <> coll ->
          memory_store_ db' !! other = memory_store_ db !! other
          /\ id_indexes_ db' !! other = id_indexes_ db !! other)
    /\ schemas_ db' = schemas_ db
    /\ indexed_fields_ db' = indexed_fields_ db
    /\ auth_cache_ db' = auth_cache_ db.
Proof.
  intros Hcoll Hchild Hname Htype Hvalue Hid Harr Hbefore Hafter Hfiled.
  rewrite (remove_single _ _ _ _ _ _ _ _ _ Hcoll Hchild Hname Htype Hvalue
             Hid).
  destruct (update_custom_index_remove_frame db coll doc)
    as (Hst & Hmem & Hids & Hsch & Hfields & Hauth).
  cbn zeta in Hst, Hmem, Hids, Hsch, Hfields, Hauth.
  eexists. split; [done|].
  cbn [id_indexes_ memory_store_ schemas_ indexed_fields_ auth_cache_
       set_memory_store set_id_indexes].
  split; [|split; [|split; [|split]]].
  - unfold at_ at 1. by rewrite lookup_insert_eq.
  - unfold documents.
    cbn [memory_store_ set_memory_store]. rewrite lookup_insert_eq.
    cbn [default from_option id cJSON_DetachItemViaPointer children child].
    rewrite Harr. by apply without_once.
  - intros f k.
    change (index_entry (update_custom_index_remove db coll doc) coll f k
            = filter (fun d => d <> doc) (index_entry db coll f k)).
    rewrite update_custom_index_remove_entries.
    destruct (Hfiled f k) as [Honce Hwhere].
    destruct (decide (doc ∈ index_entry db coll f k)) as [Hin | Hout].
    + rewrite bool_decide_eq_true_2 by (by apply Hwhere).
      apply list_elem_of_split in Hin as (l1 & l2 & Hsplit).
      destruct (Honce l1 l2 Hsplit) as [H1 H2].
      rewrite Hsplit, filter_other_once by done. by apply without_once.
    + rewrite filter_other_absent by done.
      case_bool_decide; [by apply without_absent | done].
  - intros other Hother. rewrite !lookup_insert_ne by done.
    by rewrite Hmem, Hids.
  - done.
Qed.

(** X17.  A [remove] that reports false has changed nothing, in memory or
    on disk; this is what it reports for a collection that does not
    exist. *)
Theorem remove_false db disk coll query io :
  (memory_store_ db !! coll = None ->
   remove db disk coll query io = Returns (false, db, disk))
  /\ (forall db' disk',
        remove db disk coll query io = Returns (false, db', disk') ->
        db' = db /\ disk' = disk).
Proof.
  unfold remove. split; [by intros ->|].
  intros db' disk' Hremove.
  destruct (memory_store_ db !! coll) as [array|]; [|by inversion Hremove].
  apply bind_returns in Hremove as (ids & _ & Hremove).
  apply bind_returns in Hremove as (ids' & _ & Hremove).
  case_bool_decide; [by inversion Hremove|].
  by destruct (fold_left _ _ _).
Qed.

(** X18.  A deletion by identifier that reached the disk survives a
    restart: when the log of the collection held whole frames, the append
    succeeded and the tombstone reads back as one, the replay of the log
    after the call is the replay of the log before it without the
    identifier. *)
Theorem remove_durable db disk coll query id_node target_id doc array io
    payloads :
  memory_store_ db !! coll = Some array ->
  child query = [id_node] ->
  string_ id_node = Some "_id" ->
  type id_node = cJSON_String ->
  valuestring id_node = Some target_id ->
  at_ (id_indexes_ db) coll !! target_id = Some doc ->
  io target_id = Engine.WriteOk ->
  Engine.log_bytes (storage_ db) disk coll = Engine.frames payloads ->
  Engine.fits_frame (cJSON_PrintUnformatted (tombstone target_id)) ->
  meaning (cJSON_PrintUnformatted (tombstone target_id))
  = Tombstone target_id ->
  exists db' disk',
    remove db disk coll query io = Returns (true, db', disk')
    /\ replay (Engine.load_log (storage_ db) disk' coll)
       = delete target_id (replay (Engine.load_log (storage_ db) disk coll)).
Proof.
  intros Hcoll Hchild Hname Htype Hvalue Hid Hio Hbytes Hfits Hmeaning.
  rewrite (remove_single _ _ _ _ _ _ _ _ _ Hcoll Hchild Hname Htype Hvalue
             Hid).
  eexists _, _. split; [done|]. rewrite Hio.
  rewrite (load_log_append _ _ _ _ _ Hbytes), (load_log_frames _ _ _ _ Hbytes).
  rewrite EngineFacts.stored_fits by done.
  unfold replay. by rewrite fold_left_app; cbn [fold_left]; rewrite Hmeaning.
Qed.

End with_external.
End MutationFacts.

(** ** The indexes *)

Module IndexFacts.
Import cjson Db.

Section with_external.
Context `{External}.

Lemma index_document_ids collection db item x :
  at_ (id_indexes_ (index_document collection db item)) collection !! x
  = if bool_decide (document_id item = Some x) then Some item
    else at_ (id_indexes_ db) collection !! x.
Proof.
  unfold index_document, document_id. cbn zeta.
  match goal with
  | |- context [update_custom_index ?d _ _] =>
      destruct (DbFacts.update_custom_index_frame d collection item)
        as (_ & _ & -> & _)
  end.
  destruct (cJSON_GetObjectItem (Some item) "_id") as [n|]; [|done].
  cbn [mbind option_bind].
  destruct (valuestring n) as [v|];
    [|by destruct (cJSON_IsString (Some n))].
  destruct (cJSON_IsString (Some n)); [|done].
  unfold at_ at 1. cbn [id_indexes_ set_id_indexes].
  rewrite lookup_insert_eq. cbn [default from_option id].
  destruct (decide (v = x)) as [->|Hne].
  - by rewrite lookup_insert_eq, bool_decide_eq_true_2.
  - rewrite lookup_insert_ne by done.
    rewrite bool_decide_eq_false_2 by congruence. done.
Qed.

(** The primary index after [rebuild_index]. *)
Lemma rebuild_index_lookup db collection array x :
  at_ (id_indexes_ (rebuild_index db collection array)) collection !! x
  = last (filter (fun doc => document_id doc = Some x) (children array)).
Proof.
  unfold rebuild_index.
  set (db0 := set_custom_indexes _ (set_id_indexes _ db)).
  assert (Hempty : at_ (id_indexes_ db0) collection !! x = None).
  { unfold at_. subst db0. cbn. by rewrite lookup_insert_eq. }
  revert Hempty. generalize db0. clear db0.
  induction (children array) as [|item items IH] using rev_ind;
    intros db0 Hempty; [done|].
  rewrite fold_left_app. cbn [fold_left].
  rewrite index_document_ids, filter_app, filter_cons, filter_nil.
  case_bool_decide as Hid.
  - rewrite decide_True by done. by rewrite last_snoc.
  - rewrite decide_False by done. rewrite app_nil_r. by apply IH.
Qed.

(** X23.  [rebuild_index] makes the primary index of the collection
    exact: an identifier leads to the last document of the array whose
    [_id] is a string with that value, and to nothing when the array has no
    such document; the identifiers of other collections stay as they
    were. *)
Theorem rebuild_index_ids db collection array :
  (forall x,
      at_ (id_indexes_ (rebuild_index db collection array)) collection !! x
      = last (filter (fun doc => document_id doc = Some x) (children array)))
  /\ forall other,
       other <> collection ->
       id_indexes_ (rebuild_index db collection array) !! other
       = id_indexes_ db !! other.
Proof.
  split; [apply rebuild_index_lookup|].
  intros other Hother. unfold rebuild_index.
  set (db0 := set_custom_indexes _ (set_id_indexes _ db)).
  assert (Hstart : id_indexes_ db0 !! other = id_indexes_ db !! other).
  { subst db0. cbn. by rewrite lookup_insert_ne. }
  revert Hstart. generalize db0. clear db0.
  induction (children array) as [|item items IH] using rev_ind;
    intros db0 Hstart; [done|].
  rewrite fold_left_app. cbn [fold_left]. unfold index_document.
  match goal with
  | |- context [update_custom_index ?d _ _] =>
      destruct (DbFacts.update_custom_index_frame d collection item)
        as (_ & _ & -> & _)
  end.
  specialize (IH db0 Hstart).
  destruct (cJSON_GetObjectItem (Some item) "_id") as [n|]; [|done].
  destruct (valuestring n); [|done].
  destruct (cJSON_IsString (Some n)); [|done].
  cbn [id_indexes_ set_id_indexes]. by rewrite lookup_insert_ne.
Qed.

Lemma backfill_entries coll f k : forall items db,
  index_entry
    (fold_left (fun db item => update_custom_index db coll item) items db)
    coll f k
  = index_entry db coll f k
    ++ (if bool_decide (f ∈ at_ (indexed_fields_ db) coll)
        then filter
               (fun doc =>
                  index_key (cJSON_GetObjectItem (Some doc) f) = Some k)
               items
        else []).
Proof.
  induction items as [|item items IH]; intros db; cbn [fold_left].
  - rewrite filter_nil. destruct (bool_decide _); by rewrite app_nil_r.
  - destruct (DbFacts.update_custom_index_frame db coll item)
      as (_ & _ & _ & _ & Hfields & _). cbn zeta in Hfields.
    rewrite IH, Hfields, DbFacts.update_custom_index_entries, filter_cons.
    destruct (decide (f ∈ at_ (indexed_fields_ db) coll)) as [Hin|Hout].
    + rewrite (bool_decide_eq_true_2 _ Hin).
      destruct (decide (index_key (cJSON_GetObjectItem (Some item) f)
                        = Some k)) as [Hk|Hk].
      * rewrite bool_decide_eq_true_2 by done. by rewrite <- app_assoc.
      * rewrite bool_decide_eq_false_2 by (intros [_ ?]; done). done.
    + rewrite (bool_decide_eq_false_2 _ Hout).
      rewrite bool_decide_eq_false_2 by (intros [? _]; done). done.
Qed.

Lemma backfill_frame coll : forall items db,
  let db' :=
    fold_left (fun db item => update_custom_index db coll item) items db in
  storage_ db' = storage_ db /\ memory_store_ db' = memory_store_ db
  /\ id_indexes_ db' = id_indexes_ db /\ schemas_ db' = schemas_ db
  /\ indexed_fields_ db' = indexed_fields_ db
  /\ auth_cache_ db' = auth_cache_ db.
Proof.
  induction items as [|item items IH]; intros db; cbn [fold_left]; [done|].
  destruct (DbFacts.update_custom_index_frame db coll item)
    as (E1 & E2 & E3 & E4 & E5 & E6).
  destruct (IH (update_custom_index db coll item))
    as (F1 & F2 & F3 & F4 & F5 & F6).
  cbn zeta in *. repeat split; congruence.
Qed.

(** X24.  Declaring an index on a field that is not registered yet: the
    field joins the registered fields of the collection, and the backfill
    puts every document of the collection at the end of the entry of each
    registered field it has a key for, the fields registered before
    included (whose entries held these documents already).  The call
    reports true exactly when the snapshot of the declarations replaced the
    log of [_indexes]; memory is updated either way. *)
Theorem create_index_backfill db disk coll field io :
  field ∉ at_ (indexed_fields_ db) coll ->
  exists ok db' disk',
    create_index db disk coll field io = (ok, db', disk')
    /\ (ok = true <-> io = Engine.CompactOk)
    /\ at_ (indexed_fields_ db') coll
       = at_ (indexed_fields_ db) coll ∪ {[field]}
    /\ (forall other,
          other <> coll ->
          indexed_fields_ db' !! other = indexed_fields_ db !! other)
    /\ memory_store_ db' = memory_store_ db
    /\ id_indexes_ db' = id_indexes_ db
    /\ forall f k,
         index_entry db' coll f k
         = index_entry db coll f k
           ++ (if bool_decide (f ∈ at_ (indexed_fields_ db) coll ∪ {[field]})
               then filter
                      (fun doc =>
                         index_key (cJSON_GetObjectItem (Some doc) f)
                         = Some k)
                      (documents db coll)
               else []).
Proof.
  intros Hnew. unfold create_index.
  rewrite bool_decide_eq_false_2 by done.
  set (db1 := set_indexed_fields _ db).
  assert (Hfields1 : at_ (indexed_fields_ db1) coll
                     = at_ (indexed_fields_ db) coll ∪ {[field]}).
  { unfold at_ at 1. subst db1. cbn. by rewrite lookup_insert_eq. }
  set (db2 := match memory_store_ db1 !! coll with
              | Some array =>
                  fold_left (fun db item => update_custom_index db coll item)
                    (children array) db1
              | None => db1
              end).
  assert (Hdb2 : db2 = fold_left
                         (fun db item => update_custom_index db coll item)
                         (documents db coll) db1).
  { subst db2. unfold documents.
    change (memory_store_ db1) with (memory_store_ db).
    by destruct (memory_store_ db !! coll). }
  destruct (backfill_frame coll (documents db coll) db1)
    as (Hst & Hmem & Hids & _ & Hfields & _).
  cbn zeta in Hst, Hmem, Hids, Hfields. rewrite <- Hdb2 in *.
  destruct (Engine.compact _ _ _ _ _) as [ok disk'] eqn:Hcompact.
  exists ok, db2, disk'. split; [done|]. split.
  { unfold Engine.compact in Hcompact.
    destruct io; injection Hcompact as <- _; split; done. }
  rewrite Hfields, Hmem, Hids. split; [done|]. split.
  { intros other Hother. subst db1. cbn. by rewrite lookup_insert_ne. }
  split; [done|]. split; [done|].
  intros f k. rewrite Hdb2, backfill_entries, Hfields1. done.
Qed.

End with_external.
End IndexFacts.

(** ** Round trips *)

Module RoundTripFacts.
Import cjson Db.

Section with_external.
Context `{External}.

(** [find] for a query that is the single member [_id] with a string
    value, without sort and projection. *)
Lemma find_single_id db coll array id_node target_id query limit skip :
  memory_store_ db !! coll = Some array ->
  child query = [id_node] ->
  string_ id_node = Some "_id" ->
  type id_node = cJSON_String ->
  valuestring id_node = Some target_id ->
  find db coll (Some query) None None limit skip
  = Returns
      (Some (match at_ (id_indexes_ db) coll !! target_id with
             | Some doc => append_child cJSON_CreateArray doc
             | None => cJSON_CreateArray
             end)).
Proof.
  intros Hcoll Hchild Hname Htype Hvalue. unfold find. rewrite Hcoll.
  assert (Hid : cJSON_GetObjectItem (Some query) "_id" = Some id_node).
  { unfold cJSON_GetObjectItem. cbn [children]. rewrite Hchild.
    cbn [List.find]. by rewrite Hname. }
  rewrite Hid. cbn [is_null orb andb cJSON_IsString has_type].
  rewrite Htype, bool_decide_eq_true_2 by done.
  cbn [mbind option_bind]. rewrite Hvalue.
  by destruct (at_ (id_indexes_ db) coll !! target_id).
Qed.

(** What [insert] returns for a document that passes validation. *)
Lemma insert_valid db disk coll data fresh_id io uuid :
  validate db coll data = true ->
  inserted_id data fresh_id = Some uuid ->
  let new_item := inserted_document data fresh_id in
  let gc := get_collection db coll in
  let appended :=
    Engine.append (storage_ db) disk coll (cJSON_PrintUnformatted new_item)
      io in
  insert db disk coll data fresh_id io
  = Returns
      (appended.1,
       update_custom_index
         (set_id_indexes
            <[coll := <[uuid := new_item]> (at_ (id_indexes_ gc.2) coll)]>
            (set_memory_store
               <[coll := cJSON_AddItemToArray gc.1 new_item]> gc.2))
         coll new_item,
       appended.2).
Proof.
  intros Hvalid Hid. cbn zeta. unfold insert. rewrite Hvalid. cbn [negb].
  assert (Hst : storage_ (get_collection db coll).2 = storage_ db).
  { unfold get_collection. by destruct (memory_store_ db !! coll). }
  destruct (get_collection db coll) as [arr db1]. cbn [fst snd] in *.
  assert (Hpair :
    (if negb (cJSON_HasObjectItem (Some data) "_id")
     then Returns (fresh_id, cJSON_AddStringToObject data "_id" fresh_id)
     else uuid0 ← std_string
                    (cJSON_GetObjectItem (Some data) "_id" ≫= valuestring);
          Returns (uuid0, data))
    = Returns (uuid, inserted_document data fresh_id)).
  { unfold inserted_id, inserted_document in *.
    destruct (cJSON_HasObjectItem (Some data) "_id"); cbn [negb].
    - by rewrite Hid.
    - congruence. }
  rewrite Hpair. cbn [mbind outcome_bind]. unfold cJSON_Duplicate.
  match goal with
  | |- context [update_custom_index ?d _ _] =>
      destruct (DbFacts.update_custom_index_frame d coll
                  (inserted_document data fresh_id)) as (-> & _)
  end.
  cbn [storage_ set_id_indexes set_memory_store]. rewrite Hst.
  by destruct (Engine.append _ _ _ _ _).
Qed.

(** X25.  Insert, then look up.  Once [insert] has taken a document that
    passes validation, [find] with the query [{_id: <its identifier>}]
    returns the array of that one document, whether or not the frame
    reached the disk. *)
Theorem insert_then_find db disk coll data fresh_id io uuid query id_node
    limit skip :
  validate db coll data = true ->
  inserted_id data fresh_id = Some uuid ->
  child query = [id_node] ->
  string_ id_node = Some "_id" ->
  type id_node = cJSON_String ->
  valuestring id_node = Some uuid ->
  exists ok db' disk',
    insert db disk coll data fresh_id io = Returns (ok, db', disk')
    /\ find db' coll (Some query) None None limit skip
       = Returns
           (Some (append_child cJSON_CreateArray
                    (inserted_document data fresh_id))).
Proof.
  intros Hvalid Hid Hchild Hname Htype Hvalue.
  rewrite (insert_valid _ _ _ _ _ _ _ Hvalid Hid). cbn zeta.
  eexists _, _, _. split; [done|].
  match goal with
  | |- context [update_custom_index ?d _ _] =>
      destruct (DbFacts.update_custom_index_frame d coll
                  (inserted_document data fresh_id))
        as (_ & Hmem & Hids & _)
  end.
  cbn zeta in Hmem, Hids.
  match goal with
  | |- find ?d _ _ _ _ _ _ = _ =>
      assert (Hcoll : memory_store_ d !! coll
                      = Some (cJSON_AddItemToArray
                                (get_collection db coll).1
                                (inserted_document data fresh_id)))
        by (rewrite Hmem; cbn; apply lookup_insert_eq)
  end.
  rewrite (find_single_id _ _ _ _ _ _ _ _ Hcoll Hchild Hname Htype Hvalue).
  rewrite Hids. unfold at_ at 1. cbn [id_indexes_ set_id_indexes].
  rewrite lookup_insert_eq. cbn [default from_option id].
  by rewrite lookup_insert_eq.
Qed.

(** X26.  Remove, then look up.  Once [remove] has deleted the document
    filed under an identifier, [find] with the query [{_id: <that
    identifier>}] returns the empty array. *)
Theorem remove_then_find db disk coll query id_node target_id doc array io
    limit skip :
  memory_store_ db !! coll = Some array ->
  child query = [id_node] ->
  string_ id_node = Some "_id" ->
  type id_node = cJSON_String ->
  valuestring id_node = Some target_id ->
  at_ (id_indexes_ db) coll !! target_id = Some doc ->
  exists db' disk',
    remove db disk coll query io = Returns (true, db', disk')
    /\ find db' coll (Some query) None None limit skip
       = Returns (Some cJSON_CreateArray).
Proof.
  intros Hcoll Hchild Hname Htype Hvalue Hid.
  rewrite (MutationFacts.remove_single _ _ _ _ _ _ _ _ _ Hcoll Hchild Hname
             Htype Hvalue Hid).
  eexists _, _. split; [done|].
  match goal with
  | |- find ?d _ _ _ _ _ _ = _ =>
      assert (Hcoll' : memory_store_ d !! coll
                       = Some (cJSON_DetachItemViaPointer array doc))
        by (cbn; apply lookup_insert_eq)
  end.
  rewrite (find_single_id _ _ _ _ _ _ _ _ Hcoll' Hchild Hname Htype Hvalue).
  unfold at_ at 1. cbn [id_indexes_ set_id_indexes set_memory_store].
  rewrite lookup_insert_eq. cbn [default from_option id].
  by rewrite lookup_delete_eq.
Qed.

(** X27.  An insert that reached the disk survives a restart: when the
    log of the collection held whole frames, the append succeeded and the
    frame reads back as a version of the document, the replay of the log
    after the call is the replay of the log before it with the document
    put under its identifier. *)
Theorem insert_durable db disk coll data fresh_id uuid payloads item :
  validate db coll data = true ->
  inserted_id data fresh_id = Some uuid ->
  let raw := cJSON_PrintUnformatted (inserted_document data fresh_id) in
  Engine.log_bytes (storage_ db) disk coll = Engine.frames payloads ->
  Engine.fits_frame raw ->
  meaning raw = Version uuid item ->
  exists db' disk',
    insert db disk coll data fresh_id Engine.WriteOk
    = Returns (true, db', disk')
    /\ replay (Engine.load_log (storage_ db) disk' coll)
       = <[uuid := item]> (replay (Engine.load_log (storage_ db) disk coll)).
Proof.
  intros Hvalid Hid raw Hbytes Hfits Hmeaning.
  rewrite (insert_valid _ _ _ _ _ _ _ Hvalid Hid). cbn zeta.
  eexists _, _. split; [done|]. fold raw.
  rewrite (MutationFacts.load_log_append _ _ _ _ _ Hbytes),
    (MutationFacts.load_log_frames _ _ _ _ Hbytes).
  rewrite EngineFacts.stored_fits by done.
  unfold replay. by rewrite fold_left_app; cbn [fold_left]; rewrite Hmeaning.
Qed.

End with_external.
End RoundTripFacts.

(** ** Credentials across a restart *)

Module AuthFacts.
Import cjson Db.

Section with_external.
Context `{External}.

Lemma load_auth_entry_readable cache item :
  readable_user item ->
  load_auth_entry cache item
  = Returns (match credential item with
             | Some (key_hash, role) => <[key_hash := role]> cache
             | None => cache
             end).
Proof.
  unfold readable_user, load_auth_entry, credential.
  destruct (cJSON_GetObjectItem (Some item) "key_hash") as [k|];
    [|done].
  destruct (cJSON_GetObjectItem (Some item) "role") as [r|]; [|done].
  destruct (valuestring k), (valuestring r); intros [?|[?|[? ?]]]; done.
Qed.

Lemma foldM_load_auth_entry items : forall cache,
  Forall readable_user items ->
  exists cache',
    foldM load_auth_entry items cache = Returns cache'
    /\ forall key_hash role,
         (forall item role',
             item ∈ items -> credential item = Some (key_hash, role') ->
             role' = role) ->
         cache !! key_hash = Some role
         \/ (exists item,
               item ∈ items /\ credential item = Some (key_hash, role)) ->
         cache' !! key_hash = Some role.
Proof.
  induction items as [|item items IH]; intros cache Hreadable.
  { exists cache. split; [done|]. intros h role _ [?|(item & Hin & _)]; [done|].
    by apply elem_of_nil in Hin. }
  apply Forall_cons in Hreadable as [Hitem Hreadable]. cbn [foldM].
  rewrite (load_auth_entry_readable _ _ Hitem). cbn [mbind outcome_bind].
  set (cache1 := match credential item with
                 | Some (key_hash, role) => <[key_hash := role]> cache
                 | None => cache
                 end).
  destruct (IH cache1 Hreadable) as (cache' & -> & Hcache').
  exists cache'. split; [done|]. intros h role Hagree Hfrom.
  apply Hcache'.
  { intros item' role' Hin. apply Hagree. by right. }
  destruct Hfrom as [Hcache|(item' & Hin & Hcred)].
  - left. subst cache1. destruct (credential item) as [[h' role']|] eqn:E;
      [|done].
    destruct (decide (h' = h)) as [->|Hne].
    + rewrite lookup_insert_eq. f_equal. apply (Hagree item); [by left|done].
    + by rewrite lookup_insert_ne.
  - apply elem_of_cons in Hin as [->|Hin].
    + left. subst cache1. rewrite Hcred. apply lookup_insert_eq.
    + right. by exists item'.
Qed.

(** X28.  Recovery takes the credentials from the live documents of
    [_auth], whoever wrote them: when a live document stands for a
    credential, every live document can be read and those with the same key
    hash name the same role, then after the load every key with that hash
    authenticates with that role. *)
Theorem auth_recovery io db disk id doc key_hash role :
  let live := replay (Engine.load_log (storage_ db) disk "_auth") in
  live !! id = Some doc ->
  credential doc = Some (key_hash, role) ->
  (forall id' doc', live !! id' = Some doc' -> readable_user doc') ->
  (forall id' doc' role',
      live !! id' = Some doc' -> credential doc' = Some (key_hash, role') ->
      role' = role) ->
  exists db' disk',
    load_collection io (db, disk) "_auth" = Returns (db', disk')
    /\ forall key,
         key <> "" -> hash_key key = key_hash -> authenticate db' key = role.
Proof.
  intros live Hdoc Hcred Hreadable Hagree. unfold load_collection.
  rewrite bool_decide_eq_false_2 by done.
  rewrite DbFacts.fold_replay_frame by done. fold (replay
    (Engine.load_log (storage_ db) disk "_auth")). fold live.
  rewrite bool_decide_eq_false_2 by done.
  rewrite DbFacts.fold_add_item. cbn [child cJSON_CreateArray app].
  set (arr := cJSON_node _ _ _ _ _).
  set (db0 := set_memory_store _ _).
  destruct (DbFacts.rebuild_index_frame db0 "_auth" (Some arr))
    as (Hst & Hmem & _ & _ & Hauth).
  cbn zeta in Hst, Hmem, Hauth.
  set (db1 := rebuild_index db0 "_auth" (Some arr)) in *.
  rewrite bool_decide_eq_true_2 by done.
  assert (Hitems : forall item,
            item ∈ children (Some arr) <-> exists id', live !! id' = Some item).
  { intros item. subst arr. cbn [children child].
    rewrite list_elem_of_fmap. split.
    - intros ([id' item'] & -> & Hin%elem_of_map_to_list). by exists id'.
    - intros [id' Hin]. exists (id', item). split; [done|].
      by apply elem_of_map_to_list. }
  destruct (foldM_load_auth_entry (children (Some arr)) (auth_cache_ db1))
    as (cache & -> & Hcache).
  { apply Forall_forall. intros item [id' Hin]%Hitems.
    by apply (Hreadable id'). }
  cbn [mbind outcome_bind].
  set (db2 := set_auth_cache _ db1).
  assert (Hcoll : memory_store_ db2 !! "_auth" = Some (Some arr)).
  { subst db2. cbn [memory_store_ set_auth_cache]. rewrite Hmem.
    subst db0. cbn. apply lookup_insert_eq. }
  rewrite (DbFacts.compact_collection_present _ _ _ _ _ Hcoll).
  assert (Hlookup : auth_cache_ db2 !! key_hash = Some role).
  { subst db2. cbn [auth_cache_ set_auth_cache]. apply Hcache.
    - intros item role' [id' Hin]%Hitems. by apply (Hagree id').
    - right. exists doc. split; [|done]. apply Hitems. by exists id. }
  assert (Hauthenticate : forall key,
            key <> "" -> hash_key key = key_hash ->
            authenticate db2 key = role).
  { intros key Hkey Hhash. unfold authenticate.
    rewrite bool_decide_eq_false_2 by done. by rewrite Hhash, Hlookup. }
  destruct (fragmented _ _); eexists _, _; (split; [done|]);
    exact Hauthenticate.
Qed.

End with_external.
End AuthFacts.

(** ** Index declarations across a restart *)

Module DeclarationFacts.
Import cjson Db.

Section with_external.
Context `{External}.

Lemma elem_of_declarations fields c f :
  (c, f) ∈ declarations fields <-> f ∈ at_ fields c.
Proof.
  unfold declarations. rewrite list_elem_of_In, in_flat_map. split.
  - intros ([c' fs] & Hin & Hpair).
    apply list_elem_of_In, elem_of_map_to_list in Hin.
    apply list_elem_of_In, list_elem_of_fmap in Hpair as (f' & [= -> ->] & Hf).
    unfold at_. rewrite Hin. cbn. by apply elem_of_elements.
  - intros Hf. unfold at_ in Hf.
    destruct (fields !! c) as [fs|] eqn:Hc;
      [|by apply not_elem_of_empty in Hf].
    exists (c, fs). split.
    + by apply list_elem_of_In, elem_of_map_to_list.
    + apply list_elem_of_In, list_elem_of_fmap. exists f.
      split; [done|]. by apply elem_of_elements.
Qed.

Lemma load_index_declaration fields c f :
  load_index_entry fields (declaration c f)
  = Returns (<[c := at_ fields c ∪ {[f]}]> fields).
Proof. reflexivity. Qed.

Lemma foldM_load_index_entry pairs : forall fields,
  exists fields',
    foldM load_index_entry (map (fun '(c, f) => declaration c f) pairs) fields
    = Returns fields'
    /\ forall c f, f ∈ at_ fields' c <-> f ∈ at_ fields c \/ (c, f) ∈ pairs.
Proof.
  induction pairs as [|[c f] pairs IH]; intros fields; cbn [map foldM].
  { exists fields. split; [done|]. intros c f. split; [by left|].
    intros [?|Hin]; [done|]. by apply elem_of_nil in Hin. }
  rewrite load_index_declaration. cbn [mbind outcome_bind].
  destruct (IH (<[c := at_ fields c ∪ {[f]}]> fields))
    as (fields' & -> & Hfields').
  exists fields'. split; [done|]. intros c' f'. rewrite Hfields'.
  rewrite elem_of_cons. unfold at_ at 1.
  destruct (decide (c' = c)) as [->|Hne].
  - rewrite lookup_insert_eq. cbn [default from_option id].
    rewrite elem_of_union, elem_of_singleton. split.
    + intros [[?| ->]|?]; auto.
    + intros [?|[[= ->]|?]]; auto.
  - rewrite lookup_insert_ne by done. fold (at_ fields c'). split.
    + intros [?|?]; auto.
    + intros [?|[[= ? ?]|?]]; [auto|done|auto].
Qed.

Lemma index_snapshot_children fields :
  child (index_snapshot fields)
  = map (fun '(c, f) => declaration c f) (declarations fields).
Proof.
  unfold index_snapshot.
  change (map (fun '(c, f) => declaration c f) ?l)
    with (child cJSON_CreateArray ++ map (fun '(c, f) => declaration c f) l).
  generalize cJSON_CreateArray.
  induction (declarations fields) as [|[c f] rest IH]; intros arr;
    cbn [fold_left map].
  - by rewrite app_nil_r.
  - rewrite IH. cbn [append_child child]. by rewrite <- app_assoc.
Qed.

(** The array [create_index] prints is the snapshot of the registry. *)
Lemma create_index_snapshot (fields : gmap string (gset string)) :
  fold_left
    (fun arr '(c_name, fs) =>
       fold_left
         (fun arr f_name =>
            append_child arr
              (cJSON_AddStringToObject
                 (cJSON_AddStringToObject cJSON_CreateObject
                    "collection" c_name)
                 "field" f_name))
         (elements fs) arr)
    (map_to_list fields) cJSON_CreateArray
  = index_snapshot fields.
Proof.
  unfold index_snapshot, declarations. generalize cJSON_CreateArray.
  induction (map_to_list fields) as [|[c fs] rest IH]; intros arr;
    cbn [fold_left flat_map]; [done|].
  rewrite IH, fold_left_app. f_equal. clear. revert arr.
  induction (elements fs) as [|f fs' IH]; intros arr; cbn [fold_left map];
    [done|].
  by rewrite IH.
Qed.

(** X29.  Index declarations survive a restart.  When [create_index]
    has replaced the log of [_indexes] by the snapshot of the registry and
    the snapshot reads back as it was printed, loading [_indexes] into a
    registry without declarations gives the declarations held in memory
    after the call. *)
Theorem create_index_recovery db disk coll field io0 db0 :
  field ∉ at_ (indexed_fields_ db) coll ->
  let db' := (create_index db disk coll field Engine.CompactOk).1.2 in
  let disk' := (create_index db disk coll field Engine.CompactOk).2 in
  let snapshot := index_snapshot (indexed_fields_ db') in
  Engine.fits_frame (cJSON_PrintUnformatted snapshot) ->
  cJSON_Parse (c_string (cJSON_PrintUnformatted snapshot)) = Some snapshot ->
  storage_ db0 = storage_ db ->
  indexed_fields_ db0 = ∅ ->
  exists db'',
    load_collection io0 (db0, disk') "_indexes" = Returns (db'', disk')
    /\ forall c f,
         f ∈ at_ (indexed_fields_ db'') c <-> f ∈ at_ (indexed_fields_ db') c.
Proof.
  intros Hnew. unfold create_index.
  rewrite bool_decide_eq_false_2 by done.
  set (db1 := set_indexed_fields _ db).
  set (db2 := match memory_store_ db1 !! coll with
              | Some array =>
                  fold_left (fun db item => update_custom_index db coll item)
                    (children array) db1
              | None => db1
              end).
  assert (Hst : storage_ db2 = storage_ db).
  { subst db2. destruct (memory_store_ db1 !! coll) as [array|]; [|done].
    by destruct (IndexFacts.backfill_frame coll (children array) db1)
      as (-> & _). }
  rewrite create_index_snapshot.
  destruct (Engine.compact _ _ _ _ _) as [ok disk'] eqn:Hcompact.
  cbn [fst snd]. intros Hfits Hparse Hdir Hempty.
  assert (Hlog : Engine.load_log (storage_ db0) disk' "_indexes"
                 = [cJSON_PrintUnformatted
                      (index_snapshot (indexed_fields_ db2))]).
  { rewrite Hdir, <- Hst.
    replace disk' with
      (Engine.compact (storage_ db2) disk "_indexes"
         [cJSON_PrintUnformatted (index_snapshot (indexed_fields_ db2))]
         Engine.CompactOk).2 by by rewrite Hcompact.
    rewrite EngineFacts.load_log_compact. cbn [map].
    by rewrite EngineFacts.stored_fits. }
  unfold load_collection. rewrite bool_decide_eq_true_2 by done.
  rewrite Hlog. cbn [foldM]. unfold load_index_frame at 1.
  rewrite Hparse, index_snapshot_children.
  destruct (foldM_load_index_entry (declarations (indexed_fields_ db2))
              (indexed_fields_ db0)) as (fields' & -> & Hfields').
  cbn [mbind outcome_bind]. eexists. split; [done|].
  intros c f. cbn [indexed_fields_ set_indexed_fields].
  rewrite Hfields', elem_of_declarations, Hempty. unfold at_ at 1.
  rewrite lookup_empty. cbn [default from_option id]. split.
  - intros [Hin|?]; [|done]. by apply not_elem_of_empty in Hin.
  - by right.
Qed.

End with_external.
End DeclarationFacts.

(** ** Update *)

Module UpdateFacts.
Import cjson Db.

Section with_external.
Context `{External}.

(** X30.  What [update] leaves behind.  The collection becomes the array
    the predicate engine returned, both indexes are rebuilt from it, and
    the log is rewritten by a compaction: when the compaction succeeds the
    log holds the printed documents of the new array, one frame each; when
    it fails the log file is as it was before the call.  The call reports
    true in both cases. *)
Theorem update_persists db disk coll query data io array :
  memory_store_ db !! coll = Some (Some array) ->
  let new_collection :=
    cJSON_Parse
      (call_update (cJSON_PrintUnformatted array)
         (cJSON_PrintUnformatted query) (cJSON_PrintUnformatted data)) in
  exists db' disk',
    update db disk coll query data io = Returns (true, db', disk')
    /\ documents db' coll = children new_collection
    /\ (forall x,
          at_ (id_indexes_ db') coll !! x
          = last (filter (fun doc => document_id doc = Some x)
                    (children new_collection)))
    /\ (io = Engine.CompactOk ->
        Engine.load_log (storage_ db) disk' coll
        = map Engine.stored
            (map cJSON_PrintUnformatted (children new_collection)))
    /\ (io <> Engine.CompactOk ->
        disk' !! Engine.get_path (storage_ db) coll
        = disk !! Engine.get_path (storage_ db) coll).
Proof.
  intros Hcoll new_collection. unfold update. rewrite Hcoll.
  cbn [print_ptr fmap option_fmap option_map std_string mbind outcome_bind].
  fold new_collection.
  set (db0 := set_memory_store <[coll := new_collection]> db).
  destruct (DbFacts.rebuild_index_frame db0 coll new_collection)
    as (Hst & Hmem & _).
  cbn zeta in Hst, Hmem.
  assert (Hnew : memory_store_ (rebuild_index db0 coll new_collection) !! coll
                 = Some new_collection).
  { rewrite Hmem. subst db0. cbn. apply lookup_insert_eq. }
  rewrite (DbFacts.compact_collection_present _ _ _ _ _ Hnew), Hst.
  change (storage_ db0) with (storage_ db).
  eexists _, _. split; [done|]. split; [|split; [|split]].
  - unfold documents. by rewrite Hnew.
  - intros x. apply IndexFacts.rebuild_index_lookup.
  - intros ->. apply EngineFacts.load_log_compact.
  - intros Hio. unfold Engine.compact.
    destruct io; [done|done| |]; cbn [snd].
    + apply lookup_delete_ne, EngineFacts.temp_path_fresh.
    + apply lookup_insert_ne, EngineFacts.temp_path_fresh.
Qed.

End with_external.
End UpdateFacts.

(** ** The request handler *)

Module HandlerFacts.
Import cjson Db Handler.

Section with_external.
Context `{External}.
Context (valueint : cJSON -> Z).

Lemma insert_registries db disk coll data fresh_id io ok db' disk' :
  insert db disk coll data fresh_id io = Returns (ok, db', disk') ->
  registries db' = registries db.
Proof.
  unfold insert. destruct (negb (validate db coll data));
    [by intros [= _ <- _]|].
  unfold get_collection.
  destruct (memory_store_ db !! coll) as [arr|];
    (intros Hinsert; apply MutationFacts.bind_returns in Hinsert as ([uuid item] & _ & Hret);
     destruct (Engine.append _ _ _ _ _) as [ok' disk1];
     injection Hret as _ <- _;
     match goal with
     | |- registries (update_custom_index ?d _ _) = _ =>
         destruct (DbFacts.update_custom_index_frame d coll
                     (cJSON_Duplicate item))
           as (_ & _ & _ & Hsch & Hfields & Hauth)
     end;
     cbn zeta in Hsch, Hfields, Hauth; unfold registries;
     by rewrite Hsch, Hfields, Hauth).
Qed.

Lemma update_registries db disk coll query data io ok db' disk' :
  update db disk coll query data io = Returns (ok, db', disk') ->
  registries db' = registries db.
Proof.
  unfold update. destruct (memory_store_ db !! coll) as [array|];
    [|by intros [= _ <- _]].
  intros Hupdate. apply MutationFacts.bind_returns in Hupdate as (raw_d & _ & Hret).
  set (new_collection := cJSON_Parse _) in Hret.
  set (db0 := set_memory_store <[coll := new_collection]> db) in Hret.
  destruct (DbFacts.rebuild_index_frame db0 coll new_collection)
    as (_ & Hmem & Hsch & Hfields & Hauth).
  cbn zeta in Hmem, Hsch, Hfields, Hauth.
  rewrite (DbFacts.compact_collection_present _ _ _ _ new_collection) in Hret.
  2: { rewrite Hmem. subst db0. cbn. apply lookup_insert_eq. }
  injection Hret as _ <- _. unfold registries.
  by rewrite Hsch, Hfields, Hauth.
Qed.

Lemma remove_document_registries io coll st uuid :
  registries (remove_document io coll st uuid).1 = registries st.1.
Proof.
  destruct st as [db disk]. unfold remove_document.
  destruct (at_ (id_indexes_ db) coll !! uuid) as [target_doc|]; [|done].
  destruct (Engine.append _ _ _ _ _) as [ok disk'].
  destruct (MutationFacts.update_custom_index_remove_frame db coll target_doc)
    as (_ & _ & _ & Hsch & Hfields & Hauth).
  cbn zeta in Hsch, Hfields, Hauth. unfold memory_store_subscript.
  destruct (memory_store_ _ !! coll); cbn [fst]; unfold registries;
    cbn [auth_cache_ schemas_ indexed_fields_ set_memory_store
         set_id_indexes];
    by rewrite Hsch, Hfields, Hauth.
Qed.

Lemma remove_registries db disk coll query io ok db' disk' :
  remove db disk coll query io = Returns (ok, db', disk') ->
  registries db' = registries db.
Proof.
  unfold remove. destruct (memory_store_ db !! coll) as [array|];
    [|by intros [= _ <- _]].
  intros Hremove.
  apply MutationFacts.bind_returns in Hremove as (ids0 & _ & Hremove).
  apply MutationFacts.bind_returns in Hremove as (ids & _ & Hremove).
  case_bool_decide; [by injection Hremove as _ <- _|].
  destruct (fold_left _ _ _) as [db1 disk1] eqn:Hfold.
  injection Hremove as _ <- _.
  change db1 with (db1, disk1).1. rewrite <- Hfold. clear.
  change db with (db, disk).1 at 2. generalize (db, disk).
  induction ids as [|uuid ids IH]; intros st; cbn [fold_left]; [done|].
  by rewrite IH, remove_document_registries.
Qed.

Lemma upsert_registries db disk coll query data fresh_id append_io compact_io
    ok db' disk' :
  upsert db disk coll query data fresh_id append_io compact_io
  = Returns (ok, db', disk') ->
  registries db' = registries db.
Proof.
  unfold upsert, upsert_mutation. intros Hupsert.
  apply MutationFacts.bind_returns in Hupsert as (existing & _ & Hupsert).
  destruct (0 <? existing).
  - by apply update_registries in Hupsert.
  - by apply insert_registries in Hupsert.
Qed.

Lemma dispatch_not_admin db disk env req role action collection
    resp ok msg db' disk' :
  is_admin role = false ->
  dispatch valueint db disk env req role action collection
  = Returns (resp, ok, msg, db', disk') ->
  registries db' = registries db.
Proof.
  intros Hadmin. unfold dispatch. rewrite Hadmin. cbn [negb].
  repeat case_bool_decide; intros Hdispatch;
    repeat match type of Hdispatch with
    | match ?m with _ => _ end = _ => destruct m
    end;
    try (by injection Hdispatch as _ _ _ <- _);
    apply MutationFacts.bind_returns in Hdispatch as ([[ok' db1] disk1] & Hcall & Hret)
      || apply MutationFacts.bind_returns in Hdispatch as (res & Hcall & Hret);
    injection Hret as _ _ _ <- _.
  - by apply insert_registries in Hcall.
  - by apply upsert_registries in Hcall.
  - done.
  - done.
  - by apply update_registries in Hcall.
  - by apply remove_registries in Hcall.
Qed.

Lemma dispatch_read_only db disk env req action collection
    resp ok msg db' disk' :
  action = "create_user" \/ has_permission READ_ONLY action = true ->
  dispatch valueint db disk env req READ_ONLY action collection
  = Returns (resp, ok, msg, db', disk') ->
  db' = db /\ disk' = disk.
Proof.
  intros Haction. unfold dispatch. cbv zeta beta. cbn [is_admin negb].
  case_bool_decide as Hcreate.
  { intros Hret. injection Hret as _ _ _ Hdb Hdisk. by subst. }
  destruct Haction as [?|Haction]; [done|]. cbn [has_permission] in Haction.
  apply orb_prop in Haction as [->%bool_decide_eq_true | ->%bool_decide_eq_true].
  - rewrite !bool_decide_eq_false_2 by done.
    rewrite bool_decide_eq_true_2 by done. intros Hfind.
    apply MutationFacts.bind_returns in Hfind as (res & _ & Hret).
    by injection Hret as _ _ _ <- <-.
  - rewrite !bool_decide_eq_false_2 by done.
    rewrite bool_decide_eq_true_2 by done. intros Hcount.
    apply MutationFacts.bind_returns in Hcount as (res & _ & Hret).
    by injection Hret as _ _ _ <- <-.
Qed.

(** X19.  A request that carries no valid key changes nothing and is
    answered with an error: a request that is empty, that does not parse, or
    whose [auth] member does not authenticate. *)
Theorem process_without_key db disk raw_json env :
  role_of db raw_json = NONE ->
  exists message,
    process valueint db disk raw_json env
    = Returns (literal_response "error" message, db, disk).
Proof.
  unfold role_of, process. case_bool_decide; [by eexists|].
  destruct (cJSON_Parse (c_string raw_json)) as [req|]; [|by eexists].
  intros ->. by eexists.
Qed.

(** X20.  A request served under the role READ_ONLY never changes the
    state, in memory or on disk, whatever its action and arguments. *)
Theorem process_read_only db disk raw_json env resp db' disk' :
  role_of db raw_json = READ_ONLY ->
  process valueint db disk raw_json env = Returns (resp, db', disk') ->
  db' = db /\ disk' = disk.
Proof.
  unfold role_of, process. case_bool_decide; [done|].
  destruct (cJSON_Parse (c_string raw_json)) as [req|]; [|done].
  intros ->. cbn [is_none].
  destruct (negb (bool_decide (member_string req "action" = "create_user"))
            && negb (has_permission READ_ONLY (member_string req "action")))
    eqn:Hallowed; [intros Hret; injection Hret as _ Hdb Hdisk; by subst|].
  destruct (bool_decide (_ = "exit"));
    [intros Hret; injection Hret as _ Hdb Hdisk; by subst|].
  intros Hprocess.
  apply MutationFacts.bind_returns in Hprocess
    as ([[[[resp_root ok] msg] db1] disk1] & Hdispatch & Hret).
  injection Hret as _ <- <-.
  apply dispatch_read_only in Hdispatch; [done|].
  apply andb_false_iff in Hallowed as [Hcreate|Hperm].
  - left. apply negb_false_iff in Hcreate. by apply bool_decide_eq_true in Hcreate.
  - right. by apply negb_false_iff in Hperm.
Qed.

(** X21.  A request that is not served under the role ADMIN never changes
    the credentials, the schemas or the index declarations kept in
    memory. *)
Theorem process_not_admin db disk raw_json env resp db' disk' :
  role_of db raw_json <> ADMIN ->
  process valueint db disk raw_json env = Returns (resp, db', disk') ->
  registries db' = registries db.
Proof.
  unfold role_of, process. case_bool_decide; [intros _ Hret; injection Hret as _ Hdb _; by subst|].
  destruct (cJSON_Parse (c_string raw_json)) as [req|];
    [|intros _ Hret; injection Hret as _ Hdb _; by subst].
  intros Hrole.
  destruct (is_none _); [intros Hret; injection Hret as _ Hdb _; by subst|].
  destruct (_ && _); [intros Hret; injection Hret as _ Hdb _; by subst|].
  case_bool_decide; [intros Hret; injection Hret as _ Hdb _; by subst|].
  intros Hprocess.
  apply MutationFacts.bind_returns in Hprocess
    as ([[[[resp_root ok] msg] db1] disk1] & Hdispatch & Hret).
  injection Hret as _ <- _.
  apply dispatch_not_admin in Hdispatch; [done|].
  by destruct (authenticate db _).
Qed.

End with_external.
End HandlerFacts.

(** ** Worked examples on the concrete instance *)

Module Examples.
Import cjson Db.

(** C8, counterexample.  A log of 202 frames that replays to 101 live
    documents: the database is opened, 202 is not more than twice 101, the
    log is not compacted and still holds 202 frames, not 101. *)
Lemma open_202_frames :
  match Db.open (H := Demo.external) "db" Demo.disk_202 ["items.aev"]
          (fun _ => Engine.CompactOk) "root-id" 0%float Engine.WriteOk with
  | Returns (db', disk') =>
      length (documents db' "items") = 101%nat
      /\ length (Engine.load_log "db" disk' "items") = 202%nat
  | Throws => False
  end.
Proof. vm_compute. split; reflexivity. Qed.

Lemma load_collection_compacts_witness :
  exists db' disk',
    load_collection (H := Demo.external) (fun _ => Engine.CompactOk)
      (empty_db "db", Demo.disk_203) "items" = Returns (db', disk')
    /\ length (Engine.load_log "db" disk' "items") = 101%nat.
Proof.
  destruct (DbFacts.load_collection_compacts (H := Demo.external)
              (fun _ => Engine.CompactOk) (empty_db "db") Demo.disk_203
              "items" ltac:(discriminate) ltac:(discriminate))
    as [Hreturns Hafter].
  destruct (Hreturns ltac:(discriminate)) as (db' & disk' & Hload).
  exists db', disk'. split; [exact Hload|].
  destruct (Hafter db' disk' Hload) as (Hlive & _ & _ & H101).
  assert (Hsize : size (replay (H := Demo.external)
                          (Engine.load_log "db" Demo.disk_203 "items"))
                  = 101%nat) by (vm_compute; reflexivity).
  apply H101.
  - rewrite Hlive. exact Hsize.
  - vm_compute. lia.
  - reflexivity.
Defined.

Lemma load_collection_replay_witness :
  (exists db' disk' arr,
      load_collection (H := Demo.external) (fun _ => Engine.CompactOk)
        (empty_db "db", Demo.disk_tombstones) "items" = Returns (db', disk')
      /\ memory_store_ db' !! "items" = Some (Some arr)
      /\ child arr
         ≡ₚ (map_to_list
               (replay (H := Demo.external)
                  (Engine.load_log "db" Demo.disk_tombstones "items"))).*2)
  /\ (forall tombstone id,
        meaning (H := Demo.external) tombstone = Tombstone id ->
        replay (H := Demo.external)
          (Engine.load_log "db" Demo.disk_tombstones "items") !! id = None ->
        replay (H := Demo.external)
          (Engine.load_log "db" Demo.disk_tombstones "items" ++ [tombstone])
        = replay (H := Demo.external)
            (Engine.load_log "db" Demo.disk_tombstones "items")).
Proof.
  apply (DbFacts.load_collection_replay (H := Demo.external)
           (fun _ => Engine.CompactOk) (empty_db "db") Demo.disk_tombstones
           "items"); discriminate.
Defined.

(** The log with the two tombstones replays to the one document that was
    not deleted. *)
Lemma replay_tombstones :
  replay (H := Demo.external)
    (Engine.load_log "db" Demo.disk_tombstones "items")
  = {["b" := Demo.doc [("_id", "b")]]}.
Proof. vm_compute. reflexivity. Qed.

(** C3, on the code.  The directory lists [items.aev] before
    [_indexes.aev]: after recovery the field [kind] is registered on
    [items] and the live document, whose [kind] is the string [A], is in
    no entry of the secondary index.  Listed the other way round, the
    document is indexed. *)
Lemma recovery_order_loses_index :
  match load_all (H := Demo.external) (fun _ => Engine.CompactOk)
          (empty_db "db") Demo.disk_indexed ["items.aev"; "_indexes.aev"],
        load_all (H := Demo.external) (fun _ => Engine.CompactOk)
          (empty_db "db") Demo.disk_indexed ["_indexes.aev"; "items.aev"]
  with
  | Returns (db1, _), Returns (db2, _) =>
      documents db1 "items" = [Demo.kind_A]
      /\ at_ (indexed_fields_ db1) "items" = {["kind"]}
      /\ index_key (H := Demo.external)
           (cJSON_GetObjectItem (Some Demo.kind_A) "kind") = Some "A"
      /\ index_entry db1 "items" "kind" "A" = []
      /\ custom_indexes_ db1 !! "items" = Some ∅
      /\ documents db2 "items" = [Demo.kind_A]
      /\ index_entry db2 "items" "kind" "A" = [Demo.kind_A]
  | _, _ => False
  end.
Proof. vm_compute. repeat split; reflexivity. Qed.

(** What the defect does to a query: after the recovery in the first
    order, the one-key query on the indexed field is answered by the
    secondary index, which is empty. *)
Lemma recovery_order_loses_document :
  match load_all (H := Demo.external) (fun _ => Engine.CompactOk)
          (empty_db "db") Demo.disk_indexed ["items.aev"; "_indexes.aev"]
  with
  | Returns (db1, _) =>
      find (H := Demo.external) db1 "items"
        (Some (Demo.doc [("kind", "A")])) None None 0 0
      = Returns (Some cJSON_CreateArray)
  | Throws => False
  end.
Proof. vm_compute. reflexivity. Qed.

(** C3, on the code, a second way.  A collection holds one document; an
    index is declared on its field [a] and then one on its field [b].  The
    backfill of the second declaration files every document again under
    every registered field: the document is now twice in the entry of
    [a], and a query on [a] returns it twice. *)
Lemma create_index_files_twice :
  let '(_, db1, disk1) :=
    create_index (H := Demo.external) (Demo.db_of "c" [Demo.two_fields]) ∅
      "c" "a" Engine.CompactOk in
  let '(_, db2, _) :=
    create_index (H := Demo.external) db1 disk1 "c" "b" Engine.CompactOk in
  index_entry db1 "c" "a" "x" = [Demo.two_fields]
  /\ index_entry db2 "c" "a" "x" = [Demo.two_fields; Demo.two_fields]
  /\ index_entry db2 "c" "b" "y" = [Demo.two_fields]
  /\ documents db2 "c" = [Demo.two_fields]
  /\ find (H := Demo.external) db2 "c" (Some (Demo.doc [("a", "x")]))
       None None 0 0
     = Returns (Some (Demo.array [Demo.two_fields; Demo.two_fields])).
Proof. vm_compute. repeat split; reflexivity. Qed.

(** C4, on the code.  A query with the two keys [_id] and [v], no sort and
    no projection: whatever the predicate engine is, [find] answers from
    the primary index with the document filed under the [_id], whose [v] is
    not the one asked for; the engine is not consulted. *)
Lemma find_id_with_other_key (E : External) :
  cJSON_GetArraySize (Some Demo.abc_with_other_v) = 2%nat
  /\ find (H := E) (Demo.db_of "c" [Demo.abc; Demo.xyz]) "c"
       (Some Demo.abc_with_other_v) None None 0 0
     = Returns (Some (Demo.array [Demo.abc])).
Proof. split; vm_compute; reflexivity. Qed.

(** C5, on the code.  The collection [c] holds [abc], in memory and in
    its log.  A document is inserted while the device takes no more bytes.
    Its frame is small: it is still in the buffer of the stream when
    [Engine::append] reads [good()], and it is lost when the stream is
    closed.  [insert] returns true, the document is in memory under its
    fresh identifier, and the log holds the one frame it held, so that a
    restart brings back [abc] alone: the append failed and is reported as a
    success, where the doc comment of [Engine::append] promises true for a
    write that was committed and the one of [Db::insert] false for an I/O
    error.  The second case: a document that passes validation with a
    number for its [_id] makes [insert] build a [std::string] from a null
    pointer, and the call does not return, with false or otherwise. *)
Lemma insert_lost_at_close :
  exists db' disk',
    insert (H := Demo.external) (Demo.db_of "c" [Demo.abc]) Demo.disk_abc "c"
      (Demo.doc [("v", "3")]) "fresh" (Engine.CloseFailed 0)
    = Returns (true, db', disk')
    /\ documents db' "c"
       = [Demo.abc; Demo.doc [("v", "3"); ("_id", "fresh")]]
    /\ at_ (id_indexes_ db') "c" !! "fresh"
       = Some (Demo.doc [("v", "3"); ("_id", "fresh")])
    /\ Engine.load_log "db" Demo.disk_abc "c" = [Demo.print Demo.abc]
    /\ Engine.load_log "db" disk' "c" = [Demo.print Demo.abc]
    /\ (exists db_r,
          load_all (H := Demo.external) (fun _ => Engine.CompactOk)
            (empty_db "db") disk' ["c.aev"]
          = Returns (db_r, disk')
          /\ documents db_r "c" = [Demo.abc])
    /\ validate (H := Demo.external) (Demo.db_of "c" [Demo.abc]) "c"
         Demo.number_id = true
    /\ insert (H := Demo.external) (Demo.db_of "c" [Demo.abc]) Demo.disk_abc
         "c" Demo.number_id "fresh" Engine.WriteOk
       = Throws.
Proof.
  eexists _, _. split; [vm_compute; reflexivity|].
  do 4 (split; [vm_compute; reflexivity|]).
  split; [|split; vm_compute; reflexivity].
  eexists. split; vm_compute; reflexivity.
Qed.

Lemma compact_collection_preserves_witness :
  exists disk',
    compact_collection (H := Demo.external)
      (Demo.db_of "c" [Demo.abc; Demo.xyz]) Demo.disk_abc_xyz "c"
      Engine.CompactOk
    = (true, Demo.db_of "c" [Demo.abc; Demo.xyz], disk')
    /\ Engine.load_log "db" disk' "c"
       = [Demo.print Demo.abc; Demo.print Demo.xyz].
Proof.
  destruct (DbFacts.compact_collection_preserves (H := Demo.external)
              (Demo.db_of "c" [Demo.abc; Demo.xyz]) Demo.disk_abc_xyz "c"
              Engine.CompactOk
              (Some (Demo.array [Demo.abc; Demo.xyz])) eq_refl)
    as (ok & disk' & Hcompact & Hok & Hlog).
  assert (Htrue : ok = true) by (apply Hok; reflexivity).
  rewrite Htrue in Hcompact.
  exists disk'. split; [exact Hcompact|].
  destruct (Hlog Htrue) as (_ & _ & Hfits). apply Hfits.
  repeat constructor; vm_compute; reflexivity.
Defined.

(** C10, on the code.  The collection [c] exists in memory, and the
    predicate engine answers an update with a text that is no JSON.
    [update] returns true, leaves the collection with a null array and
    compacts its log to no frame at all.  The next update of [c], whatever the engine, the query, the operators
    and the outcome of the compaction, prints the null array, gets a null
    pointer and builds a [std::string] from it: the call does not return,
    on a collection that exists in memory. *)
Lemma update_after_unparseable_result :
  exists db' disk',
    update (H := Demo.unparseable_engine) (Demo.db_of "c" [Demo.abc])
      Demo.disk_abc "c" (Demo.doc [("_id", "abc")]) (Demo.doc [("v", "9")])
      Engine.CompactOk
    = Returns (true, db', disk')
    /\ memory_store_ db' !! "c" = Some None
    /\ Engine.load_log "db" Demo.disk_abc "c" = [Demo.print Demo.abc]
    /\ Engine.load_log "db" disk' "c" = []
    /\ forall (E : External) query data io,
         update (H := E) db' disk' "c" query data io = Throws.
Proof.
  eexists _, _. split; [vm_compute; reflexivity|].
  do 3 (split; [vm_compute; reflexivity|]).
  intros E query data io.
  apply (DbFacts.update_return_value (H := E)). vm_compute. reflexivity.
Qed.

(** C7, on the code.  A call of [upsert] is two critical sections, the
    count under the reader lock and the mutation under the writer lock.
    Two threads upsert the same document into a collection that does not
    exist: when the second thread counts between the count and the
    mutation of the first, both find nothing and both insert, and the
    collection ends with two documents; one call after the other ends with
    one document, the second call updating what the first inserted. *)
Lemma upsert_interleaves :
  map Locking.mode (Demo.upsert_call "id-1")
    = [Locking.Shared; Locking.Exclusive]
  /\ ~ Locking.one_exclusive_section (Demo.upsert_call "id-1")
  /\ match Locking.run [0; 1; 0; 1]%nat Demo.two_upserts (empty_db "db", ∅),
           Locking.run [0; 0; 1; 1]%nat Demo.two_upserts (empty_db "db", ∅)
     with
     | Returns (interleaved, (db1, _)), Returns (serial, (db2, _)) =>
         interleaved.*2 = [1; 1] /\ serial.*2 = [1; 1]
         /\ documents db1 "c"
            = [Demo.doc [("k", "v"); ("_id", "id-1")];
               Demo.doc [("k", "v"); ("_id", "id-2")]]
         /\ documents db2 "c" = [Demo.doc [("k", "v"); ("_id", "id-1")]]
     | _, _ => False
     end.
Proof.
  split; [reflexivity|]. split.
  - intros (section & Hcall & _). discriminate Hcall.
  - vm_compute. repeat split; reflexivity.
Qed.

Lemma authenticate_create_user_witness :
  authenticate (H := Demo.external)
    (create_user (H := Demo.external) (empty_db "db") ∅ "root" "admin"
       "root-id" 0%float Engine.WriteOk).1.2 "root"
  = ADMIN.
Proof.
  apply (proj1 (DbFacts.authenticate_create_user (H := Demo.external)
                  (empty_db "db") ∅ "root" "admin" "root-id" 0%float
                  Engine.WriteOk ltac:(discriminate))).
Defined.

(** Scenario 4: the document filed under [abc], whatever the insertion
    order. *)
Lemma find_by_id_witness :
  find (H := Demo.external) (Demo.db_of "c" [Demo.xyz; Demo.abc]) "c"
    (Some (Demo.doc [("_id", "abc")])) None None 0 0
  = Returns (Some (Demo.array [Demo.abc])).
Proof.
  apply (DbFacts.find_by_id (H := Demo.external)
           (Demo.db_of "c" [Demo.xyz; Demo.abc]) "c"
           (Some (Demo.array [Demo.xyz; Demo.abc]))
           (set_name "_id" (cJSON_CreateString "abc")) "abc");
    reflexivity.
Defined.

(** The second of the two documents of kind [A], by the index. *)
Lemma find_by_index_witness :
  find (H := Demo.external) Demo.db_kinds "c"
    (Some (Demo.doc [("kind", "A")])) None None 1 1
  = Returns (Some (Demo.array [Demo.kind_A'])).
Proof.
  apply (DbFacts.find_by_index (H := Demo.external) Demo.db_kinds "c"
           (Some (Demo.array [Demo.kind_A; Demo.kind_B; Demo.kind_A']))
           (set_name "kind" (cJSON_CreateString "A")) "kind" "A" {["kind"]}
           (Demo.doc [("kind", "A")]) 1 1);
    try reflexivity; try lia; discriminate.
Defined.

Lemma create_index_again_witness :
  create_index (H := Demo.external) Demo.db_kinds ∅ "c" "kind"
    Engine.CompactOk
  = (true, Demo.db_kinds, ∅).
Proof.
  apply (DbFacts.create_index_again (H := Demo.external)). reflexivity.
Defined.

Lemma open_replay_witness :
  exists db' disk' arr,
    Db.open (H := Demo.external) "db" Demo.disk_tombstones ["items.aev"]
      (fun _ => Engine.CompactOk) "root-id" 0%float Engine.WriteOk
    = Returns (db', disk')
    /\ memory_store_ db' !! "items" = Some (Some arr)
    /\ child arr ≡ₚ [Demo.doc [("_id", "b")]].
Proof.
  destruct (DbFacts.open_replay (H := Demo.external) "db"
              Demo.disk_tombstones ["items.aev"] (fun _ => Engine.CompactOk)
              "root-id" 0%float Engine.WriteOk "items")
    as [Hdocs Hreturns].
  - vm_compute. apply NoDup_singleton.
  - vm_compute. constructor.
  - discriminate.
  - discriminate.
  - discriminate.
  - destruct Hreturns as (db' & disk' & Hopen).
    + vm_compute. intros Hin%list_elem_of_singleton. discriminate Hin.
    + vm_compute. intros Hin%list_elem_of_singleton. discriminate Hin.
    + destruct (Hdocs db' disk' Hopen) as (arr & Hmem & Hperm).
      exists db', disk', arr. split; [exact Hopen|]. split; [exact Hmem|].
      rewrite Hperm, replay_tombstones. reflexivity.
Defined.

(** ** The utilities, the schemas, deletion and the request handler on
    the concrete instance *)

(** The example of [string.hpp], and what the C++ function returns for a
    few more strings. *)
Lemma trim_examples :
  InfraString.trim ("   SELECT * FROM users   " +:+ String "010"%char "")
  = "SELECT * FROM users"
  /\ InfraString.trim (String "009"%char (String "010"%char " ")) = ""
  /\ InfraString.trim " a b " = "a b"
  /\ InfraString.trim "" = "".
Proof. repeat split; reflexivity. Qed.

(** What the C++ function prints for three pairs of samples. *)
Lemma generate_examples :
  IdGenerator.generate 0 0 = "00000000-0000-4000-8000-000000000000"
  /\ IdGenerator.generate 0x0123456789abcdef 0xfedcba9876543210
     = "01234567-89ab-4def-bedc-ba9876543210"
  /\ IdGenerator.generate (2 ^ 64 - 1) (2 ^ 64 - 1)
     = "ffffffff-ffff-4fff-bfff-ffffffffffff".
Proof. repeat split; vm_compute; reflexivity. Qed.

Lemma set_schema_recovery_witness :
  exists db',
    load_collection (H := Demo.external) (fun _ => Engine.CompactOk)
      (empty_db "db",
       (set_schema (H := Demo.external) (empty_db "db") ∅ "c"
          Demo.schema_object Engine.WriteOk).2)
      "_schemas"
    = Returns
        (db',
         (set_schema (H := Demo.external) (empty_db "db") ∅ "c"
            Demo.schema_object Engine.WriteOk).2)
    /\ schemas_ db' !! "c" = None.
Proof.
  destruct (MutationFacts.set_schema_recovery (H := Demo.external)
              (empty_db "db") ∅ "c" Demo.schema_object
              (fun _ => Engine.CompactOk) (empty_db "db"))
    as (db' & Hload & Hschemas & _);
    [reflexivity | vm_compute; reflexivity | reflexivity | reflexivity |].
  exists db'. split; [exact Hload|]. rewrite Hschemas. reflexivity.
Defined.

Lemma remove_by_id_witness :
  exists db' disk',
    remove (H := Demo.external) Demo.db_kinds ∅ "c"
      (Demo.doc [("_id", "b")]) (fun _ => Engine.OpenFailed)
    = Returns (true, db', disk')
    /\ documents db' "c" = [Demo.kind_A; Demo.kind_A']
    /\ index_entry db' "c" "kind" "B" = []
    /\ index_entry db' "c" "kind" "A" = [Demo.kind_A; Demo.kind_A']
    /\ at_ (id_indexes_ db') "c" !! "b" = None
    /\ disk' = ∅.
Proof.
  destruct (MutationFacts.remove_by_id (H := Demo.external)
              Demo.db_kinds ∅ "c" (Demo.doc [("_id", "b")])
              (set_name "_id" (cJSON_CreateString "b")) "b" Demo.kind_B
              (Demo.array [Demo.kind_A; Demo.kind_B; Demo.kind_A'])
              (fun _ => Engine.OpenFailed) [Demo.kind_A] [Demo.kind_A'])
    as (db' & Hremove & Hids & Hdocs & Hentries & _); try reflexivity.
  - intros Hin. apply list_elem_of_singleton in Hin. discriminate Hin.
  - intros Hin. apply list_elem_of_singleton in Hin. discriminate Hin.
  - apply MutationFacts.filed_once_check.
    match goal with
    | |- ?P => apply (bool_decide_eq_true_1 P)
    end.
    vm_compute. reflexivity.
  - exists db', ∅. split; [exact Hremove|]. split; [exact Hdocs|].
    rewrite !Hentries, Hids.
    repeat split; vm_compute; reflexivity.
Defined.

Lemma remove_durable_witness :
  exists db' disk',
    remove (H := Demo.external) (Demo.db_of "c" [Demo.abc; Demo.xyz])
      Demo.disk_abc_xyz "c" (Demo.doc [("_id", "abc")])
      (fun _ => Engine.WriteOk)
    = Returns (true, db', disk')
    /\ replay (H := Demo.external) (Engine.load_log "db" disk' "c")
       = delete "abc"
           (replay (H := Demo.external)
              (Engine.load_log "db" Demo.disk_abc_xyz "c")).
Proof.
  apply (MutationFacts.remove_durable (H := Demo.external)
           (Demo.db_of "c" [Demo.abc; Demo.xyz]) Demo.disk_abc_xyz "c"
           (Demo.doc [("_id", "abc")])
           (set_name "_id" (cJSON_CreateString "abc")) "abc" Demo.abc
           (Some (Demo.array [Demo.abc; Demo.xyz])) (fun _ => Engine.WriteOk)
           [Demo.print Demo.abc; Demo.print Demo.xyz]);
    reflexivity.
Defined.

Lemma process_without_key_witness :
  exists message,
    Handler.process (H := Demo.external) Demo.valueint Demo.users.1
      Demo.users.2 (Demo.insert_request "nobody") Demo.env
    = Returns
        (Handler.literal_response "error" message, Demo.users.1,
         Demo.users.2).
Proof.
  apply (HandlerFacts.process_without_key (H := Demo.external)).
  vm_compute. reflexivity.
Defined.

Lemma process_read_only_witness :
  Handler.role_of (H := Demo.external) Demo.users.1
    (Demo.insert_request "reader") = READ_ONLY
  /\ Handler.process (H := Demo.external) Demo.valueint Demo.users.1
       Demo.users.2 (Demo.insert_request "reader") Demo.env
     = Returns
         (Handler.literal_response "error"
            "Forbidden: Insufficient RBAC privileges",
          Demo.users.1, Demo.users.2).
Proof.
  assert (Hrole : Handler.role_of (H := Demo.external) Demo.users.1
                    (Demo.insert_request "reader") = READ_ONLY)
    by (vm_compute; reflexivity).
  assert (Hprocess :
    Handler.process (H := Demo.external) Demo.valueint Demo.users.1
      Demo.users.2 (Demo.insert_request "reader") Demo.env
    = Returns
        (Handler.literal_response "error"
           "Forbidden: Insufficient RBAC privileges",
         Demo.users.1, Demo.users.2))
    by (vm_compute; reflexivity).
  destruct (HandlerFacts.process_read_only (H := Demo.external) Demo.valueint
              _ _ _ _ _ _ _ Hrole Hprocess) as [_ _].
  split; [exact Hrole | exact Hprocess].
Defined.

Lemma process_not_admin_witness :
  exists resp db' disk',
    Handler.process (H := Demo.external) Demo.valueint Demo.users.1
      Demo.users.2 (Demo.insert_request "writer") Demo.env
    = Returns (resp, db', disk')
    /\ Handler.registries db' = Handler.registries Demo.users.1.
Proof.
  eexists _, _, _. split.
  - vm_compute. reflexivity.
  - eapply (HandlerFacts.process_not_admin (H := Demo.external) Demo.valueint
              Demo.users.1 Demo.users.2 (Demo.insert_request "writer")
              Demo.env).
    + vm_compute. discriminate.
    + vm_compute. reflexivity.
Defined.

Lemma create_index_backfill_witness :
  exists ok db' disk',
    create_index (H := Demo.external) (Demo.db_of "c" [Demo.two_fields]) ∅
      "c" "a" Engine.RenameFailed
    = (ok, db', disk')
    /\ ok = false
    /\ index_entry db' "c" "a" "x" = [Demo.two_fields].
Proof.
  destruct (IndexFacts.create_index_backfill (H := Demo.external)
              (Demo.db_of "c" [Demo.two_fields]) ∅ "c" "a"
              Engine.RenameFailed)
    as (ok & db' & disk' & Hcreate & Hok & _ & _ & _ & _ & Hentries).
  { apply not_elem_of_empty. }
  exists ok, db', disk'. split; [exact Hcreate|]. split.
  - destruct ok; [|reflexivity]. discriminate (proj1 Hok eq_refl).
  - rewrite Hentries. reflexivity.
Defined.

Lemma insert_then_find_witness :
  exists ok db' disk',
    insert (H := Demo.external) (Demo.db_of "c" [Demo.xyz]) ∅ "c" Demo.abc
      "id-1" Engine.OpenFailed
    = Returns (ok, db', disk')
    /\ find (H := Demo.external) db' "c" (Some (Demo.doc [("_id", "abc")]))
         None None 0 0
       = Returns (Some (Demo.array [Demo.abc])).
Proof.
  apply (RoundTripFacts.insert_then_find (H := Demo.external)
           (Demo.db_of "c" [Demo.xyz]) ∅ "c" Demo.abc "id-1"
           Engine.OpenFailed "abc" (Demo.doc [("_id", "abc")])
           (set_name "_id" (cJSON_CreateString "abc")) 0 0);
    reflexivity.
Defined.

Lemma remove_then_find_witness :
  exists db' disk',
    remove (H := Demo.external) (Demo.db_of "c" [Demo.abc; Demo.xyz]) ∅ "c"
      (Demo.doc [("_id", "abc")]) (fun _ => Engine.WriteOk)
    = Returns (true, db', disk')
    /\ find (H := Demo.external) db' "c" (Some (Demo.doc [("_id", "abc")]))
         None None 0 0
       = Returns (Some cJSON_CreateArray).
Proof.
  apply (RoundTripFacts.remove_then_find (H := Demo.external)
           (Demo.db_of "c" [Demo.abc; Demo.xyz]) ∅ "c"
           (Demo.doc [("_id", "abc")])
           (set_name "_id" (cJSON_CreateString "abc")) "abc" Demo.abc
           (Some (Demo.array [Demo.abc; Demo.xyz])) (fun _ => Engine.WriteOk)
           0 0);
    reflexivity.
Defined.

Lemma insert_durable_witness :
  exists db' disk',
    insert (H := Demo.external) (Demo.db_of "c" [Demo.abc; Demo.xyz])
      Demo.disk_abc_xyz "c" (Demo.doc [("_id", "abc"); ("v", "3")]) "id-1"
      Engine.WriteOk
    = Returns (true, db', disk')
    /\ replay (H := Demo.external) (Engine.load_log "db" disk' "c")
       = <["abc" := Demo.doc [("_id", "abc"); ("v", "3")]]>
           (replay (H := Demo.external)
              (Engine.load_log "db" Demo.disk_abc_xyz "c")).
Proof.
  apply (RoundTripFacts.insert_durable (H := Demo.external)
           (Demo.db_of "c" [Demo.abc; Demo.xyz]) Demo.disk_abc_xyz "c"
           (Demo.doc [("_id", "abc"); ("v", "3")]) "id-1" "abc"
           [Demo.print Demo.abc; Demo.print Demo.xyz]
           (Demo.doc [("_id", "abc"); ("v", "3")]));
    reflexivity.
Defined.

Lemma auth_recovery_witness :
  exists db' disk',
    load_collection (H := Demo.external) (fun _ => Engine.CompactOk)
      (empty_db "db", Demo.disk_forged) "_auth"
    = Returns (db', disk')
    /\ authenticate (H := Demo.external) db' "intruder" = ADMIN.
Proof.
  assert (Hlive : replay (H := Demo.external)
                    (Engine.load_log (storage_ (empty_db "db"))
                       Demo.disk_forged "_auth")
                  = {["x" := Demo.forged_user]})
    by (vm_compute; reflexivity).
  destruct (AuthFacts.auth_recovery (H := Demo.external)
              (fun _ => Engine.CompactOk) (empty_db "db") Demo.disk_forged
              "x" Demo.forged_user (Hash.hash_key true "intruder") ADMIN)
    as (db' & disk' & Hload & Hauthenticate).
  - rewrite Hlive. reflexivity.
  - reflexivity.
  - intros id' doc'. rewrite Hlive.
    intros [_ <-]%lookup_singleton_Some. right. right.
    exists (Hash.hash_key true "intruder", ADMIN). reflexivity.
  - intros id' doc' role'. rewrite Hlive.
    intros [_ <-]%lookup_singleton_Some Hcredential.
    vm_compute in Hcredential. injection Hcredential as <-. reflexivity.
  - exists db', disk'. split; [exact Hload|].
    apply Hauthenticate; [discriminate | reflexivity].
Defined.

Lemma create_index_recovery_witness :
  exists db'',
    load_collection (H := Demo.external) (fun _ => Engine.CompactOk)
      (empty_db "db",
       (create_index (H := Demo.external) (Demo.db_of "c" [Demo.two_fields])
          ∅ "c" "a" Engine.CompactOk).2)
      "_indexes"
    = Returns
        (db'',
         (create_index (H := Demo.external) (Demo.db_of "c" [Demo.two_fields])
            ∅ "c" "a" Engine.CompactOk).2)
    /\ "a" ∈ at_ (indexed_fields_ db'') "c".
Proof.
  destruct (DeclarationFacts.create_index_recovery (H := Demo.external)
              (Demo.db_of "c" [Demo.two_fields]) ∅ "c" "a"
              (fun _ => Engine.CompactOk) (empty_db "db"))
    as (db'' & Hload & Hfields);
    [apply not_elem_of_empty | reflexivity | reflexivity | reflexivity
    | reflexivity |].
  exists db''. split; [exact Hload|]. apply Hfields. reflexivity.
Defined.

Lemma update_persists_witness :
  exists db' disk',
    update (H := Demo.external) (Demo.db_of "c" [Demo.abc]) ∅ "c"
      (Demo.doc [("_id", "abc")]) (Demo.doc [("v", "9")]) Engine.CompactOk
    = Returns (true, db', disk')
    /\ documents db' "c" = [Demo.abc]
    /\ Engine.load_log "db" disk' "c" = [Demo.print Demo.abc].
Proof.
  destruct (UpdateFacts.update_persists (H := Demo.external)
              (Demo.db_of "c" [Demo.abc]) ∅ "c" (Demo.doc [("_id", "abc")])
              (Demo.doc [("v", "9")]) Engine.CompactOk
              (Demo.array [Demo.abc]) eq_refl)
    as (db' & disk' & Hupdate & Hdocs & _ & Hlog & _).
  exists db', disk'. split; [exact Hupdate|]. split.
  - rewrite Hdocs. reflexivity.
  - change "db" with (storage_ (Demo.db_of "c" [Demo.abc])).
    rewrite (Hlog eq_refl). reflexivity.
Defined.

End Examples.
